(** * Chess-Tutor: the rules engine and the puzzle session

    A shallow embedding of [chess.h] / [chess.cpp] (class [Chess], struct
    [Square]) and of [chesspuzzle.h] / [chesspuzzle.cpp] (class
    [ChessPuzzle]), followed by the properties of the specification that
    concern them.

    Conventions of the embedding.
    - A C++ [int] is a [Z].  The integers that occur are coordinates in
      [0,7], their differences, the players [1] and [-1] and the contents
      of squares; only differences of coordinates, products with [1] or
      [-1] and absolute values are taken, and on the boards of [wf_board]
      none of them leaves the range of [int].
    - [int board[8][8]] is a list of rows.  A subscript outside [0,7] is
      undefined behaviour in C++; here it stops the computation with
      [OutOfBounds].  Integer division by zero stops it with
      [DivisionByZero], a C++ [throw] with [Thrown].
    - A [while] loop whose bound is not syntactic takes a [fuel]; running
      out of it is the error [OutOfFuel].
    - Qt signals and timer registrations are collected, in program order,
      in a list of [Effect]s.  Text written to [std::cout] and the playing
      of [QSoundEffect]s are not part of the model.
    - The [float] arguments of [capture_at] are a small integer plus or
      minus one half, exact in binary floating point; they are kept as
      rationals. *)

From Stdlib Require Import ZArith QArith Lia Bool Ascii String List.
From stdpp Require Import base list strings pretty.

Local Open Scope Z_scope.

(** ** Failure *)

Inductive fault : Type :=
| OutOfBounds
| DivisionByZero
| OutOfFuel
| Thrown (what : string).

Inductive result (A : Type) : Type :=
| Ok (a : A)
| Err (e : fault).

Arguments Ok {A} a.
Arguments Err {A} e.

#[global] Instance result_ret : MRet result := λ A a, Ok a.
#[global] Instance result_bind : MBind result :=
  λ A B f m, match m with Ok a => f a | Err e => Err e end.

(** ** Signals, timers *)

Inductive Player : Type := WHITE | BLACK.

Definition player_code (p : Player) : Z :=
  match p with WHITE => 1 | BLACK => -1 end.

Inductive Piece : Type := PAWN | ROOK | KNIGHT | BISHOP | QUEEN | KING.

Definition piece_code (p : Piece) : Z :=
  match p with
  | PAWN => 1 | ROOK => 2 | KNIGHT => 3 | BISHOP => 4 | QUEEN => 5 | KING => 6
  end.

(** The [case] labels of a [switch] over [Piece]: the enumerator whose
    value is [k], if there is one. *)
Definition piece_of_code (k : Z) : option Piece :=
  if k =? 6 then Some KING
  else if k =? 5 then Some QUEEN
  else if k =? 4 then Some BISHOP
  else if k =? 3 then Some KNIGHT
  else if k =? 2 then Some ROOK
  else if k =? 1 then Some PAWN
  else None.

Inductive Slot : Type := slot_makeOpponentMove.

Inductive Effect : Type :=
| capture_at (x y : Q) (count : Z)
| update_board
| set_player (p : Player)
| won_game
| beatPuzzle
| singleShot (msec : Z) (slot : Slot).

(** ** The monad of a method: state of the object, failure, effects *)

Definition M (S A : Type) : Type := S → result (A * S * list Effect).

#[global] Instance M_ret {S} : MRet (M S) := λ A a s, Ok (a, s, []).
#[global] Instance M_bind {S} : MBind (M S) :=
  λ A B f m s,
    match m s with
    | Ok (a, s1, e1) =>
        match f a s1 with
        | Ok (b, s2, e2) => Ok (b, s2, e1 ++ e2)
        | Err e => Err e
        end
    | Err e => Err e
    end.

Definition gets {S A} (f : S → A) : M S A := λ s, Ok (f s, s, []).
Definition modify {S} (f : S → S) : M S unit := λ s, Ok (tt, f s, []).
Definition emit {S} (e : Effect) : M S unit := λ s, Ok (tt, s, [e]).
Definition liftR {S A} (r : result A) : M S A :=
  λ s, match r with Ok a => Ok (a, s, []) | Err e => Err e end.

(** ** Square *)

Record Square : Type := mkSquare { row : Z; col : Z }.

(** The value of a [char], signed as on x86. *)
Definition char_code (c : ascii) : Z :=
  let v := Z.of_N (N_of_ascii c) in if 128 <=? v then v - 256 else v.

(** [tolower] of the "C" locale. *)
Definition tolower (c : Z) : Z :=
  if (65 <=? c) && (c <=? 90) then c + 32 else c.

Definition isdigit (c : Z) : bool := (48 <=? c) && (c <=? 57).

(** [Square::Square(std::string)] *)
Definition Square_of_string (square : string) : result Square :=
  match square with
  | String c0 (String c1 EmptyString) =>
      let let_ := tolower (char_code c0) in
      let num := char_code c1 - 48 in
      if (let_ <? 97) || (let_ >? 104) then
        Err (Thrown ("Square: " +:+ square +:+ " can only have a letter of a-h. (Ex: h2, H2)"))
      else if (num <? 0) || (num >? 8) then
        Err (Thrown ("Square: " +:+ square +:+ " can only have a number of 1-8. (Ex: h2, H2)"))
      else Ok {| row := 8 - num; col := let_ - 97 |}
  | _ => Err (Thrown ("Square: " +:+ square +:+ " needs to be a length of 2. (Ex: h2, H2)"))
  end.

(** [Square::Square(int, int)] *)
Definition Square_of_ints (r c : Z) : result Square :=
  if (c >? 7) || (r >? 7) || (c <? 0) || (r <? 0) then
    Err (Thrown ("Square at row: " +:+ pretty r +:+ ", col: " +:+ pretty c +:+ "Is out of place."))
  else Ok {| row := r; col := c |}.

(** [Square::operator==] and [Square::operator!=] *)
Definition Square_eqb (a b : Square) : bool :=
  (row a =? row b) && (col a =? col b).

Definition Square_neqb (a b : Square) : bool :=
  negb (row a =? row b) || negb (col a =? col b).

Definition in_range (i : Z) : bool := (0 <=? i) && (i <? 8).

Definition InBounds (sq : Square) : Prop :=
  0 <= row sq <= 7 ∧ 0 <= col sq <= 7.

(** ** The board *)

Abbreviation Board := (list (list Z)).

(** A value that a square can hold: an [int] whose negation and absolute
    value are [int]s as well. *)
Definition int_cell (v : Z) : Prop := - 2 ^ 31 < v < 2 ^ 31.

(** The states of [int board[8][8]]: 8 rows of 8 such values. *)
Definition wf_board (b : Board) : Prop :=
  length b = 8%nat
  ∧ Forall (λ line : list Z, length line = 8%nat ∧ Forall int_cell line) b.

Definition cell (b : Board) (r c : Z) : option Z :=
  if in_range r && in_range c then
    match b !! Z.to_nat r with
    | Some line => line !! Z.to_nat c
    | None => None
    end
  else None.

(** [board[r][c]] read *)
Definition board_get (b : Board) (r c : Z) : result Z :=
  match cell b r c with
  | Some v => Ok v
  | None => Err OutOfBounds
  end.

(** [board[r][c] = v] *)
Definition board_set (b : Board) (r c v : Z) : result Board :=
  match cell b r c, b !! Z.to_nat r with
  | Some _, Some line => Ok (<[Z.to_nat r := <[Z.to_nat c := v]> line]> b)
  | _, _ => Err OutOfBounds
  end.

Definition empty_board : Board := replicate 8 (replicate 8 0).

(** ** Chess *)

Record Chess : Type := mkChess {
  debugging : bool;
  currentPlayer : Player;
  board : Board
}.

(** The member initialisers of [chess.h]. *)
Definition Chess_init : Chess :=
  {| debugging := false; currentPlayer := WHITE; board := empty_board |}.

Definition set_board (b : Board) (s : Chess) : Chess :=
  {| debugging := debugging s; currentPlayer := currentPlayer s; board := b |}.

Definition set_currentPlayer (p : Player) (s : Chess) : Chess :=
  {| debugging := debugging s; currentPlayer := p; board := board s |}.

Definition set_debugging (d : bool) (s : Chess) : Chess :=
  {| debugging := d; currentPlayer := currentPlayer s; board := board s |}.

Definition read_at (r c : Z) : M Chess Z :=
  λ s, liftR (board_get (board s) r c) s.

Definition write_at (r c v : Z) : M Chess unit :=
  λ s, match board_set (board s) r c v with
       | Ok b => Ok (tt, set_board b s, [])
       | Err e => Err e
       end.

Definition read (sq : Square) : M Chess Z := read_at (row sq) (col sq).

Definition write (sq : Square) (v : Z) : M Chess unit :=
  write_at (row sq) (col sq) v.

(** [Chess::Chess], the constructor *)
Definition Chess_ctor : M Chess unit :=
  p ← gets currentPlayer; emit (set_player p).

(** [Chess::switchPlayer] *)
Definition switchPlayer : M Chess unit :=
  p ← gets currentPlayer;
  (match p with
   | BLACK => modify (set_currentPlayer WHITE)
   | WHITE => modify (set_currentPlayer BLACK)
   end);;
  p' ← gets currentPlayer;
  emit (set_player p').

(** [Chess::addPiece] *)
Definition addPiece (player : Player) (piece : Piece) (square : Square) : M Chess unit :=
  write square (player_code player * piece_code piece).

(** [Chess::getPiece] *)
Definition getPiece (position : Square) : M Chess Z := read position.

(** [Chess::isLegalKingMove] *)
Definition isLegalKingMove (old target : Square) : bool :=
  existsb (λ i,
    existsb (λ j,
      Square_eqb {| row := row old + i; col := col old + j |} target)
      [-1; 0; 1])
    [-1; 0; 1].

(** [Chess::isPieceInterrupting]: the [while] loop, then the method. *)
Fixpoint isPieceInterrupting_loop (fuel : nat) (b : Board)
    (rowOffset colOffset : Z) (current target : Square) : result bool :=
  match fuel with
  | O => Err OutOfFuel
  | S fuel' =>
      if Square_neqb current target then
        v ← board_get b (row current) (col current);
        if negb (v =? 0) then Ok true
        else isPieceInterrupting_loop fuel' b rowOffset colOffset
               {| row := row current + rowOffset; col := col current + colOffset |}
               target
      else Ok false
  end.

Definition isPieceInterrupting (fuel : nat) (b : Board)
    (rowOffset colOffset : Z) (old target : Square) : result bool :=
  isPieceInterrupting_loop fuel b rowOffset colOffset
    {| row := row old + rowOffset; col := col old + colOffset |} target.

(** Integer division of C++: truncation, undefined for a zero divisor. *)
Definition int_div (a b : Z) : result Z :=
  if b =? 0 then Err DivisionByZero else Ok (Z.quot a b).

(** [Chess::isLegalBishopMove] *)
Definition isLegalBishopMove (fuel : nat) (b : Board) (old target : Square) : result bool :=
  let rowOffset := row target - row old in
  let colOffset := col target - col old in
  if Z.abs rowOffset - Z.abs colOffset =? 0 then
    rowOffset' ← int_div rowOffset (Z.abs rowOffset);
    colOffset' ← int_div colOffset (Z.abs colOffset);
    hit ← isPieceInterrupting fuel b rowOffset' colOffset' old target;
    Ok (negb hit)
  else Ok false.

(** [Chess::isLegalRookMove] *)
Definition isLegalRookMove (fuel : nat) (b : Board) (old target : Square) : result bool :=
  let rowOffset := row target - row old in
  let colOffset := col target - col old in
  if xorb (rowOffset =? 0) (colOffset =? 0) then
    '(rowOffset', colOffset') ←
      (if negb (rowOffset =? 0) then
         r ← int_div rowOffset (Z.abs rowOffset); Ok (r, colOffset)
       else if negb (colOffset =? 0) then
         c ← int_div colOffset (Z.abs colOffset); Ok (rowOffset, c)
       else Ok (rowOffset, colOffset)) : result (Z * Z);
    hit ← isPieceInterrupting fuel b rowOffset' colOffset' old target;
    Ok (negb hit)
  else Ok false.

(** [Chess::isLegalQueenMove]; [||] evaluates its right operand only when
    the left one is false. *)
Definition isLegalQueenMove (fuel : nat) (b : Board) (old target : Square) : result bool :=
  diag ← isLegalBishopMove fuel b old target;
  if (diag : bool) then Ok true else isLegalRookMove fuel b old target.

(** [Chess::isLegalKnightMove] *)
Definition isLegalKnightMove (old target : Square) : bool :=
  let rowOffsets := [-2; -2; -1; -1; 1; 1; 2; 2] in
  let colOffsets := [1; -1; 2; -2; -2; 2; 1; -1] in
  existsb (λ o : Z * Z,
    Square_eqb {| row := row old + o.1; col := col old + o.2 |} target)
    (zip rowOffsets colOffsets).

(** [Chess::isLegalPawnMove] *)
Definition isLegalPawnMove (fuel : nat) (b : Board) (old target : Square) : result bool :=
  let rowOffset := row target - row old in
  let colOffset := col target - col old in
  direction ← board_get b (row old) (col old);
  if rowOffset * direction >? 0 then Ok false
  else if (Z.abs colOffset =? 1) && (rowOffset * direction =? -1) then
    t ← board_get b (row target) (col target);
    Ok (t * direction <=? 0)
  else if (colOffset =? 0) && (Z.abs rowOffset =? 2) then
    if ((direction =? player_code WHITE) && negb (row old =? 6))
       || ((direction =? player_code BLACK) && negb (row old =? 1))
    then Ok false
    else
      hit ← isPieceInterrupting fuel b (- direction) 0 old target;
      Ok (negb hit)
  else if (colOffset =? 0) && (Z.abs rowOffset =? 1) then Ok true
  else Ok false.

(** [Chess::movePieceUnconditionally] *)
Definition movePieceUnconditionally (old target : Square) : M Chess unit :=
  t ← read target;
  let isKingTaken := Z.abs t =? 6 in
  (if negb (t =? 0) then
     o ← read old;
     if negb (o =? 0) then
       let wx := (inject_Z (col target) + (1 # 2))%Q in
       let wy := (8 - inject_Z (row target) - (1 # 2))%Q in
       emit (capture_at wx wy 30)
     else mret tt
   else mret tt);;
  o ← read old;
  write target o;;
  write old 0;;
  switchPlayer;;
  (if isKingTaken then emit won_game else mret tt);;
  emit update_board.

(** The [switch] of [Chess::movePiece]. *)
Definition movePiece_switch (fuel : nat) (piece : Z) (oldSquare newSquare : Square) : M Chess unit :=
  let run (legal : Board → result bool) : M Chess unit :=
    b ← gets board;
    ok ← liftR (legal b);
    if (ok : bool) then movePieceUnconditionally oldSquare newSquare else mret tt in
  match piece_of_code (Z.abs piece) with
  | Some KING => run (λ _, Ok (isLegalKingMove oldSquare newSquare))
  | Some QUEEN => run (λ b, isLegalQueenMove fuel b oldSquare newSquare)
  | Some BISHOP => run (λ b, isLegalBishopMove fuel b oldSquare newSquare)
  | Some KNIGHT => run (λ _, Ok (isLegalKnightMove oldSquare newSquare))
  | Some ROOK => run (λ b, isLegalRookMove fuel b oldSquare newSquare)
  | Some PAWN => run (λ b, isLegalPawnMove fuel b oldSquare newSquare)
  | None => mret tt
  end.

(** [Chess::movePiece] *)
Definition movePiece (fuel : nat) (oldSquare newSquare : Square) : M Chess unit :=
  piece ← read oldSquare;
  player ← gets currentPlayer;
  if piece * player_code player <=? 0 then mret tt
  else if Square_eqb oldSquare newSquare then mret tt
  else
    t ← read newSquare;
    if t * player_code player >? 0 then mret tt
    else movePiece_switch fuel piece oldSquare newSquare.

(** [Chess::clearBoard].  Both loops count downwards from [0] while the
    counter is below [8]. *)
Fixpoint clearBoard_cols (fuel : nat) (row col : Z) : M Chess unit :=
  match fuel with
  | O => liftR (Err OutOfFuel)
  | S fuel' =>
      if col <? 8 then
        write_at row col 0;;
        clearBoard_cols fuel' row (col - 1)
      else mret tt
  end.

Fixpoint clearBoard_rows (fuel : nat) (row : Z) : M Chess unit :=
  match fuel with
  | O => liftR (Err OutOfFuel)
  | S fuel' =>
      if row <? 8 then
        clearBoard_cols fuel' row 0;;
        clearBoard_rows fuel' (row - 1)
      else mret tt
  end.

Definition clearBoard (fuel : nat) : M Chess unit := clearBoard_rows fuel 0.

(** A counted [for] loop over a fixed range. *)
Fixpoint for_each {S A} (l : list A) (body : A → M S unit) : M S unit :=
  match l with
  | [] => mret tt
  | x :: l' => body x;; for_each l' body
  end.

(** [Chess::loadBoard] *)
Definition loadBoard (newBoard : Board) : M Chess unit :=
  for_each (seqZ 0 8) (λ row,
    for_each (seqZ 0 8) (λ col,
      v ← liftR (board_get newBoard row col);
      write_at row col v)).

(** [Chess::loadDefaultBoard] *)
Definition defaultBoard : Board :=
  let P := piece_code in
  [ [- P ROOK; - P KNIGHT; - P BISHOP; - P QUEEN; - P KING; - P BISHOP; - P KNIGHT; - P ROOK];
    [- P PAWN; - P PAWN; - P PAWN; - P PAWN; - P PAWN; - P PAWN; - P PAWN; - P PAWN];
    [0; 0; 0; 0; 0; 0; 0; 0];
    [0; 0; 0; 0; 0; 0; 0; 0];
    [0; 0; 0; 0; 0; 0; 0; 0];
    [0; 0; 0; 0; 0; 0; 0; 0];
    [P PAWN; P PAWN; P PAWN; P PAWN; P PAWN; P PAWN; P PAWN; P PAWN];
    [P ROOK; P KNIGHT; P BISHOP; P QUEEN; P KING; P BISHOP; P KNIGHT; P ROOK] ].

Definition loadDefaultBoard : M Chess unit := loadBoard defaultBoard.

(** ** ChessPuzzle *)

Record ChessPuzzle : Type := mkChessPuzzle {
  base : Chess;
  solutionMoves : list (Square * Square);
  currentStep : Z;
  puzzleElo : Z;
  usedHint : bool
}.

(** The member initialisers of [chesspuzzle.h], over those of [chess.h]. *)
Definition ChessPuzzle_init : ChessPuzzle :=
  {| base := Chess_init; solutionMoves := []; currentStep := 0;
     puzzleElo := 0; usedHint := false |}.

Definition set_base (c : Chess) (s : ChessPuzzle) : ChessPuzzle :=
  {| base := c; solutionMoves := solutionMoves s; currentStep := currentStep s;
     puzzleElo := puzzleElo s; usedHint := usedHint s |}.

Definition set_solutionMoves (l : list (Square * Square)) (s : ChessPuzzle) : ChessPuzzle :=
  {| base := base s; solutionMoves := l; currentStep := currentStep s;
     puzzleElo := puzzleElo s; usedHint := usedHint s |}.

Definition set_currentStep (n : Z) (s : ChessPuzzle) : ChessPuzzle :=
  {| base := base s; solutionMoves := solutionMoves s; currentStep := n;
     puzzleElo := puzzleElo s; usedHint := usedHint s |}.

Definition set_puzzleElo (n : Z) (s : ChessPuzzle) : ChessPuzzle :=
  {| base := base s; solutionMoves := solutionMoves s; currentStep := currentStep s;
     puzzleElo := n; usedHint := usedHint s |}.

(** A method of the base class run on the derived object. *)
Definition liftBase {A} (m : M Chess A) : M ChessPuzzle A :=
  λ s, match m (base s) with
       | Ok (a, c, e) => Ok (a, set_base c s, e)
       | Err e => Err e
       end.

(** An [int] converted to [std::size_t] (64 bits). *)
Definition to_size_t (i : Z) : Z := i mod 2 ^ 64.

(** [v[i]] on a [std::vector]: no bounds check in C++, [OutOfBounds] here. *)
Definition vector_at {A} (v : list A) (i : Z) : result A :=
  match v !! Z.to_nat (to_size_t i) with
  | Some x => Ok x
  | None => Err OutOfBounds
  end.

(** [ChessPuzzle::split]: [item] is the buffer that [std::getline] fills up
    to the next delimiter; at the end of the input a call that extracted
    nothing fails and ends the loop. *)
Fixpoint split_from (item : string) (s : string) (delimiter : ascii) : list string :=
  match s with
  | EmptyString => match item with EmptyString => [] | _ => [item] end
  | String c s' =>
      if Ascii.eqb c delimiter then item :: split_from EmptyString s' delimiter
      else split_from (item +:+ String c EmptyString) s' delimiter
  end.

Definition split (PGN : string) (delimiter : ascii) : list string :=
  split_from EmptyString PGN delimiter.

(** [std::stoi]: white space, an optional sign, then the longest run of
    decimal digits; [std::invalid_argument] without a digit,
    [std::out_of_range] outside [int]. *)
Definition isspace (c : Z) : bool := (c =? 32) || ((9 <=? c) && (c <=? 13)).

Fixpoint skip_spaces (s : string) : string :=
  match s with
  | String c s' => if isspace (char_code c) then skip_spaces s' else s
  | EmptyString => s
  end.

Fixpoint digits_value (acc : Z) (s : string) : Z :=
  match s with
  | String c s' =>
      if isdigit (char_code c) then digits_value (10 * acc + (char_code c - 48)) s'
      else acc
  | EmptyString => acc
  end.

Definition starts_with_digit (s : string) : bool :=
  match s with
  | String c _ => isdigit (char_code c)
  | EmptyString => false
  end.

Definition stoi (str : string) : result Z :=
  let s := skip_spaces str in
  let '(negative, s) :=
    match s with
    | String c s' =>
        if Ascii.eqb c "-" then (true, s')
        else if Ascii.eqb c "+" then (false, s')
        else (false, s)
    | EmptyString => (false, s)
    end in
  if starts_with_digit s then
    let v := if negative then - digits_value 0 s else digits_value 0 s in
    if (v <? - 2 ^ 31) || (v >? 2 ^ 31 - 1) then Err (Thrown "stoi")
    else Ok v
  else Err (Thrown "stoi").

(** [ChessPuzzle::toPiece] *)
Definition toPiece (c : ascii) : Z :=
  if Ascii.eqb c "k" then - piece_code KING
  else if Ascii.eqb c "q" then - piece_code QUEEN
  else if Ascii.eqb c "n" then - piece_code KNIGHT
  else if Ascii.eqb c "b" then - piece_code BISHOP
  else if Ascii.eqb c "r" then - piece_code ROOK
  else if Ascii.eqb c "p" then - piece_code PAWN
  else if Ascii.eqb c "K" then piece_code KING
  else if Ascii.eqb c "Q" then piece_code QUEEN
  else if Ascii.eqb c "N" then piece_code KNIGHT
  else if Ascii.eqb c "B" then piece_code BISHOP
  else if Ascii.eqb c "R" then piece_code ROOK
  else if Ascii.eqb c "P" then piece_code PAWN
  else 0.

(** [ChessPuzzle::loadFEN]: the loop over the placement field, then the
    method. *)
Fixpoint loadFEN_loop (startingPositions : string) (row col : Z) : M Chess unit :=
  match startingPositions with
  | EmptyString => mret tt
  | String c rest =>
      if Ascii.eqb c "/" then loadFEN_loop rest (row + 1) 0
      else if isdigit (char_code c) then
        loadFEN_loop rest row (col + (char_code c - 48))
      else
        write_at row col (toPiece c);;
        loadFEN_loop rest row (col + 1)
  end.

Definition loadFEN (FEN : string) : M Chess unit :=
  let parts := split FEN " " in
  startingPositions ← liftR (vector_at parts 0);
  startingPlayer ← liftR (vector_at parts 1);
  loadFEN_loop startingPositions 0 0;;
  if String.eqb startingPlayer "b" then modify (set_currentPlayer BLACK)
  else modify (set_currentPlayer WHITE).

(** [std::string::substr]: [std::out_of_range] when [pos] is past the end. *)
Definition substr (s : string) (pos n : nat) : result string :=
  if (String.length s <? pos)%nat then Err (Thrown "basic_string::substr")
  else Ok (String.substring pos n s).

(** [ChessPuzzle::loadMoves] *)
Definition loadMoves (pgnMoves : string) : M ChessPuzzle unit :=
  let moves := split pgnMoves " " in
  for_each moves (λ move,
    piece ← liftR (substr move 0 2 ≫= Square_of_string);
    location ← liftR (substr move 2 2 ≫= Square_of_string);
    modify (λ s, set_solutionMoves (solutionMoves s ++ [(piece, location)]) s)).

(** [ChessPuzzle::makeOpponentMove] *)
Definition makeOpponentMove : M ChessPuzzle unit :=
  step ← gets currentStep;
  moves ← gets solutionMoves;
  currentMove ← liftR (vector_at moves step);
  let piece : Square := currentMove.1 in
  let move : Square := currentMove.2 in
  liftBase (movePieceUnconditionally piece move);;
  modify (λ s, set_currentStep (currentStep s + 1) s).

(** [ChessPuzzle::ChessPuzzle(const std::string&)], run on the freshly
    initialised object: the base constructor comes first. *)
Definition ChessPuzzle_ctor (PGN : string) : M ChessPuzzle unit :=
  liftBase Chess_ctor;;
  liftBase (modify (set_debugging true));;
  let parts := split PGN "," in
  if (length parts <? 9)%nat then mret tt
  else
    fen ← liftR (vector_at parts 1);
    moves ← liftR (vector_at parts 2);
    themes ← liftR (vector_at parts 7);
    elo ← liftR (vector_at parts 3 ≫= stoi);
    modify (set_puzzleElo elo);;
    liftBase (loadFEN fen);;
    loadMoves moves;;
    makeOpponentMove;;
    p ← gets (λ s, currentPlayer (base s));
    emit (set_player p).

Definition new_ChessPuzzle (PGN : string) : result (unit * ChessPuzzle * list Effect) :=
  ChessPuzzle_ctor PGN ChessPuzzle_init.

(** [ChessPuzzle::makeGuess] *)
Definition makeGuess (from_sq to_sq : Square) : M ChessPuzzle bool :=
  step ← gets currentStep;
  moves ← gets solutionMoves;
  if to_size_t step >=? Z.of_nat (length moves) then mret false
  else
    expected ← liftR (vector_at moves step);
    if Square_eqb from_sq expected.1 && Square_eqb to_sq expected.2 then
      liftBase (movePieceUnconditionally from_sq to_sq);;
      modify (λ s, set_currentStep (currentStep s + 1) s);;
      step' ← gets currentStep;
      if to_size_t step' =? Z.of_nat (length moves) then
        emit beatPuzzle;;
        mret true
      else
        emit (singleShot 1000 slot_makeOpponentMove);;
        mret true
    else mret false.

(** [ChessPuzzle::isSolved] *)
Definition isSolved (s : ChessPuzzle) : bool :=
  to_size_t (currentStep s) >=? Z.of_nat (length (solutionMoves s)).

(** [ChessPuzzle::peekNextMove] *)
Definition peekNextMove (s : ChessPuzzle) : result (Square * Square) :=
  vector_at (solutionMoves s) (currentStep s).

(** ** The rest of the two classes *)

(** An [int] converted to [char]: its low 8 bits. *)
Definition to_char (v : Z) : ascii := ascii_of_N (Z.to_N (v mod 256)).

(** [operator<<(std::ostream&, const Square&)]: the text sent to the
    stream. *)
Definition Square_print (obj : Square) : string :=
  let let_ := to_char (97 + col obj) in
  let num := to_char (48 + 7 - row obj + 1) in
  "[" +:+ String let_ (String num EmptyString) +:+ "]" +:+ "("
      +:+ pretty (row obj) +:+ "," +:+ pretty (col obj) +:+ ")".

(** A counted [for] loop that updates a local variable. *)
Fixpoint for_eachR {A B} (l : list A) (body : A → B → result B) (acc : B) : result B :=
  match l with
  | [] => Ok acc
  | x :: l' => acc' ← body x acc; for_eachR l' body acc'
  end.

(** [Chess::getBoardVector]: the vector is created as 8 rows of 8 zeros and
    then filled. *)
Definition getBoardVector (s : Chess) : result Board :=
  for_eachR (seqZ 0 8) (λ i v,
    for_eachR (seqZ 0 8) (λ j v,
      x ← board_get (board s) i j;
      board_set v i j x) v)
    (replicate 8 (replicate 8 0)).

(** [ChessPuzzle::ChessPuzzle(const vector<vector<int>>&, const
    vector<pair<Square,Square>>&)], run on the freshly initialised object.
    [boardVec[r][c]] is not bounds-checked; the local array [raw] is
    written in full before it is read. *)
Definition ChessPuzzle_ctor_board (boardVec : list (list Z))
    (solMoves : list (Square * Square)) : M ChessPuzzle unit :=
  liftBase Chess_ctor;;
  modify (set_solutionMoves solMoves);;
  modify (set_currentStep 0);;
  raw ← liftR (for_eachR (seqZ 0 8) (λ r raw,
           for_eachR (seqZ 0 8) (λ c raw,
             line ← vector_at boardVec r;
             x ← vector_at line c;
             board_set raw r c x) raw)
           empty_board);
  liftBase (loadBoard raw).

Definition new_ChessPuzzle_board (boardVec : list (list Z))
    (solMoves : list (Square * Square)) : result (unit * ChessPuzzle * list Effect) :=
  ChessPuzzle_ctor_board boardVec solMoves ChessPuzzle_init.

(** [ChessPuzzle::setSolutionMoves] *)
Definition setSolutionMoves (solMoves : list (Square * Square)) : M ChessPuzzle unit :=
  modify (set_solutionMoves solMoves);;
  modify (set_currentStep 0).

(** The two hint signals of [ChessPuzzle]. *)
Inductive HintSignal : Type :=
| hintMoveAvailable (fromRow fromCol toRow toCol : Z)
| hintAvailable (fromRow fromCol : Z).

Definition set_usedHint (u : bool) (s : ChessPuzzle) : ChessPuzzle :=
  {| base := base s; solutionMoves := solutionMoves s; currentStep := currentStep s;
     puzzleElo := puzzleElo s; usedHint := u |}.

(** [ChessPuzzle::requestHintMove]: the object after the call and the hint
    signals emitted. *)
Definition requestHintMove (s : ChessPuzzle) : result (ChessPuzzle * list HintSignal) :=
  let s := set_usedHint true s in
  if to_size_t (currentStep s) <? Z.of_nat (length (solutionMoves s)) then
    mv ← vector_at (solutionMoves s) (currentStep s);
    Ok (s, [hintMoveAvailable (row mv.1) (col mv.1) (row mv.2) (col mv.2)])
  else Ok (s, []).

(** [ChessPuzzle::requestHint] *)
Definition requestHint (s : ChessPuzzle) : result (ChessPuzzle * list HintSignal) :=
  let s := set_usedHint true s in
  if to_size_t (currentStep s) <? Z.of_nat (length (solutionMoves s)) then
    mv ← vector_at (solutionMoves s) (currentStep s);
    Ok (s, [hintAvailable (row mv.1) (col mv.1)])
  else Ok (s, []).

(** [ChessBoard::mousePressEvent]: the arguments [(row, col)] of the
    [squareSelected] signal for a press at pixel [(x, y)]. *)
Definition mousePressEvent (x y : Z) : Z * Z :=
  let col := Z.quot x 50 in
  let row := Z.quot y 50 in
  (row, col).

(** * Vocabulary of the properties *)

(** The board with [v] stored in row [r], column [c]. *)
Definition upd (b : Board) (r c v : Z) : Board :=
  match b !! Z.to_nat r with
  | Some line => <[Z.to_nat r := <[Z.to_nat c := v]> line]> b
  | None => b
  end.

(** The text of a square: a file letter of either case, a rank digit 1-8. *)
Definition file_letter (c : ascii) : bool :=
  let v := char_code c in
  ((97 <=? v) && (v <=? 104)) || ((65 <=? v) && (v <=? 72)).

(** A rank digit, 1 to 8. *)
Definition rank_digit (c : ascii) : bool :=
  let v := char_code c in (49 <=? v) && (v <=? 56).

(** The other side. *)
Definition opponent (p : Player) : Player :=
  match p with WHITE => BLACK | BLACK => WHITE end.

(** The board after the two stores of a move. *)
Definition moved (b : Board) (old target : Square) (o : Z) : Board :=
  upd (upd b (row target) (col target) o) (row old) (col old) 0.

(** What a move emits for the capture, with [t] on the target and [o] on
    the origin, and for the king. *)
Definition capture_effects (t o : Z) (target : Square) : list Effect :=
  if negb (t =? 0) && negb (o =? 0) then
    [capture_at (inject_Z (col target) + (1 # 2))%Q
                (8 - inject_Z (row target) - (1 # 2))%Q 30]
  else [].

Definition won_effects (t : Z) : list Effect :=
  if Z.abs t =? 6 then [won_game] else [].

(** Recognisers of the effects. *)
Definition is_capture (e : Effect) : bool :=
  match e with capture_at _ _ _ => true | _ => false end.

Definition is_won (e : Effect) : bool :=
  match e with won_game => true | _ => false end.

Definition is_update (e : Effect) : bool :=
  match e with update_board => true | _ => false end.

(** How many of the effects satisfy [p]. *)
Definition fired (p : Effect → bool) (evs : list Effect) : nat :=
  length (List.filter p evs).

(** A game on the starting position, WHITE to move. *)
Definition default_game : Chess :=
  {| debugging := false; currentPlayer := WHITE; board := defaultBoard |}.

(** Does the square hold a piece? *)
Definition occupied (b : Board) (sq : Square) : bool :=
  match cell b (row sq) (col sq) with
  | Some v => negb (v =? 0)
  | None => false
  end.

(** The square one step of [(sr, sc)] further. *)
Definition step_from (sq : Square) (sr sc : Z) : Square :=
  {| row := row sq + sr; col := col sq + sc |}.

(** Is one of the [n] squares [cur], [cur + step], ... occupied? *)
Fixpoint blocked (b : Board) (cur : Square) (sr sc : Z) (n : nat) : bool :=
  match n with
  | O => false
  | S n' => occupied b cur || blocked b (step_from cur sr sc) sr sc n'
  end.

(** A step to one of the 8 neighbours. *)
Definition unit_step (sr sc : Z) : Prop :=
  -1 <= sr <= 1 ∧ -1 <= sc <= 1 ∧ (sr ≠ 0 ∨ sc ≠ 0).

(** The number of unit steps from [old] to [target] along a line. *)
Definition path_len (old target : Square) : Z :=
  Z.max (Z.abs (row target - row old)) (Z.abs (col target - col old)).

(** Is a square strictly between [old] and [target] occupied? *)
Definition between_blocked (b : Board) (old target : Square) : bool :=
  let sr := Z.sgn (row target - row old) in
  let sc := Z.sgn (col target - col old) in
  blocked b (step_from old sr sc) sr sc (Z.to_nat (path_len old target - 1)).

(** The tests of [isLegalBishopMove] and of [isLegalRookMove] on the
    direction of the move. *)
Definition diagonal (old target : Square) : bool :=
  Z.abs (row target - row old) - Z.abs (col target - col old) =? 0.

Definition straight (old target : Square) : bool :=
  xorb (row target - row old =? 0) (col target - col old =? 0).

(** The pawn rule in the words of the specification, for a pawn of sign
    [sign] on [old]: backward is illegal; a forward single step is legal;
    a forward diagonal step is legal iff the target piece times the sign is
    at most 0; a forward double step is legal iff the pawn is on its home
    rank and the square in between is empty; anything else is illegal. *)
Definition pawn_rule (b : Board) (sign : Z) (old target : Square) : bool :=
  let dr := row target - row old in
  let dc := col target - col old in
  let forward (n : Z) := dr * sign =? - n in
  if dr * sign >? 0 then false
  else if (Z.abs dc =? 0) && forward 1 then true
  else if (Z.abs dc =? 1) && forward 1 then
    match cell b (row target) (col target) with
    | Some t => t * sign <=? 0
    | None => false
    end
  else if (Z.abs dc =? 0) && forward 2 then
    (if sign >? 0 then row old =? 6 else row old =? 1)
    && negb (occupied b {| row := row old - sign; col := col old |})
  else false.

(** The answer of the legality predicate that the [switch] of [movePiece]
    selects for [piece]; a code that is the code of no kind selects none,
    and nothing accepts the move. *)
Definition kind_legal (fuel : nat) (b : Board) (piece : Z) (old target : Square) : result bool :=
  match piece_of_code (Z.abs piece) with
  | Some KING => Ok (isLegalKingMove old target)
  | Some QUEEN => isLegalQueenMove fuel b old target
  | Some BISHOP => isLegalBishopMove fuel b old target
  | Some KNIGHT => Ok (isLegalKnightMove old target)
  | Some ROOK => isLegalRookMove fuel b old target
  | Some PAWN => isLegalPawnMove fuel b old target
  | None => Ok false
  end.

Definition is_set_player (e : Effect) : bool :=
  match e with set_player _ => true | _ => false end.

(** The four reasons for which [movePiece] ignores a request: the origin
    piece is not of the side to move, the two squares are the same, the
    target holds a piece of the side to move, or the predicate of the
    piece's kind rejects the move. *)
Definition rejected (fuel : nat) (s : Chess) (old target : Square) (piece t : Z) : Prop :=
  piece * player_code (currentPlayer s) <= 0
  ∨ old = target
  ∨ t * player_code (currentPlayer s) > 0
  ∨ kind_legal fuel (board s) piece old target = Ok false.

Definition is_beatPuzzle (e : Effect) : bool :=
  match e with beatPuzzle => true | _ => false end.

(** The puzzle of the specification's scenario after its construction:
    rook a1-a8 played, the king's g8-h7 under the cursor. *)
Definition scenario_puzzle : ChessPuzzle :=
  {| base :=
       {| debugging := true; currentPlayer := BLACK;
          board := [ [2; 0; 0; 0; 0; 0; -6; 0];
                     [0; 0; 0; 0; 0; 0; 0; 0];
                     [0; 0; 0; 0; 0; 0; 0; 0];
                     [0; 0; 0; 0; 0; 0; 0; 0];
                     [0; 0; 0; 0; 0; 0; 0; 0];
                     [0; 0; 0; 0; 0; 0; 0; 0];
                     [0; 0; 0; 0; 0; 0; 0; 0];
                     [0; 0; 0; 0; 0; 0; 6; 0] ] |};
     solutionMoves :=
       [ ({| row := 7; col := 0 |}, {| row := 0; col := 0 |});
         ({| row := 0; col := 6 |}, {| row := 1; col := 7 |}) ];
     currentStep := 1;
     puzzleElo := 1500;
     usedHint := false |}.

(** The characters of a rank of a placement field: an empty run of 1 to 8
    squares, or a piece letter. *)
Definition fen_char (c : ascii) : bool :=
  existsb (Ascii.eqb c) (list_ascii_of_string "12345678pnbrqkPNBRQK").

(** The letters of a placement field: the piece that each one names, an
    upper-case letter WHITE's and a lower-case letter BLACK's. *)
Definition fen_pieces : list (ascii * (Player * Piece)) :=
  [ ("P"%char, (WHITE, PAWN)); ("N"%char, (WHITE, KNIGHT));
    ("B"%char, (WHITE, BISHOP)); ("R"%char, (WHITE, ROOK));
    ("Q"%char, (WHITE, QUEEN)); ("K"%char, (WHITE, KING));
    ("p"%char, (BLACK, PAWN)); ("n"%char, (BLACK, KNIGHT));
    ("b"%char, (BLACK, BISHOP)); ("r"%char, (BLACK, ROOK));
    ("q"%char, (BLACK, QUEEN)); ("k"%char, (BLACK, KING)) ].

(** The digits of a placement field: the number of empty squares that each
    one stands for. *)
Definition fen_digits : list (ascii * nat) :=
  [ ("1"%char, 1%nat); ("2"%char, 2%nat); ("3"%char, 3%nat); ("4"%char, 4%nat);
    ("5"%char, 5%nat); ("6"%char, 6%nat); ("7"%char, 7%nat); ("8"%char, 8%nat) ].

Fixpoint fen_lookup {A} (c : ascii) (table : list (ascii * A)) : option A :=
  match table with
  | [] => None
  | (k, v) :: table' => if Ascii.eqb c k then Some v else fen_lookup c table'
  end.

(** The squares that one character of a rank denotes: a letter one square
    with the code of its piece, positive for WHITE and negative for BLACK;
    a digit that many empty squares. *)
Definition fen_squares (c : ascii) : list Z :=
  match fen_lookup c fen_pieces, fen_lookup c fen_digits with
  | Some (side, kind), _ => [player_code side * piece_code kind]
  | None, Some n => replicate n 0
  | None, None => []
  end.

(** The squares that a rank of a placement field denotes, left to right. *)
Fixpoint fen_rank (r : string) : list Z :=
  match r with
  | EmptyString => []
  | String c r' => fen_squares c ++ fen_rank r'
  end.

Fixpoint string_forall (p : ascii → bool) (s : string) : bool :=
  match s with
  | EmptyString => true
  | String c s' => p c && string_forall p s'
  end.

(** A well-formed rank: FEN characters that fill exactly 8 squares. *)
Definition wf_rank (r : string) : Prop :=
  string_forall fen_char r = true ∧ length (fen_rank r) = 8%nat.

(** The board that the ranks of a placement field denote, rank 8 first. *)
Definition fen_board (ranks : list string) : Board := map fen_rank ranks.

(** The side that an active-colour field denotes. *)
Definition fen_player (colour : string) : Player :=
  if String.eqb colour "b" then BLACK else WHITE.

(** A token of the move list: two squares in text, and the pair of squares
    that the text constructor makes of them. *)
Definition square_pair_text (tok : string) (mv : Square * Square) : Prop :=
  ∃ c0 c1 c2 c3,
    tok = String c0 (String c1 (String c2 (String c3 EmptyString)))
    ∧ file_letter c0 = true ∧ rank_digit c1 = true
    ∧ file_letter c2 = true ∧ rank_digit c3 = true
    ∧ Square_of_string (String c0 (String c1 EmptyString)) = Ok mv.1
    ∧ Square_of_string (String c2 (String c3 EmptyString)) = Ok mv.2.

(** The record of the specification's scenario, and the ranks of its
    placement field. *)
Definition scenario_record : string :=
  "id,6k1/8/8/8/8/8/8/R5K1 w - - 0 1,a1a8 g8h7,1500,75,90,100,mate,url".

Definition scenario_ranks : list string :=
  ["6k1"; "8"; "8"; "8"; "8"; "8"; "8"; "R5K1"].

(** Every square strictly between [old] and [target], on the line from the
    one to the other, is empty. *)
Definition path_clear (b : Board) (old target : Square) : Prop :=
  ∀ k, 0 < k < path_len old target →
    cell b (row old + k * Z.sgn (row target - row old))
           (col old + k * Z.sgn (col target - col old)) = Some 0.

(** How many squares of the board hold a value that satisfies [p]. *)
Definition count_cells (p : Z → bool) (b : Board) : nat :=
  length (List.filter p (concat b)).

(** 1 if [p v], else 0. *)
Definition indicator (p : Z → bool) (v : Z) : nat := if p v then 1%nat else 0%nat.

Definition nonzero (v : Z) : bool := negb (v =? 0).

(** Is [v] a piece of [player]? *)
Definition piece_of (player : Player) (v : Z) : bool := v * player_code player >? 0.

(** Only 0 and the codes of the six kinds, of either sign, on the board. *)
Definition valid_codes (b : Board) : Prop :=
  Forall (Forall (λ v, -6 <= v <= 6)) b.

(** The character [d] does not occur in [s]. *)
Definition no_delim (d : ascii) (s : string) : Prop :=
  string_forall (λ c, negb (Ascii.eqb c d)) s = true.

(** The fields of a record without an empty last one. *)
Fixpoint drop_empty_last (fields : list string) : list string :=
  match fields with
  | [] => []
  | [EmptyString] => []
  | t :: rest => t :: drop_empty_last rest
  end.

(** How often [d] occurs in [s]. *)
Fixpoint string_count (d : ascii) (s : string) : nat :=
  match s with
  | EmptyString => 0%nat
  | String c s' => ((if Ascii.eqb c d then 1 else 0) + string_count d s')%nat
  end.

(** Is [d] the last character of [s]? *)
Fixpoint ends_with (d : ascii) (s : string) : bool :=
  match s with
  | EmptyString => false
  | String c EmptyString => Ascii.eqb c d
  | String _ s' => ends_with d s'
  end.

(** * Properties *)

(** Boolean comparisons on [Z] turned into arithmetic, then [lia]. *)
Ltac bool_to_prop :=
  repeat match goal with
         | H : _ |- _ =>
             progress rewrite ?Z.gtb_ltb, ?Z.geb_leb, ?andb_true_iff, ?andb_false_iff,
               ?orb_true_iff, ?orb_false_iff, ?negb_true_iff, ?negb_false_iff,
               ?Z.ltb_lt, ?Z.ltb_ge, ?Z.leb_le, ?Z.leb_gt, ?Z.eqb_eq, ?Z.eqb_neq in H
         end;
  rewrite ?Z.gtb_ltb, ?Z.geb_leb, ?andb_true_iff, ?andb_false_iff,
    ?orb_true_iff, ?orb_false_iff, ?negb_true_iff, ?negb_false_iff,
    ?Z.ltb_lt, ?Z.ltb_ge, ?Z.leb_le, ?Z.leb_gt, ?Z.eqb_eq, ?Z.eqb_neq.

Ltac bool_lia := bool_to_prop; lia.

(** ** Running the monad *)

Lemma bind_run {S A B} (m : M S A) (f : A → M S B) (s : S) :
  (m ≫= f) s =
  match m s with
  | Ok (a, s1, e1) =>
      match f a s1 with
      | Ok (b, s2, e2) => Ok (b, s2, e1 ++ e2)
      | Err e => Err e
      end
  | Err e => Err e
  end.
Proof. reflexivity. Qed.

Lemma bind_ok {S A B} (m : M S A) (f : A → M S B) s a s1 e1 :
  m s = Ok (a, s1, e1) →
  (m ≫= f) s =
  match f a s1 with
  | Ok (b, s2, e2) => Ok (b, s2, e1 ++ e2)
  | Err e => Err e
  end.
Proof. intros H. rewrite bind_run, H. reflexivity. Qed.

Lemma bind_err {S A B} (m : M S A) (f : A → M S B) s e :
  m s = Err e → (m ≫= f) s = Err e.
Proof. intros H. rewrite bind_run, H. reflexivity. Qed.

(** ** The board as an array *)

Lemma in_range_spec i : in_range i = true ↔ 0 <= i <= 7.
Proof. unfold in_range. rewrite andb_true_iff, Z.leb_le, Z.ltb_lt. lia. Qed.

Lemma cell_Some_inv b r c v :
  cell b r c = Some v →
  0 <= r <= 7 ∧ 0 <= c <= 7 ∧
  ∃ line, b !! Z.to_nat r = Some line ∧ line !! Z.to_nat c = Some v.
Proof.
  unfold cell. destruct (in_range r) eqn:Hr; [|discriminate].
  destruct (in_range c) eqn:Hc; [|discriminate]. simpl.
  apply in_range_spec in Hr. apply in_range_spec in Hc.
  destruct (b !! Z.to_nat r) as [line|] eqn:Hl; [|discriminate].
  intros Hv. eauto.
Qed.

Lemma cell_wf b r c :
  wf_board b → 0 <= r <= 7 → 0 <= c <= 7 → ∃ v, cell b r c = Some v.
Proof.
  intros [Hlen Hrows] Hr Hc. unfold cell.
  rewrite (proj2 (in_range_spec r) Hr), (proj2 (in_range_spec c) Hc). simpl.
  destruct (lookup_lt_is_Some_2 b (Z.to_nat r)) as [line Hline]; [lia|].
  rewrite Hline.
  apply (Forall_lookup_1 _ _ _ _ Hrows) in Hline as [Hll _].
  destruct (lookup_lt_is_Some_2 line (Z.to_nat c)) as [v Hv]; [lia|].
  eauto.
Qed.

Lemma board_get_cell b r c v : cell b r c = Some v → board_get b r c = Ok v.
Proof. unfold board_get. intros ->. reflexivity. Qed.

Lemma board_set_cell b r c v x :
  cell b r c = Some x → board_set b r c v = Ok (upd b r c v).
Proof.
  intros H. unfold board_set, upd. rewrite H.
  apply cell_Some_inv in H as (_ & _ & line & -> & _). reflexivity.
Qed.

Lemma board_set_oob b r c v : cell b r c = None → board_set b r c v = Err OutOfBounds.
Proof. unfold board_set. intros ->. reflexivity. Qed.

Lemma cell_upd b r c v x r' c' :
  cell b r c = Some x →
  cell (upd b r c v) r' c' =
  if (r =? r') && (c =? c') then Some v else cell b r' c'.
Proof.
  intros Hx. apply cell_Some_inv in Hx as (Hr & Hc & line & Hline & Hv).
  unfold upd. rewrite Hline.
  destruct (Z.eqb_spec r r') as [<-|Hnr]; simpl.
  - unfold cell. rewrite (proj2 (in_range_spec r) Hr). simpl.
    rewrite list_lookup_insert_eq by (eapply lookup_lt_Some; eauto).
    rewrite Hline.
    destruct (Z.eqb_spec c c') as [<-|Hnc].
    + rewrite (proj2 (in_range_spec c) Hc).
      apply list_lookup_insert_eq. eapply lookup_lt_Some; eauto.
    + destruct (in_range c') eqn:Hc'; [|reflexivity].
      apply in_range_spec in Hc'.
      apply list_lookup_insert_ne. lia.
  - unfold cell.
    destruct (in_range r') eqn:Hr'; [|reflexivity].
    apply in_range_spec in Hr'. simpl.
    rewrite list_lookup_insert_ne by lia. reflexivity.
Qed.

Lemma wf_upd b r c v : wf_board b → int_cell v → wf_board (upd b r c v).
Proof.
  intros [Hlen Hrows] Hv. unfold upd.
  destruct (b !! Z.to_nat r) as [line|] eqn:Hline; [|by split].
  split.
  - by rewrite length_insert.
  - apply Forall_insert; [done|].
    rewrite length_insert.
    apply (Forall_lookup_1 _ _ _ _ Hrows) in Hline as [Hll Hcells].
    split; [done|]. by apply Forall_insert.
Qed.

Lemma cell_int b r c v : wf_board b → cell b r c = Some v → int_cell v.
Proof.
  intros [_ Hrows] Hv.
  apply cell_Some_inv in Hv as (_ & _ & line & Hline & Hv).
  apply (Forall_lookup_1 _ _ _ _ Hrows) in Hline as [_ Hcells].
  by apply (Forall_lookup_1 _ _ _ _ Hcells) in Hv.
Qed.

Lemma read_run sq s v :
  cell (board s) (row sq) (col sq) = Some v → read sq s = Ok (v, s, []).
Proof.
  intros H. unfold read, read_at. by rewrite (board_get_cell _ _ _ _ H).
Qed.

Lemma write_run sq v s x :
  cell (board s) (row sq) (col sq) = Some x →
  write sq v s = Ok (tt, set_board (upd (board s) (row sq) (col sq) v) s, []).
Proof.
  intros H. unfold write, write_at. by rewrite (board_set_cell _ _ _ _ _ H).
Qed.

(** ** Squares *)

Lemma Square_eqb_eq a b : Square_eqb a b = true ↔ a = b.
Proof.
  unfold Square_eqb. rewrite andb_true_iff, !Z.eqb_eq.
  destruct a, b; simpl. split; [intros [-> ->]; reflexivity | intros [= -> ->]; done].
Qed.

Lemma Square_eqb_refl a : Square_eqb a a = true.
Proof. by apply Square_eqb_eq. Qed.

Lemma Square_neqb_negb a b : Square_neqb a b = negb (Square_eqb a b).
Proof. unfold Square_neqb, Square_eqb. by rewrite negb_andb. Qed.

Lemma Square_of_string_text c0 c1 :
  file_letter c0 = true → rank_digit c1 = true →
  ∃ sq, Square_of_string (String c0 (String c1 EmptyString)) = Ok sq ∧ InBounds sq.
Proof.
  unfold file_letter, rank_digit, Square_of_string, InBounds, tolower.
  intros Hf Hr.
  assert (Hnum : (char_code c1 - 48 <? 0) || (char_code c1 - 48 >? 8) = false)
    by bool_lia.
  rewrite Hnum.
  destruct ((65 <=? char_code c0) && (char_code c0 <=? 90)) eqn:Hup.
  - assert (Hlet : (char_code c0 + 32 <? 97) || (char_code c0 + 32 >? 104) = false)
      by bool_lia.
    rewrite Hlet. eexists; split; [reflexivity|]. simpl. bool_lia.
  - assert (Hlet : (char_code c0 <? 97) || (char_code c0 >? 104) = false)
      by bool_lia.
    rewrite Hlet. eexists; split; [reflexivity|]. simpl. bool_lia.
Qed.

Lemma Square_of_ints_InBounds r c sq : Square_of_ints r c = Ok sq → InBounds sq.
Proof.
  unfold Square_of_ints, InBounds.
  destruct ((c >? 7) || (r >? 7) || (c <? 0) || (r <? 0)) eqn:E; [discriminate|].
  intros [= <-]. simpl. bool_lia.
Qed.

(** ** clearBoard *)

Lemma clearBoard_cols_stops fuel s :
  ∃ e, clearBoard_cols fuel 0 0 s = Err e.
Proof.
  destruct fuel as [|fuel]; [by eexists|].
  cbn [clearBoard_cols]. change (0 <? 8) with true. cbv iota.
  rewrite bind_run.
  destruct (write_at 0 0 0 s) as [[[[] s1] e1]|e] eqn:Hw; [|by eexists].
  destruct fuel as [|fuel]; [by eexists|].
  cbn [clearBoard_cols]. change (0 - 1 <? 8) with true. cbv iota.
  rewrite bind_run. unfold write_at at 1.
  rewrite board_set_oob by reflexivity. by eexists.
Qed.

(** C1.  [clearBoard] never completes: after [board[0][0]] its second
    store goes to [board[0][-1]], outside the array, so on no board does
    the call return with the 64 squares cleared. *)
Theorem clearBoard_never_completes :
  ∀ (fuel : nat) (s : Chess), ∃ e, clearBoard fuel s = Err e.
Proof.
  intros fuel s. unfold clearBoard.
  destruct fuel as [|fuel]; [by eexists|].
  cbn [clearBoard_rows]. change (0 <? 8) with true. cbv iota.
  rewrite bind_run.
  destruct (clearBoard_cols_stops fuel s) as [e ->]. by eexists.
Qed.

(** On the starting position the call stops at its second store. *)
Example clearBoard_default_game : clearBoard 64 default_game = Err OutOfBounds.
Proof. reflexivity. Qed.

(** ** Square construction *)

(** C2.  The text constructor accepts the rank digit 0 and builds a square
    in row 8, outside [0,7]. *)
Theorem Square_of_string_rank_zero :
  Square_of_string "a0" = Ok {| row := 8; col := 0 |}
  ∧ ¬ InBounds {| row := 8; col := 0 |}.
Proof. split; [reflexivity|]. unfold InBounds. simpl. lia. Qed.

(** ** movePieceUnconditionally *)

Lemma switchPlayer_run s :
  switchPlayer s =
  Ok (tt, set_currentPlayer (opponent (currentPlayer s)) s,
      [set_player (opponent (currentPlayer s))]).
Proof. unfold switchPlayer. destruct s as [d [] b]; reflexivity. Qed.

Lemma movePieceUnconditionally_run old target s t o :
  cell (board s) (row target) (col target) = Some t →
  cell (board s) (row old) (col old) = Some o →
  movePieceUnconditionally old target s =
  Ok (tt,
      {| debugging := debugging s;
         currentPlayer := opponent (currentPlayer s);
         board := moved (board s) old target o |},
      capture_effects t o target
        ++ [set_player (opponent (currentPlayer s))]
        ++ won_effects t ++ [update_board]).
Proof.
  intros Ht Ho. unfold movePieceUnconditionally.
  rewrite (bind_ok _ _ _ _ _ _ (read_run _ _ _ Ht)).
  assert (Hcap :
    (if negb (t =? 0)
     then o' ← read old;
          if negb (o' =? 0)
          then emit (capture_at (inject_Z (col target) + (1 # 2))%Q
                       (8 - inject_Z (row target) - (1 # 2))%Q 30)
          else mret ()
     else mret ()) s = Ok (tt, s, capture_effects t o target)).
  { unfold capture_effects. destruct (t =? 0); simpl; [reflexivity|].
    rewrite (bind_ok _ _ _ _ _ _ (read_run _ _ _ Ho)).
    destruct (o =? 0); reflexivity. }
  rewrite (bind_ok _ _ _ _ _ _ Hcap).
  rewrite (bind_ok _ _ _ _ _ _ (read_run _ _ _ Ho)).
  rewrite (bind_ok _ _ _ _ _ _ (write_run _ o _ _ Ht)).
  assert (Ho' : cell (board (set_board (upd (board s) (row target) (col target) o) s))
                  (row old) (col old) = Some o).
  { simpl. rewrite (cell_upd _ _ _ _ _ _ _ Ht).
    by destruct ((row target =? row old) && (col target =? col old)). }
  rewrite (bind_ok _ _ _ _ _ _ (write_run _ 0 _ _ Ho')).
  rewrite (bind_ok _ _ _ _ _ _ (switchPlayer_run _)).
  unfold won_effects, moved.
  destruct (Z.abs t =? 6); simpl; rewrite ?app_nil_r; reflexivity.
Qed.

Lemma wf_defaultBoard : wf_board defaultBoard.
Proof.
  split; [reflexivity|].
  repeat constructor; unfold int_cell; simpl; lia.
Qed.

(** C3, as stated, fails: the empty square e4 "moved" onto the black king
    on e8.  The destination held a piece, no capture event fires, and the
    game-won event fires all the same. *)
Lemma movePieceUnconditionally_empty_origin_onto_king :
  let old := {| row := 4; col := 4 |} in
  let target := {| row := 0; col := 4 |} in
  cell (board default_game) (row target) (col target) = Some (-6)
  ∧ ∃ s', movePieceUnconditionally old target default_game
          = Ok (tt, s', [set_player BLACK; won_game; update_board])
  ∧ fired is_capture [set_player BLACK; won_game; update_board] = 0%nat
  ∧ fired is_won [set_player BLACK; won_game; update_board] = 1%nat.
Proof.
  cbv zeta. split; [reflexivity|].
  eexists. split; [vm_compute; reflexivity|]. split; reflexivity.
Qed.

(** C3, amended.  For a call on in-bounds squares, with [t] the piece on
    the destination and [o] the piece on the origin before the call: a
    capture event fires exactly when both [t] and [o] are non-zero, and it
    is the single event [capture_at (col + 0.5) (8 - row - 0.5) 30] of the
    destination; exactly one game-won event fires when [|t|] is the code of
    KING and none otherwise; when the origin holds a piece a game-won event
    never fires without a capture event; exactly one board-updated event
    fires, last of all; and the side to move is flipped. *)
Theorem movePieceUnconditionally_events (s : Chess) (old target : Square) :
  wf_board (board s) → InBounds old → InBounds target →
  ∃ t o s' evs,
    cell (board s) (row target) (col target) = Some t
    ∧ cell (board s) (row old) (col old) = Some o
    ∧ movePieceUnconditionally old target s = Ok (tt, s', evs)
    ∧ List.filter is_capture evs =
        (if negb (t =? 0) && negb (o =? 0)
         then [capture_at (inject_Z (col target) + (1 # 2))%Q
                          (8 - inject_Z (row target) - (1 # 2))%Q 30]
         else [])
    ∧ fired is_won evs = (if Z.abs t =? piece_code KING then 1%nat else 0%nat)
    ∧ (o ≠ 0 → fired is_won evs ≠ 0%nat → fired is_capture evs ≠ 0%nat)
    ∧ fired is_update evs = 1%nat
    ∧ last evs = Some update_board
    ∧ currentPlayer s' = opponent (currentPlayer s).
Proof.
  intros Hwf [Hor Hoc] [Htr Htc].
  destruct (cell_wf _ _ _ Hwf Htr Htc) as [t Ht].
  destruct (cell_wf _ _ _ Hwf Hor Hoc) as [o Ho].
  exists t, o. eexists _, _.
  split; [exact Ht|]. split; [exact Ho|].
  split; [apply (movePieceUnconditionally_run _ _ _ _ _ Ht Ho)|].
  unfold fired, capture_effects, won_effects. change (piece_code KING) with 6.
  destruct (Z.eqb_spec t 0) as [->|Ht0]; destruct (Z.eqb_spec o 0) as [->|Ho0];
    destruct (Z.abs _ =? 6) eqn:Hk; simpl;
    repeat split; try reflexivity; try congruence; try lia.
Qed.

Lemma movePieceUnconditionally_events_witness :
  let old := {| row := 7; col := 0 |} in
  let target := {| row := 0; col := 4 |} in
  wf_board (board default_game) ∧ InBounds old ∧ InBounds target
  ∧ ∃ t o s' evs,
      cell (board default_game) (row target) (col target) = Some t
      ∧ cell (board default_game) (row old) (col old) = Some o
      ∧ movePieceUnconditionally old target default_game = Ok (tt, s', evs)
      ∧ List.filter is_capture evs =
          (if negb (t =? 0) && negb (o =? 0)
           then [capture_at (inject_Z (col target) + (1 # 2))%Q
                            (8 - inject_Z (row target) - (1 # 2))%Q 30]
           else [])
      ∧ fired is_won evs = (if Z.abs t =? piece_code KING then 1%nat else 0%nat)
      ∧ (o ≠ 0 → fired is_won evs ≠ 0%nat → fired is_capture evs ≠ 0%nat)
      ∧ fired is_update evs = 1%nat
      ∧ last evs = Some update_board
      ∧ currentPlayer s' = opponent (currentPlayer default_game).
Proof.
  cbv zeta.
  assert (Hold : InBounds {| row := 7; col := 0 |}) by (unfold InBounds; simpl; lia).
  assert (Htgt : InBounds {| row := 0; col := 4 |}) by (unfold InBounds; simpl; lia).
  split; [exact wf_defaultBoard|]. split; [exact Hold|]. split; [exact Htgt|].
  exact (movePieceUnconditionally_events default_game _ _ wf_defaultBoard Hold Htgt).
Defined.

(** ** Sliding along a line *)

Lemma blocked_intro b sr sc n : ∀ cur k v,
  (k < n)%nat →
  cell b (row cur + Z.of_nat k * sr) (col cur + Z.of_nat k * sc) = Some v →
  v ≠ 0 →
  blocked b cur sr sc n = true.
Proof.
  induction n as [|n IH]; intros cur k v Hk Hv Hne; [lia|].
  simpl. destruct k as [|k].
  - replace (row cur + Z.of_nat 0 * sr) with (row cur) in Hv by lia.
    replace (col cur + Z.of_nat 0 * sc) with (col cur) in Hv by lia.
    unfold occupied. rewrite Hv.
    apply Z.eqb_neq in Hne. by rewrite Hne.
  - apply orb_true_iff. right.
    apply (IH _ k v); [lia| |done].
    simpl. rewrite <- Hv. f_equal; lia.
Qed.

Lemma isPieceInterrupting_loop_run b sr sc target n : ∀ fuel cur,
  (n < fuel)%nat →
  sr ≠ 0 ∨ sc ≠ 0 →
  row target = row cur + Z.of_nat n * sr →
  col target = col cur + Z.of_nat n * sc →
  (∀ k, (k < n)%nat →
     is_Some (cell b (row cur + Z.of_nat k * sr) (col cur + Z.of_nat k * sc))) →
  isPieceInterrupting_loop fuel b sr sc cur target = Ok (blocked b cur sr sc n).
Proof.
  induction n as [|n IH]; intros fuel cur Hfuel Hstep Hrow Hcol Hcells;
    (destruct fuel as [|fuel]; [lia|]); cbn [isPieceInterrupting_loop].
  - rewrite Square_neqb_negb.
    replace (Square_eqb cur target) with true; [reflexivity|].
    symmetry. unfold Square_eqb. bool_lia.
  - rewrite Square_neqb_negb.
    replace (Square_eqb cur target) with false.
    2:{ symmetry. unfold Square_eqb. bool_to_prop. nia. }
    cbn [negb].
    destruct (Hcells 0%nat ltac:(lia)) as [v Hv].
    replace (row cur + Z.of_nat 0 * sr) with (row cur) in Hv by lia.
    replace (col cur + Z.of_nat 0 * sc) with (col cur) in Hv by lia.
    rewrite (board_get_cell _ _ _ _ Hv). cbn [mbind result_bind blocked].
    unfold occupied. rewrite Hv.
    destruct (negb (v =? 0)); [reflexivity|]. cbn [orb].
    apply IH; [lia|done|simpl; lia|simpl; lia|].
    intros k Hk. specialize (Hcells (S k) ltac:(lia)).
    simpl. replace (row cur + sr + Z.of_nat k * sr) with (row cur + Z.of_nat (S k) * sr) by lia.
    replace (col cur + sc + Z.of_nat k * sc) with (col cur + Z.of_nat (S k) * sc) by lia.
    done.
Qed.

(** From [old], [d ≥ 1] unit steps lead to [target]: the walk visits the
    [d - 1] squares in between and answers whether one is occupied. *)
Lemma isPieceInterrupting_run fuel b sr sc old target d :
  wf_board b → InBounds old → InBounds target →
  unit_step sr sc → 1 <= d →
  row target = row old + d * sr →
  col target = col old + d * sc →
  (8 <= fuel)%nat →
  isPieceInterrupting fuel b sr sc old target
  = Ok (blocked b (step_from old sr sc) sr sc (Z.to_nat (d - 1))).
Proof.
  intros Hwf [Hor Hoc] [Htr Htc] (Hsr & Hsc & Hnz) Hd Hrow Hcol Hfuel.
  unfold isPieceInterrupting.
  assert (Hd7 : d <= 7) by nia.
  apply isPieceInterrupting_loop_run; simpl.
  - lia.
  - done.
  - rewrite Z2Nat.id by lia. lia.
  - rewrite Z2Nat.id by lia. lia.
  - intros k Hk. apply cell_wf; [done| |]; nia.
Qed.

Lemma quot_abs a : a ≠ 0 → Z.quot a (Z.abs a) = Z.sgn a.
Proof.
  intros Ha. destruct a as [|p|p]; [done| |]; simpl.
  - apply Z.quot_same. lia.
  - change (Z.neg p) with (- Z.pos p). rewrite Z.quot_opp_l by lia.
    rewrite Z.quot_same by lia. reflexivity.
Qed.

Lemma int_div_abs a : a ≠ 0 → int_div a (Z.abs a) = Ok (Z.sgn a).
Proof.
  intros Ha. unfold int_div.
  replace (Z.abs a =? 0) with false by (symmetry; bool_lia).
  by rewrite quot_abs.
Qed.

(** ** Bishop, rook, queen *)

Lemma Square_neq_offsets (old target : Square) :
  old ≠ target → row target - row old ≠ 0 ∨ col target - col old ≠ 0.
Proof.
  intros Hne.
  destruct (decide (row target - row old = 0)) as [Hr|Hr]; [|by left].
  right. intros Hc. apply Hne. destruct old, target; simpl in *.
  f_equal; lia.
Qed.

Lemma isLegalBishopMove_run fuel b old target :
  wf_board b → InBounds old → InBounds target → old ≠ target →
  (8 <= fuel)%nat →
  isLegalBishopMove fuel b old target
  = Ok (diagonal old target && negb (between_blocked b old target)).
Proof.
  intros Hwf Ho Ht Hne Hfuel. unfold isLegalBishopMove, diagonal.
  apply Square_neq_offsets in Hne.
  set (dr := row target - row old) in *.
  set (dc := col target - col old) in *.
  destruct (Z.eqb_spec (Z.abs dr - Z.abs dc) 0) as [Hdiag|Hdiag]; [|reflexivity].
  rewrite (int_div_abs dr) by lia. cbn [mbind result_bind].
  rewrite (int_div_abs dc) by lia. cbn [mbind result_bind].
  rewrite (isPieceInterrupting_run fuel b _ _ old target (path_len old target));
    try done.
  - unfold unit_step. lia.
  - unfold path_len. fold dr dc. lia.
  - unfold path_len. fold dr dc. subst dr. nia.
  - unfold path_len. fold dr dc. subst dc. nia.
Qed.

Lemma isLegalRookMove_run fuel b old target :
  wf_board b → InBounds old → InBounds target →
  (8 <= fuel)%nat →
  isLegalRookMove fuel b old target
  = Ok (straight old target && negb (between_blocked b old target)).
Proof.
  intros Hwf Ho Ht Hfuel. unfold isLegalRookMove, straight.
  set (dr := row target - row old) in *.
  set (dc := col target - col old) in *.
  destruct (Z.eqb_spec dr 0) as [Hdr|Hdr];
    destruct (Z.eqb_spec dc 0) as [Hdc|Hdc]; cbn [xorb negb andb];
    try reflexivity.
  - rewrite (int_div_abs dc) by lia. cbn [mbind result_bind].
    rewrite (isPieceInterrupting_run fuel b _ _ old target (path_len old target));
      try done.
    + unfold between_blocked. fold dr dc. rewrite Hdr. reflexivity.
    + unfold unit_step. lia.
    + unfold path_len. fold dr dc. lia.
    + unfold path_len. fold dr dc. subst dr. nia.
    + unfold path_len. fold dr dc. subst dc. nia.
  - rewrite (int_div_abs dr) by lia. cbn [mbind result_bind].
    rewrite (isPieceInterrupting_run fuel b _ _ old target (path_len old target));
      try done.
    + unfold between_blocked. fold dr dc. rewrite Hdc. reflexivity.
    + unfold unit_step. lia.
    + unfold path_len. fold dr dc. lia.
    + unfold path_len. fold dr dc. subst dr. nia.
    + unfold path_len. fold dr dc. subst dc. nia.
Qed.

Lemma isLegalQueenMove_run fuel b old target :
  wf_board b → InBounds old → InBounds target → old ≠ target →
  (8 <= fuel)%nat →
  isLegalQueenMove fuel b old target
  = Ok ((diagonal old target || straight old target)
        && negb (between_blocked b old target)).
Proof.
  intros Hwf Ho Ht Hne Hfuel. unfold isLegalQueenMove.
  rewrite isLegalBishopMove_run by done. cbn [mbind result_bind].
  rewrite isLegalRookMove_run by done.
  destruct (diagonal old target), (straight old target),
    (between_blocked b old target); reflexivity.
Qed.

(** C6.  On a rook line or a bishop diagonal between two in-bounds squares,
    with the [k]-th square strictly between them occupied ([0 < k] less
    than the length of the path, which is then between 2 and 7): the rook
    predicate and the queen predicate reject a straight move, the bishop
    predicate and the queen predicate reject a diagonal move. *)
Theorem sliding_move_blocked (fuel : nat) (b : Board) (old target : Square) (k v : Z) :
  wf_board b → InBounds old → InBounds target → (8 <= fuel)%nat →
  0 < k < path_len old target →
  cell b (row old + k * Z.sgn (row target - row old))
         (col old + k * Z.sgn (col target - col old)) = Some v →
  v ≠ 0 →
  2 <= path_len old target <= 7
  ∧ (straight old target = true →
       isLegalRookMove fuel b old target = Ok false
       ∧ isLegalQueenMove fuel b old target = Ok false)
  ∧ (diagonal old target = true →
       isLegalBishopMove fuel b old target = Ok false
       ∧ isLegalQueenMove fuel b old target = Ok false).
Proof.
  intros Hwf Ho Ht Hfuel Hk Hv Hne.
  assert (Hlen : 2 <= path_len old target <= 7).
  { destruct Ho, Ht. unfold path_len in *. lia. }
  assert (Hdiff : old ≠ target).
  { intros ->. unfold path_len in Hk. lia. }
  assert (Hblocked : between_blocked b old target = true).
  { unfold between_blocked.
    apply (blocked_intro _ _ _ _ _ (Z.to_nat (k - 1)) v); [lia| |done].
    simpl. rewrite <- Hv. rewrite Z2Nat.id by lia. f_equal; lia. }
  split; [done|].
  rewrite isLegalRookMove_run, isLegalBishopMove_run, isLegalQueenMove_run by done.
  rewrite Hblocked. cbn [negb]. rewrite !andb_false_r. done.
Qed.

Lemma sliding_move_blocked_witness :
  let old := {| row := 7; col := 0 |} in
  let target := {| row := 3; col := 0 |} in
  wf_board defaultBoard ∧ InBounds old ∧ InBounds target ∧ (8 <= 8)%nat
  ∧ 0 < 1 < path_len old target
  ∧ cell defaultBoard (row old + 1 * Z.sgn (row target - row old))
         (col old + 1 * Z.sgn (col target - col old)) = Some 1
  ∧ 1 ≠ 0
  ∧ 2 <= path_len old target <= 7
  ∧ (straight old target = true →
       isLegalRookMove 8 defaultBoard old target = Ok false
       ∧ isLegalQueenMove 8 defaultBoard old target = Ok false)
  ∧ (diagonal old target = true →
       isLegalBishopMove 8 defaultBoard old target = Ok false
       ∧ isLegalQueenMove 8 defaultBoard old target = Ok false).
Proof.
  cbv zeta.
  assert (Hold : InBounds {| row := 7; col := 0 |}) by (unfold InBounds; simpl; lia).
  assert (Htgt : InBounds {| row := 3; col := 0 |}) by (unfold InBounds; simpl; lia).
  assert (Hk : 0 < 1 < path_len {| row := 7; col := 0 |} {| row := 3; col := 0 |})
    by (unfold path_len; simpl; lia).
  assert (Hne : 1 ≠ 0) by lia.
  split; [exact wf_defaultBoard|]. split; [exact Hold|]. split; [exact Htgt|].
  split; [lia|]. split; [exact Hk|]. split; [reflexivity|]. split; [exact Hne|].
  exact (sliding_move_blocked 8 defaultBoard _ _ 1 1 wf_defaultBoard Hold Htgt
           (le_n 8) Hk eq_refl Hne).
Defined.

(** ** Pawn *)

Lemma blocked_one b sq sr sc : blocked b sq sr sc 1 = occupied b sq.
Proof. simpl. apply orb_false_r. Qed.

Lemma isLegalPawnMove_run (fuel : nat) (b : Board) (old target : Square) (sign : Z) :
  wf_board b → InBounds old → InBounds target → (8 <= fuel)%nat →
  cell b (row old) (col old) = Some sign →
  sign = 1 ∨ sign = -1 →
  isLegalPawnMove fuel b old target = Ok (pawn_rule b sign old target).
Proof.
  intros Hwf Ho Ht Hfuel Hsign Hpawn.
  destruct (cell_wf b (row target) (col target) Hwf) as [t Htcell];
    [apply Ht|apply Ht|].
  unfold isLegalPawnMove, pawn_rule.
  rewrite (board_get_cell _ _ _ _ Hsign), (board_get_cell _ _ _ _ Htcell), Htcell.
  cbn [mbind result_bind].
  set (dr := row target - row old). set (dc := col target - col old).
  destruct (dr * sign >? 0) eqn:Hback; [reflexivity|].
  destruct ((Z.abs dc =? 1) && (dr * sign =? -1)) eqn:Hdiag.
  { replace ((Z.abs dc =? 0) && (dr * sign =? - (1))) with false
      by (symmetry; bool_lia).
    replace ((Z.abs dc =? 1) && (dr * sign =? - (1))) with true
      by (symmetry; bool_lia).
    reflexivity. }
  destruct ((dc =? 0) && (Z.abs dr =? 2)) eqn:Hjump.
  { replace ((Z.abs dc =? 0) && (dr * sign =? - (1))) with false
      by (symmetry; bool_lia).
    replace ((Z.abs dc =? 1) && (dr * sign =? - (1))) with false
      by (symmetry; bool_lia).
    replace ((Z.abs dc =? 0) && (dr * sign =? - (2))) with true
      by (symmetry; bool_lia).
    change (player_code WHITE) with 1. change (player_code BLACK) with (-1).
    destruct Hpawn as [-> | ->].
    - change (1 >? 0) with true. change (1 =? 1) with true. change (1 =? -1) with false.
      cbn [andb orb]. rewrite orb_false_r.
      destruct (row old =? 6) eqn:Hhome; [|reflexivity]. cbn [negb andb].
      rewrite (isPieceInterrupting_run fuel b _ _ old target 2); try done.
      + cbn [mbind result_bind]. change (Z.to_nat (2 - 1)) with 1%nat.
        rewrite blocked_one. do 3 f_equal.
        unfold step_from. f_equal; lia.
      + unfold unit_step. lia.
      + subst dr. bool_lia.
      + subst dc. bool_lia.
    - change (-1 >? 0) with false. change (-1 =? 1) with false. change (-1 =? -1) with true.
      cbn [andb orb].
      destruct (row old =? 1) eqn:Hhome; [|reflexivity]. cbn [negb andb].
      rewrite (isPieceInterrupting_run fuel b _ _ old target 2); try done.
      + cbn [mbind result_bind]. change (Z.to_nat (2 - 1)) with 1%nat.
        rewrite blocked_one. do 3 f_equal.
        unfold step_from. f_equal; lia.
      + unfold unit_step. lia.
      + subst dr. bool_lia.
      + subst dc. bool_lia. }
  destruct ((dc =? 0) && (Z.abs dr =? 1)) eqn:Hone.
  { replace ((Z.abs dc =? 0) && (dr * sign =? - (1))) with true
      by (symmetry; bool_lia).
    reflexivity. }
  replace ((Z.abs dc =? 0) && (dr * sign =? - (1))) with false
    by (symmetry; bool_lia).
  replace ((Z.abs dc =? 1) && (dr * sign =? - (1))) with false
    by (symmetry; bool_lia).
  replace ((Z.abs dc =? 0) && (dr * sign =? - (2))) with false
    by (symmetry; bool_lia).
  reflexivity.
Qed.

(** C5.  For a pawn ([1] or [-1]) on an in-bounds origin and an in-bounds
    target, [isLegalPawnMove] answers exactly as the case analysis of the
    specification. *)
Theorem isLegalPawnMove_cases (fuel : nat) (b : Board) (old target : Square) (sign : Z) :
  wf_board b → InBounds old → InBounds target → (8 <= fuel)%nat →
  cell b (row old) (col old) = Some sign →
  sign = 1 ∨ sign = -1 →
  isLegalPawnMove fuel b old target = Ok (pawn_rule b sign old target).
Proof. apply isLegalPawnMove_run. Qed.

Lemma isLegalPawnMove_cases_witness :
  let old := {| row := 6; col := 4 |} in
  let target := {| row := 4; col := 4 |} in
  wf_board defaultBoard ∧ InBounds old ∧ InBounds target ∧ (8 <= 8)%nat
  ∧ cell defaultBoard (row old) (col old) = Some 1
  ∧ (1 = 1 ∨ 1 = -1)
  ∧ isLegalPawnMove 8 defaultBoard old target = Ok (pawn_rule defaultBoard 1 old target)
  ∧ pawn_rule defaultBoard 1 old target = true.
Proof.
  cbv zeta.
  assert (Hold : InBounds {| row := 6; col := 4 |}) by (unfold InBounds; simpl; lia).
  assert (Htgt : InBounds {| row := 4; col := 4 |}) by (unfold InBounds; simpl; lia).
  split; [exact wf_defaultBoard|]. split; [exact Hold|]. split; [exact Htgt|].
  split; [lia|]. split; [reflexivity|]. split; [by left|].
  split; [|reflexivity].
  exact (isLegalPawnMove_cases 8 defaultBoard _ _ 1 wf_defaultBoard Hold Htgt
           (le_n 8) eq_refl (or_introl eq_refl)).
Defined.

(** ** movePiece *)

Lemma run_eta {S A} (r : result (A * S * list Effect)) :
  match r with
  | Ok (a, s, e) => Ok (a, s, e)
  | Err e => Err e
  end = r.
Proof. by destruct r as [[[??]?]|?]. Qed.

Lemma run_legal (legal : Board → result bool) (k : M Chess unit) (s : Chess) :
  (b ← gets board;
   ok ← liftR (legal b);
   if (ok : bool) then k else mret tt) s =
  match legal (board s) with
  | Ok true => k s
  | Ok false => Ok (tt, s, [])
  | Err e => Err e
  end.
Proof.
  rewrite bind_run. cbn [gets]. rewrite bind_run. unfold liftR.
  destruct (legal (board s)) as [[]|e]; cbn [app]; try reflexivity.
  rewrite run_eta. apply run_eta.
Qed.

Lemma movePiece_switch_run fuel piece old target s :
  movePiece_switch fuel piece old target s =
  match kind_legal fuel (board s) piece old target with
  | Ok true => movePieceUnconditionally old target s
  | Ok false => Ok (tt, s, [])
  | Err e => Err e
  end.
Proof.
  unfold movePiece_switch, kind_legal.
  destruct (piece_of_code (Z.abs piece)) as [[]|]; try reflexivity;
    first [ apply run_legal
          | exact (run_legal (λ _, Ok (isLegalKnightMove old target)) _ s)
          | exact (run_legal (λ _, Ok (isLegalKingMove old target)) _ s) ].
Qed.

Lemma movePiece_run fuel s old target piece t :
  cell (board s) (row old) (col old) = Some piece →
  cell (board s) (row target) (col target) = Some t →
  movePiece fuel old target s =
  if (piece * player_code (currentPlayer s) <=? 0)
     || Square_eqb old target
     || (t * player_code (currentPlayer s) >? 0)
  then Ok (tt, s, [])
  else
    match kind_legal fuel (board s) piece old target with
    | Ok true => movePieceUnconditionally old target s
    | Ok false => Ok (tt, s, [])
    | Err e => Err e
    end.
Proof.
  intros Hp Ht. unfold movePiece.
  rewrite (bind_ok _ _ _ _ _ _ (read_run _ _ _ Hp)).
  rewrite bind_run. cbn [gets].
  destruct (piece * player_code (currentPlayer s) <=? 0); [reflexivity|].
  destruct (Square_eqb old target); [reflexivity|]. cbn [orb].
  rewrite (bind_ok _ _ _ _ _ _ (read_run _ _ _ Ht)).
  destruct (t * player_code (currentPlayer s) >? 0); [reflexivity|].
  rewrite movePiece_switch_run. cbn [app]. by rewrite !run_eta.
Qed.

Lemma piece_of_code_Some k p : piece_of_code k = Some p → k = piece_code p.
Proof.
  unfold piece_of_code.
  repeat match goal with
         | |- context [k =? ?n] =>
             destruct (Z.eqb_spec k n) as [->|?]; [by intros [= <-]|]
         end.
  discriminate.
Qed.

(** With the origin distinct from the target, every predicate that the
    [switch] can select returns. *)
Lemma kind_legal_total fuel b piece old target :
  wf_board b → InBounds old → InBounds target → old ≠ target →
  (8 <= fuel)%nat →
  cell b (row old) (col old) = Some piece →
  ∃ ok, kind_legal fuel b piece old target = Ok ok.
Proof.
  intros Hwf Ho Ht Hne Hfuel Hp. unfold kind_legal.
  destruct (piece_of_code (Z.abs piece)) as [[]|] eqn:Hk; try by eexists.
  - apply piece_of_code_Some in Hk. simpl in Hk.
    rewrite (isLegalPawnMove_run fuel b old target piece) by (done || lia).
    by eexists.
  - rewrite isLegalRookMove_run by done. by eexists.
  - rewrite isLegalBishopMove_run by done. by eexists.
  - rewrite isLegalQueenMove_run by done. by eexists.
Qed.

Lemma opponent_neq p : opponent p ≠ p.
Proof. by destruct p. Qed.

Lemma fired_set_player_move t o target p :
  fired is_set_player
    (capture_effects t o target ++ [set_player p] ++ won_effects t ++ [update_board])
  = 1%nat.
Proof.
  unfold fired, capture_effects, won_effects.
  destruct (negb (t =? 0) && negb (o =? 0)), (Z.abs t =? 6); reflexivity.
Qed.

(** C4.  On a board of 8 by 8 and in-bounds squares, with [piece] on the
    origin and [t] on the target, [movePiece] returns without error; the
    board and the side to move are unchanged exactly when the request is
    [rejected], and then nothing at all changes and nothing is emitted;
    otherwise the call is the unconditional move, and the side to move is
    toggled once. *)
Theorem movePiece_cases (fuel : nat) (s : Chess) (old target : Square) :
  wf_board (board s) → InBounds old → InBounds target → (8 <= fuel)%nat →
  ∃ piece t s' evs,
    cell (board s) (row old) (col old) = Some piece
    ∧ cell (board s) (row target) (col target) = Some t
    ∧ movePiece fuel old target s = Ok (tt, s', evs)
    ∧ (board s' = board s ∧ currentPlayer s' = currentPlayer s
       ↔ rejected fuel s old target piece t)
    ∧ (rejected fuel s old target piece t → s' = s ∧ evs = [])
    ∧ (¬ rejected fuel s old target piece t →
         movePieceUnconditionally old target s = Ok (tt, s', evs)
         ∧ board s' = moved (board s) old target piece
         ∧ currentPlayer s' = opponent (currentPlayer s)
         ∧ fired is_set_player evs = 1%nat).
Proof.
  intros Hwf Ho Ht Hfuel.
  destruct (cell_wf _ _ _ Hwf (proj1 Ho) (proj2 Ho)) as [piece Hp].
  destruct (cell_wf _ _ _ Hwf (proj1 Ht) (proj2 Ht)) as [t Htc].
  exists piece, t.
  rewrite (movePiece_run fuel s old target piece t Hp Htc).
  destruct ((piece * player_code (currentPlayer s) <=? 0)
            || Square_eqb old target
            || (t * player_code (currentPlayer s) >? 0)) eqn:G.
  - assert (R : rejected fuel s old target piece t).
    { unfold rejected. rewrite !orb_true_iff, Z.leb_le, Z.gtb_ltb, Z.ltb_lt,
        Square_eqb_eq in G. destruct G as [[G|G]|G]; [by left|by right; left|].
      right; right; left. lia. }
    exists s, []. repeat split; try done.
  - rewrite !orb_false_iff, Z.leb_gt, Z.gtb_ltb, Z.ltb_ge in G.
    destruct G as [[G1 G2] G3].
    assert (Hne : old ≠ target).
    { intros E. apply Square_eqb_eq in E. congruence. }
    destruct (kind_legal_total fuel (board s) piece old target) as [ok Hok];
      try done.
    rewrite Hok. destruct ok.
    + rewrite (movePieceUnconditionally_run _ _ _ _ _ Htc Hp).
      assert (NR : ¬ rejected fuel s old target piece t).
      { unfold rejected. rewrite Hok. intros [R|[R|[R|R]]]; try done; lia. }
      eexists _, _. split; [done|]. split; [done|]. split; [reflexivity|].
      simpl. split; [|split; [done|]].
      * split; [|done]. intros [_ E]. by apply opponent_neq in E.
      * intros _. repeat split. apply fired_set_player_move.
    + assert (R : rejected fuel s old target piece t).
      { unfold rejected. by repeat right. }
      exists s, []. repeat split; try done.
Qed.

Lemma movePiece_cases_witness :
  let old := {| row := 6; col := 4 |} in
  let target := {| row := 4; col := 4 |} in
  wf_board (board default_game) ∧ InBounds old ∧ InBounds target ∧ (8 <= 8)%nat
  ∧ ∃ piece t s' evs,
      cell (board default_game) (row old) (col old) = Some piece
      ∧ cell (board default_game) (row target) (col target) = Some t
      ∧ movePiece 8 old target default_game = Ok (tt, s', evs)
      ∧ (board s' = board default_game ∧ currentPlayer s' = currentPlayer default_game
         ↔ rejected 8 default_game old target piece t)
      ∧ (rejected 8 default_game old target piece t → s' = default_game ∧ evs = [])
      ∧ (¬ rejected 8 default_game old target piece t →
           movePieceUnconditionally old target default_game = Ok (tt, s', evs)
           ∧ board s' = moved (board default_game) old target piece
           ∧ currentPlayer s' = opponent (currentPlayer default_game)
           ∧ fired is_set_player evs = 1%nat).
Proof.
  cbv zeta.
  assert (Hold : InBounds {| row := 6; col := 4 |}) by (unfold InBounds; simpl; lia).
  assert (Htgt : InBounds {| row := 4; col := 4 |}) by (unfold InBounds; simpl; lia).
  split; [exact wf_defaultBoard|]. split; [exact Hold|]. split; [exact Htgt|].
  split; [lia|].
  exact (movePiece_cases 8 default_game _ _ wf_defaultBoard Hold Htgt (le_n 8)).
Defined.

(** The scenarios of the specification on the default board: e2-e4 is
    played and hands the move to BLACK, e2-e5 is ignored. *)
Example movePiece_e2_e4 :
  ∃ s', movePiece 8 {| row := 6; col := 4 |} {| row := 4; col := 4 |} default_game
        = Ok (tt, s', [set_player BLACK; update_board])
        ∧ currentPlayer s' = BLACK
        ∧ cell (board s') 4 4 = Some 1 ∧ cell (board s') 6 4 = Some 0.
Proof. eexists. split; [vm_compute; reflexivity|]. by repeat split. Qed.

Example movePiece_e2_e5 :
  movePiece 8 {| row := 6; col := 4 |} {| row := 3; col := 4 |} default_game
  = Ok (tt, default_game, []).
Proof. reflexivity. Qed.

Lemma isLegalBishopMove_same_square fuel b old :
  isLegalBishopMove fuel b old old = Err DivisionByZero.
Proof. unfold isLegalBishopMove. rewrite !Z.sub_diag. reflexivity. Qed.

Lemma isLegalQueenMove_same_square fuel b old :
  isLegalQueenMove fuel b old old = Err DivisionByZero.
Proof. unfold isLegalQueenMove. by rewrite isLegalBishopMove_same_square. Qed.

(** C10.  For in-bounds squares on a board of 8 by 8, [movePiece] returns
    without error.  Called with the origin equal to the target, the bishop
    and the queen predicate would divide by zero, and an error of a
    predicate is an error of [movePiece]: the call with equal squares is
    the silent no-op of the guards, so neither predicate is evaluated
    there; on distinct squares both predicates return. *)
Theorem movePiece_total (fuel : nat) (s : Chess) (old target : Square) :
  wf_board (board s) → InBounds old → InBounds target → (8 <= fuel)%nat →
  (∃ s' evs, movePiece fuel old target s = Ok (tt, s', evs))
  ∧ (old = target → movePiece fuel old target s = Ok (tt, s, []))
  ∧ isLegalBishopMove fuel (board s) old old = Err DivisionByZero
  ∧ isLegalQueenMove fuel (board s) old old = Err DivisionByZero
  ∧ (old ≠ target →
       (∃ ok, isLegalBishopMove fuel (board s) old target = Ok ok)
       ∧ (∃ ok, isLegalQueenMove fuel (board s) old target = Ok ok)).
Proof.
  intros Hwf Ho Ht Hfuel.
  destruct (cell_wf _ _ _ Hwf (proj1 Ho) (proj2 Ho)) as [piece Hp].
  destruct (cell_wf _ _ _ Hwf (proj1 Ht) (proj2 Ht)) as [t Htc].
  pose proof (movePiece_run fuel s old target piece t Hp Htc) as Hrun.
  split; [|split; [|split; [|split]]].
  - rewrite Hrun.
    destruct ((piece * player_code (currentPlayer s) <=? 0)
              || Square_eqb old target
              || (t * player_code (currentPlayer s) >? 0)) eqn:G; [by eexists _, _|].
    rewrite !orb_false_iff in G. destruct G as [[_ G] _].
    assert (Hne : old ≠ target).
    { intros E. apply Square_eqb_eq in E. congruence. }
    destruct (kind_legal_total fuel (board s) piece old target) as [ok ->];
      try done.
    destruct ok; [|by eexists _, _].
    rewrite (movePieceUnconditionally_run _ _ _ _ _ Htc Hp). by eexists _, _.
  - intros <-. rewrite Hrun, Square_eqb_refl, orb_true_r. reflexivity.
  - apply isLegalBishopMove_same_square.
  - apply isLegalQueenMove_same_square.
  - intros Hne. rewrite isLegalBishopMove_run, isLegalQueenMove_run by done.
    split; by eexists.
Qed.

Lemma movePiece_total_witness :
  let old := {| row := 7; col := 2 |} in
  let target := {| row := 5; col := 4 |} in
  wf_board (board default_game) ∧ InBounds old ∧ InBounds target ∧ (8 <= 8)%nat
  ∧ (∃ s' evs, movePiece 8 old target default_game = Ok (tt, s', evs))
  ∧ (old = target → movePiece 8 old target default_game = Ok (tt, default_game, []))
  ∧ isLegalBishopMove 8 (board default_game) old old = Err DivisionByZero
  ∧ isLegalQueenMove 8 (board default_game) old old = Err DivisionByZero
  ∧ (old ≠ target →
       (∃ ok, isLegalBishopMove 8 (board default_game) old target = Ok ok)
       ∧ (∃ ok, isLegalQueenMove 8 (board default_game) old target = Ok ok)).
Proof.
  cbv zeta.
  assert (Hold : InBounds {| row := 7; col := 2 |}) by (unfold InBounds; simpl; lia).
  assert (Htgt : InBounds {| row := 5; col := 4 |}) by (unfold InBounds; simpl; lia).
  split; [exact wf_defaultBoard|]. split; [exact Hold|]. split; [exact Htgt|].
  split; [lia|].
  exact (movePiece_total 8 default_game _ _ wf_defaultBoard Hold Htgt (le_n 8)).
Defined.

(** ** The puzzle session *)

Lemma to_size_t_small i : 0 <= i < 2 ^ 64 → to_size_t i = i.
Proof. intros H. unfold to_size_t. by apply Z.mod_small. Qed.

Lemma vector_at_lookup {A} (v : list A) i x :
  0 <= i < 2 ^ 64 → v !! Z.to_nat i = Some x → vector_at v i = Ok x.
Proof. intros Hi Hx. unfold vector_at. by rewrite to_size_t_small, Hx. Qed.

Lemma liftBase_run {A} (m : M Chess A) s a c e :
  m (base s) = Ok (a, c, e) → liftBase m s = Ok (a, set_base c s, e).
Proof. intros H. unfold liftBase. by rewrite H. Qed.

Lemma fired_beatPuzzle_move t o target p :
  fired is_beatPuzzle
    (capture_effects t o target ++ [set_player p] ++ won_effects t ++ [update_board])
  = 0%nat.
Proof.
  unfold fired, capture_effects, won_effects.
  destruct (negb (t =? 0) && negb (o =? 0)), (Z.abs t =? 6); reflexivity.
Qed.


Lemma makeGuess_run s from_sq to_sq :
  0 <= currentStep s < 2 ^ 31 - 1 →
  let n := Z.of_nat (length (solutionMoves s)) in
  let expected := solutionMoves s !! Z.to_nat (currentStep s) in
  (n <= currentStep s ∨ expected ≠ Some (from_sq, to_sq) →
     makeGuess from_sq to_sq s = Ok (false, s, []))
  ∧ (expected = Some (from_sq, to_sq) →
     wf_board (board (base s)) → InBounds from_sq → InBounds to_sq →
     ∃ c evs,
       movePieceUnconditionally from_sq to_sq (base s) = Ok (tt, c, evs)
       ∧ fired is_beatPuzzle evs = 0%nat
       ∧ makeGuess from_sq to_sq s
         = Ok (true, set_currentStep (currentStep s + 1) (set_base c s),
               evs ++ (if currentStep s + 1 =? n then [beatPuzzle]
                       else [singleShot 1000 slot_makeOpponentMove]))).
Proof.
  intros Hstep n expected.
  assert (Hsz : to_size_t (currentStep s) = currentStep s)
    by (apply to_size_t_small; lia).
  assert (Hsz' : to_size_t (currentStep s + 1) = currentStep s + 1)
    by (apply to_size_t_small; lia).
  unfold makeGuess. rewrite bind_run. cbn [gets]. rewrite bind_run. cbn [gets].
  rewrite Hsz. fold n.
  destruct (Z.geb_spec (currentStep s) n) as [Hge|Hlt].
  { split; [reflexivity|]. intros He. exfalso.
    subst expected. apply lookup_lt_Some in He. lia. }
  destruct (lookup_lt_is_Some_2 (solutionMoves s) (Z.to_nat (currentStep s)))
    as [[expFrom expTo] Hexp]; [lia|].
  assert (Hat : vector_at (solutionMoves s) (currentStep s) = Ok (expFrom, expTo))
    by (apply vector_at_lookup; [lia|done]).
  rewrite (bind_ok _ _ _ (expFrom, expTo) s []);
    [|unfold liftR; by rewrite Hat].
  cbn [fst snd]. subst expected. rewrite Hexp.
  destruct (Square_eqb from_sq expFrom && Square_eqb to_sq expTo) eqn:Heq.
  - apply andb_true_iff in Heq as [->%Square_eqb_eq ->%Square_eqb_eq].
    split; [intros [?|?]; [lia|done]|].
    intros _ Hwf Hf Ht.
    destruct (cell_wf _ _ _ Hwf (proj1 Ht) (proj2 Ht)) as [t Htc].
    destruct (cell_wf _ _ _ Hwf (proj1 Hf) (proj2 Hf)) as [o Hoc].
    pose proof (movePieceUnconditionally_run _ _ _ _ _ Htc Hoc) as Hmove.
    eexists _, _. split; [exact Hmove|].
    split; [apply fired_beatPuzzle_move|].
    rewrite (bind_ok _ _ _ _ _ _ (liftBase_run _ _ _ _ _ Hmove)).
    rewrite bind_run. cbn [modify]. rewrite bind_run. cbn [gets].
    cbn [currentStep set_currentStep set_base solutionMoves].
    rewrite Hsz'. fold n.
    destruct (currentStep s + 1 =? n); cbn; rewrite ?app_nil_r; reflexivity.
  - split; [reflexivity|].
    intros [= -> ->]. by rewrite !Square_eqb_refl in Heq.
Qed.



Lemma cell_empty_board r c :
  0 <= r <= 7 → 0 <= c <= 7 → cell empty_board r c = Some 0.
Proof.
  intros Hr Hc. unfold cell.
  rewrite (proj2 (in_range_spec r) Hr), (proj2 (in_range_spec c) Hc). simpl.
  unfold empty_board.
  rewrite lookup_replicate_2 by lia. apply lookup_replicate_2. lia.
Qed.

(** C9.  A record of fewer than 9 comma-separated fields: the constructor
    returns right after the split.  The solution list is empty, every
    square of the board holds 0, the rating is 0, the cursor is 0, and
    the only effect is the [set_player WHITE] of the base constructor: no
    move has been played. *)
Theorem new_ChessPuzzle_short_record (PGN : string) :
  (length (split PGN ",") < 9)%nat →
  ∃ s,
    new_ChessPuzzle PGN = Ok (tt, s, [set_player WHITE])
    ∧ solutionMoves s = []
    ∧ board (base s) = empty_board
    ∧ (∀ r c, 0 <= r <= 7 → 0 <= c <= 7 → cell (board (base s)) r c = Some 0)
    ∧ puzzleElo s = 0
    ∧ currentStep s = 0
    ∧ currentPlayer (base s) = WHITE
    ∧ usedHint s = false.
Proof.
  intros Hlen. unfold new_ChessPuzzle, ChessPuzzle_ctor.
  apply Nat.ltb_lt in Hlen.
  rewrite !bind_run. cbn [liftBase Chess_ctor modify].
  rewrite Hlen. cbn.
  eexists. split; [reflexivity|]. cbn.
  repeat split. apply cell_empty_board.
Qed.

Lemma new_ChessPuzzle_short_record_witness :
  (length (split "id,6k1/8/8/8/8/8/8/R5K1 w - - 0 1,a1a8 g8h7,1500" ",") < 9)%nat
  ∧ ∃ s,
      new_ChessPuzzle "id,6k1/8/8/8/8/8/8/R5K1 w - - 0 1,a1a8 g8h7,1500"
        = Ok (tt, s, [set_player WHITE])
      ∧ solutionMoves s = []
      ∧ board (base s) = empty_board
      ∧ (∀ r c, 0 <= r <= 7 → 0 <= c <= 7 → cell (board (base s)) r c = Some 0)
      ∧ puzzleElo s = 0
      ∧ currentStep s = 0
      ∧ currentPlayer (base s) = WHITE
      ∧ usedHint s = false.
Proof.
  assert (Hlen : (length (split "id,6k1/8/8/8/8/8/8/R5K1 w - - 0 1,a1a8 g8h7,1500" ",") < 9)%nat)
    by (vm_compute; lia).
  split; [exact Hlen|].
  exact (new_ChessPuzzle_short_record _ Hlen).
Defined.

(** ** Reading a FEN *)

Lemma fen_char_inv c :
  fen_char c = true →
  Ascii.eqb c "/" = false
  ∧ (isdigit (char_code c) = true → 1 <= char_code c - 48 <= 8).
Proof.
  unfold fen_char. cbn [list_ascii_of_string existsb].
  rewrite !orb_true_iff, !Ascii.eqb_eq.
  intros H. repeat destruct H as [H|H]; try subst c; try done;
    (split; [reflexivity|]); vm_compute; intros; try discriminate; split; discriminate.
Qed.

Lemma fen_squares_code c :
  fen_char c = true →
  (isdigit (char_code c) = true →
     fen_squares c = replicate (Z.to_nat (char_code c - 48)) 0)
  ∧ (isdigit (char_code c) = false → fen_squares c = [toPiece c]).
Proof.
  unfold fen_char. cbn [list_ascii_of_string existsb].
  rewrite !orb_true_iff, !Ascii.eqb_eq.
  intros H. repeat destruct H as [H|H]; try subst c; try done;
    split; intros Hd; try discriminate Hd; reflexivity.
Qed.

Lemma insert_middle {A} (l1 l2 : list A) (x y : A) :
  <[length l1 := x]> (l1 ++ y :: l2) = l1 ++ x :: l2.
Proof. rewrite insert_app_r_alt by lia. by rewrite Nat.sub_diag. Qed.

Lemma set_board_id s : set_board (board s) s = s.
Proof. by destruct s. Qed.

Lemma set_board_twice b1 b2 s : set_board b2 (set_board b1 s) = set_board b2 s.
Proof. reflexivity. Qed.

Lemma write_at_middle s pre line0 post (c : nat) x v :
  board s = pre ++ line0 :: post →
  (length pre < 8)%nat →
  (c < 8)%nat →
  line0 !! c = Some x →
  write_at (Z.of_nat (length pre)) (Z.of_nat c) v s
  = Ok (tt, set_board (pre ++ <[c := v]> line0 :: post) s, []).
Proof.
  intros Hb Hpre Hc Hx. unfold write_at.
  assert (Hline : board s !! Z.to_nat (Z.of_nat (length pre)) = Some line0).
  { rewrite Nat2Z.id, Hb. by apply list_lookup_middle. }
  assert (Hcell : cell (board s) (Z.of_nat (length pre)) (Z.of_nat c) = Some x).
  { unfold cell.
    rewrite (proj2 (in_range_spec _)) by lia.
    rewrite (proj2 (in_range_spec _)) by lia.
    simpl. rewrite Hline. by rewrite Nat2Z.id. }
  rewrite (board_set_cell _ _ _ _ _ Hcell). unfold upd. rewrite Hline.
  rewrite !Nat2Z.id, Hb, insert_middle. reflexivity.
Qed.

(** One rank: with [cells] already laid out in the row and [k] zeros after
    them, reading [r] lays out the squares of [r]. *)
Lemma loadFEN_loop_rank r : ∀ rest pre cells k post s,
  string_forall fen_char r = true →
  board s = pre ++ (cells ++ replicate k 0) :: post →
  (length pre < 8)%nat →
  (length cells + k = 8)%nat →
  (length (fen_rank r) <= k)%nat →
  loadFEN_loop (r +:+ rest) (Z.of_nat (length pre)) (Z.of_nat (length cells)) s
  = loadFEN_loop rest (Z.of_nat (length pre))
      (Z.of_nat (length cells + length (fen_rank r)))
      (set_board
         (pre ++ ((cells ++ fen_rank r) ++ replicate (k - length (fen_rank r)) 0) :: post)
         s).
Proof.
  induction r as [|c r IH]; intros rest pre cells k post s Hchars Hb Hpre Hk Hw.
  - cbn. rewrite app_nil_r, Nat.add_0_r, Nat.sub_0_r, <- Hb, set_board_id.
    reflexivity.
  - cbn [string_forall] in Hchars. apply andb_true_iff in Hchars as [Hc Hr].
    destruct (fen_squares_code c Hc) as [Hrun Hletter].
    apply fen_char_inv in Hc as [Hslash Hdigit].
    change (String c r +:+ rest) with (String c (r +:+ rest)).
    cbn [loadFEN_loop fen_rank] in *. rewrite Hslash.
    destruct (isdigit (char_code c)) eqn:Hd.
    + specialize (Hdigit eq_refl). rewrite (Hrun eq_refl) in *.
      set (d := Z.to_nat (char_code c - 48)) in *.
      rewrite length_app, length_replicate in Hw.
      replace (Z.of_nat (length cells) + (char_code c - 48))
        with (Z.of_nat (length (cells ++ replicate d 0)))
        by (rewrite length_app, length_replicate; lia).
      rewrite (IH rest pre (cells ++ replicate d 0) (k - d)%nat post s); try done.
      * rewrite !length_app, !length_replicate, <- !app_assoc.
        replace (length cells + d + length (fen_rank r))%nat
          with (length cells + (d + length (fen_rank r)))%nat by lia.
        replace (k - d - length (fen_rank r))%nat
          with (k - (d + length (fen_rank r)))%nat by lia.
        reflexivity.
      * rewrite Hb, <- app_assoc, <- replicate_add. do 4 f_equal. lia.
      * rewrite length_app, length_replicate. lia.
      * lia.
    + rewrite (Hletter eq_refl) in *. cbn [app length] in Hw. cbn [app].
      destruct k as [|k]; [lia|].
      assert (Hput :
        write_at (Z.of_nat (length pre)) (Z.of_nat (length cells)) (toPiece c) s
        = Ok (tt, set_board (pre ++ ((cells ++ [toPiece c]) ++ replicate k 0) :: post) s, [])).
      { rewrite (write_at_middle s pre (cells ++ replicate (S k) 0) post
                   (length cells) 0 (toPiece c)); try done; try lia.
        - cbn [replicate]. rewrite insert_middle, <- app_assoc. reflexivity.
        - cbn [replicate]. by apply list_lookup_middle. }
      rewrite (bind_ok _ _ _ _ _ _ Hput). cbn [app]. rewrite run_eta.
      replace (Z.of_nat (length cells) + 1)
        with (Z.of_nat (length (cells ++ [toPiece c])))
        by (rewrite length_app; simpl; lia).
      rewrite (IH rest pre (cells ++ [toPiece c]) k post); try done.
      * rewrite set_board_twice, !length_app, <- !app_assoc. cbn [length app].
        do 2 f_equal. lia.
      * rewrite length_app. simpl. lia.
      * lia.
Qed.

Lemma append_empty_r (s : string) : s +:+ EmptyString = s.
Proof.
  induction s as [|c s IH]; [reflexivity|].
  change (String c s +:+ EmptyString) with (String c (s +:+ EmptyString)).
  by rewrite IH.
Qed.

(** The ranks one after the other, [above] being the rows already read. *)
Lemma loadFEN_loop_ranks ranks : ∀ above s,
  ranks ≠ [] →
  Forall wf_rank ranks →
  board s = above ++ replicate (length ranks) (replicate 8 0) →
  (length above + length ranks = 8)%nat →
  loadFEN_loop (String.concat "/" ranks) (Z.of_nat (length above)) 0 s
  = Ok (tt, set_board (above ++ fen_board ranks) s, []).
Proof.
  induction ranks as [|r ranks IH]; intros above s Hne Hwf Hb Hlen; [done|].
  apply Forall_cons in Hwf as [[Hchars Hwidth] Hwf].
  cbn [length replicate] in Hb.
  assert (Hrank : ∀ rest,
    loadFEN_loop (r +:+ rest) (Z.of_nat (length above)) 0 s
    = loadFEN_loop rest (Z.of_nat (length above)) 8
        (set_board (above ++ fen_rank r :: replicate (length ranks) (replicate 8 0)) s)).
  { intros rest.
    assert (Habove : (length above < 8)%nat) by (simpl in Hlen; lia).
    assert (Hfit : (length (fen_rank r) <= 8)%nat) by lia.
    pose proof (loadFEN_loop_rank r rest above [] 8
                  (replicate (length ranks) (replicate 8 0)) s
                  Hchars Hb Habove eq_refl Hfit) as E.
    rewrite Hwidth in E. cbn [length Nat.add Nat.sub replicate app] in E.
    rewrite app_nil_r in E. exact E. }
  destruct ranks as [|r2 ranks].
  - cbn [String.concat]. rewrite <- (append_empty_r r) at 1. rewrite Hrank.
    reflexivity.
  - change (String.concat "/" (r :: r2 :: ranks))
      with (r +:+ String "/" (String.concat "/" (r2 :: ranks))).
    rewrite Hrank. cbn [loadFEN_loop]. change (Ascii.eqb "/" "/") with true. cbv iota.
    replace (Z.of_nat (length above) + 1) with (Z.of_nat (length (above ++ [fen_rank r])))
      by (rewrite length_app; simpl; lia).
    rewrite IH; try done.
    + rewrite set_board_twice. unfold fen_board. cbn [map].
      by rewrite <- app_assoc.
    + cbn [board set_board]. by rewrite <- app_assoc.
    + rewrite length_app. simpl in *. lia.
Qed.

Lemma vector_at_0 {A} (x : A) l : vector_at (x :: l) 0 = Ok x.
Proof. reflexivity. Qed.

Lemma vector_at_1 {A} (x y : A) l : vector_at (x :: y :: l) 1 = Ok y.
Proof. reflexivity. Qed.

Lemma loadFEN_run FEN placement colour tail ranks s :
  split FEN " " = placement :: colour :: tail →
  placement = String.concat "/" ranks →
  length ranks = 8%nat →
  Forall wf_rank ranks →
  board s = empty_board →
  loadFEN FEN s
  = Ok (tt, {| debugging := debugging s; currentPlayer := fen_player colour;
               board := fen_board ranks |}, []).
Proof.
  intros Hsplit -> Hlen Hwf Hb. unfold loadFEN. rewrite Hsplit.
  rewrite bind_run, vector_at_0. cbn [liftR].
  rewrite bind_run, vector_at_1. cbn [liftR].
  assert (Hloop : loadFEN_loop (String.concat "/" ranks) 0 0 s
                  = Ok (tt, set_board (fen_board ranks) s, [])).
  { apply (loadFEN_loop_ranks ranks [] s); try done.
    - intros ->. discriminate.
    - rewrite Hb, Hlen. reflexivity. }
  rewrite (bind_ok _ _ _ _ _ _ Hloop).
  unfold fen_player. destruct (String.eqb colour "b"); reflexivity.
Qed.

Lemma toPiece_int c : int_cell (toPiece c).
Proof.
  unfold toPiece, int_cell.
  repeat match goal with
         | |- context [Ascii.eqb c ?x] => destruct (Ascii.eqb c x); [simpl; lia|]
         end.
  lia.
Qed.

Lemma fen_squares_int c : Forall int_cell (fen_squares c).
Proof.
  unfold fen_squares.
  destruct (fen_lookup c fen_pieces) as [[side kind]|].
  - repeat constructor; destruct side, kind; simpl; lia.
  - destruct (fen_lookup c fen_digits); [|constructor].
    apply Forall_replicate. unfold int_cell. lia.
Qed.

Lemma fen_rank_int r : Forall int_cell (fen_rank r).
Proof.
  induction r as [|c r IH]; [constructor|]. cbn [fen_rank].
  apply Forall_app. split; [apply fen_squares_int|done].
Qed.

Lemma wf_fen_board ranks :
  length ranks = 8%nat → Forall wf_rank ranks → wf_board (fen_board ranks).
Proof.
  intros Hlen Hwf. split.
  - unfold fen_board. by rewrite length_map.
  - unfold fen_board. apply Forall_fmap. eapply Forall_impl; [exact Hwf|].
    intros r [_ Hr]. split; [done|]. apply fen_rank_int.
Qed.

(** ** Reading the moves *)

Lemma square_pair_text_InBounds tok mv :
  square_pair_text tok mv → InBounds mv.1 ∧ InBounds mv.2.
Proof.
  intros (c0 & c1 & c2 & c3 & _ & H0 & H1 & H2 & H3 & Hf & Ht).
  destruct (Square_of_string_text c0 c1 H0 H1) as (sq1 & E1 & B1).
  destruct (Square_of_string_text c2 c3 H2 H3) as (sq2 & E2 & B2).
  rewrite E1 in Hf. rewrite E2 in Ht. by simplify_eq.
Qed.

Lemma loadMoves_loop_run tokens mvs : ∀ s,
  Forall2 square_pair_text tokens mvs →
  for_each tokens (λ move,
    piece ← liftR (substr move 0 2 ≫= Square_of_string);
    location ← liftR (substr move 2 2 ≫= Square_of_string);
    modify (λ s, set_solutionMoves (solutionMoves s ++ [(piece, location)]) s)) s
  = Ok (tt, set_solutionMoves (solutionMoves s ++ mvs) s, []).
Proof.
  intros s H. revert s.
  induction H as [|tok [f t] tokens mvs Htok _ IH]; intros s.
  - cbn. rewrite app_nil_r. by destruct s.
  - destruct Htok as (c0 & c1 & c2 & c3 & -> & _ & _ & _ & _ & Hf & Ht).
    cbn [for_each fst snd] in *.
    rewrite bind_run. rewrite bind_run.
    change (substr (String c0 (String c1 (String c2 (String c3 EmptyString)))) 0 2)
      with (Ok (String c0 (String c1 EmptyString))).
    change (substr (String c0 (String c1 (String c2 (String c3 EmptyString)))) 2 2)
      with (Ok (String c2 (String c3 EmptyString))).
    cbn [mbind result_bind]. rewrite Hf. cbn [liftR].
    rewrite bind_run. rewrite Ht. cbn [liftR modify app].
    rewrite IH. cbn [solutionMoves set_solutionMoves base currentStep puzzleElo usedHint].
    rewrite <- app_assoc. reflexivity.
Qed.

Lemma loadMoves_run moves mvs s :
  Forall2 square_pair_text (split moves " ") mvs →
  loadMoves moves s = Ok (tt, set_solutionMoves (solutionMoves s ++ mvs) s, []).
Proof. apply loadMoves_loop_run. Qed.

Lemma makeOpponentMove_run s f t tv o :
  0 <= currentStep s < 2 ^ 31 - 1 →
  solutionMoves s !! Z.to_nat (currentStep s) = Some (f, t) →
  cell (board (base s)) (row t) (col t) = Some tv →
  cell (board (base s)) (row f) (col f) = Some o →
  makeOpponentMove s
  = Ok (tt,
        set_currentStep (currentStep s + 1)
          (set_base {| debugging := debugging (base s);
                       currentPlayer := opponent (currentPlayer (base s));
                       board := moved (board (base s)) f t o |} s),
        capture_effects tv o t
          ++ [set_player (opponent (currentPlayer (base s)))]
          ++ won_effects tv ++ [update_board]).
Proof.
  intros Hstep Hmv Htv Ho. unfold makeOpponentMove.
  rewrite bind_run. cbn [gets]. rewrite bind_run. cbn [gets].
  assert (Hat : vector_at (solutionMoves s) (currentStep s) = Ok (f, t))
    by (apply vector_at_lookup; [lia|done]).
  rewrite bind_run, Hat. cbn [liftR fst snd].
  pose proof (movePieceUnconditionally_run _ _ _ _ _ Htv Ho) as Hmove.
  rewrite (bind_ok _ _ _ _ _ _ (liftBase_run _ _ _ _ _ Hmove)).
  cbn [modify app]. rewrite app_nil_r. reflexivity.
Qed.

Lemma cell_moved b f t tv o r c :
  cell b (row t) (col t) = Some tv →
  cell b (row f) (col f) = Some o →
  cell (moved b f t o) r c =
  if (row f =? r) && (col f =? c) then Some 0
  else if (row t =? r) && (col t =? c) then Some o
  else cell b r c.
Proof.
  intros Htv Ho. unfold moved.
  assert (Ho' : ∃ x, cell (upd b (row t) (col t) o) (row f) (col f) = Some x).
  { rewrite (cell_upd _ _ _ _ _ _ _ Htv).
    destruct ((row t =? row f) && (col t =? col f)); by eexists. }
  destruct Ho' as [x Hx].
  rewrite (cell_upd _ _ _ _ _ _ _ Hx).
  destruct ((row f =? r) && (col f =? c)); [reflexivity|].
  apply (cell_upd _ _ _ _ _ _ _ Htv).
Qed.

Lemma bind_then {S A B} (m : M S A) (f : A → M S B) s a s1 e1 b s2 e2 :
  m s = Ok (a, s1, e1) →
  f a s1 = Ok (b, s2, e2) →
  (m ≫= f) s = Ok (b, s2, e1 ++ e2).
Proof. intros Hm Hf. by rewrite (bind_ok _ _ _ _ _ _ Hm), Hf. Qed.

Lemma Chess_ctor_run c : Chess_ctor c = Ok (tt, c, [set_player (currentPlayer c)]).
Proof. reflexivity. Qed.

(** The constructor on a record whose tokens, as [split] makes them, are
    at least 9, with a placement of 8 well-formed ranks and an active
    colour in token 1, a rating in token 3 and square pairs in token 2. *)
Lemma ChessPuzzle_ctor_tokens
    (PGN fen moves rating placement colour : string) (tail ranks : list string)
    (elo : Z) (f0 t0 : Square) (mvs : list (Square * Square)) :
  (9 <= length (split PGN ","))%nat →
  split PGN "," !! 1%nat = Some fen →
  split PGN "," !! 2%nat = Some moves →
  split PGN "," !! 3%nat = Some rating →
  split fen " " = placement :: colour :: tail →
  placement = String.concat "/" ranks →
  length ranks = 8%nat →
  Forall wf_rank ranks →
  stoi rating = Ok elo →
  Forall2 square_pair_text (split moves " ") ((f0, t0) :: mvs) →
  ∃ s evs,
    new_ChessPuzzle PGN = Ok (tt, s, evs)
    ∧ wf_board (board (base s))
    ∧ (∀ r c, 0 <= r <= 7 → 0 <= c <= 7 →
         cell (board (base s)) r c =
         if (row f0 =? r) && (col f0 =? c) then Some 0
         else if (row t0 =? r) && (col t0 =? c)
              then cell (fen_board ranks) (row f0) (col f0)
              else cell (fen_board ranks) r c)
    ∧ currentStep s = 1
    ∧ puzzleElo s = elo
    ∧ solutionMoves s = (f0, t0) :: mvs
    ∧ currentPlayer (base s) = opponent (fen_player colour)
    ∧ last evs = Some (set_player (opponent (fen_player colour))).
Proof.
  intros Hlen Hfen Hmoves Hrating Hsplit Hplace Hranks Hwf Helo Htokens.
  assert (Hwfb : wf_board (fen_board ranks)) by by apply wf_fen_board.
  apply Forall2_cons_inv_r in Htokens as Htok.
  destruct Htok as (tok0 & toks & Htok0 & _ & _).
  apply square_pair_text_InBounds in Htok0 as [Hf0 Ht0]. cbn [fst snd] in Hf0, Ht0.
  destruct (cell_wf _ _ _ Hwfb (proj1 Ht0) (proj2 Ht0)) as [tv Htv].
  destruct (cell_wf _ _ _ Hwfb (proj1 Hf0) (proj2 Hf0)) as [o Ho].
  destruct (lookup_lt_is_Some_2 (split PGN ",") 7) as [themes Hthemes]; [lia|].
  pose proof (loadFEN_run fen placement colour tail ranks
                (set_debugging true Chess_init) Hsplit Hplace Hranks Hwf eq_refl)
    as Hload.
  cbn [debugging set_debugging] in Hload.
  eexists _, _. split.
  { unfold new_ChessPuzzle, ChessPuzzle_ctor.
    eapply bind_then; [apply liftBase_run, Chess_ctor_run|].
    eapply bind_then; [reflexivity|].
    cbv zeta.
    replace (length (split PGN ",") <? 9)%nat with false
      by (symmetry; apply Nat.ltb_ge; lia).
    eapply bind_then;
      [unfold liftR; rewrite (vector_at_lookup _ 1 fen) by (done || lia); reflexivity|].
    eapply bind_then;
      [unfold liftR; rewrite (vector_at_lookup _ 2 moves) by (done || lia); reflexivity|].
    eapply bind_then;
      [unfold liftR; rewrite (vector_at_lookup _ 7 themes) by (done || lia); reflexivity|].
    eapply bind_then;
      [unfold liftR; rewrite (vector_at_lookup _ 3 rating) by (done || lia);
       cbn [mbind result_bind]; rewrite Helo; reflexivity|].
    eapply bind_then; [reflexivity|].
    eapply bind_then; [apply liftBase_run; exact Hload|].
    eapply bind_then; [apply (loadMoves_run moves _ _ Htokens)|].
    eapply bind_then;
      [apply (makeOpponentMove_run _ f0 t0 tv o); [simpl; lia|reflexivity|exact Htv|exact Ho]|].
    eapply bind_then; reflexivity. }
  cbn [base board currentStep puzzleElo solutionMoves currentPlayer
       set_currentStep set_base set_solutionMoves set_puzzleElo ChessPuzzle_init app].
  split.
  { apply wf_upd; [apply wf_upd; [done|by apply (cell_int _ _ _ _ Hwfb Ho)]|].
    unfold int_cell. lia. }
  split; [intros r c _ _; rewrite (cell_moved _ _ _ _ _ _ _ Htv Ho), Ho; reflexivity|].
  repeat split.
  rewrite app_comm_cons. apply last_snoc.
Qed.

(** The scenario of the specification: the construction plays the rook
    from a1 to a8 and leaves the king's g8-h7 under the cursor. *)
Example new_ChessPuzzle_scenario :
  new_ChessPuzzle scenario_record
  = Ok (tt, scenario_puzzle,
        [set_player WHITE; set_player BLACK; update_board; set_player BLACK])
  ∧ peekNextMove scenario_puzzle
    = Ok ({| row := 0; col := 6 |}, {| row := 1; col := 7 |}).
Proof. split; reflexivity. Qed.

(** * Further properties of the code *)

(** ** Squares as text *)

Lemma char_code_range c : -128 <= char_code c <= 127.
Proof.
  unfold char_code. pose proof (N_ascii_bounded c) as H.
  destruct (128 <=? Z.of_N (N_of_ascii c)) eqn:E; bool_lia.
Qed.

(** X1.  Printing an in-bounds square and reading back the two characters
    between the brackets gives the square again. *)
Theorem Square_print_parse (sq : Square) :
  InBounds sq →
  Square_of_string (String.substring 1 2 (Square_print sq)) = Ok sq.
Proof.
  destruct sq as [r c]. unfold InBounds. simpl. intros [Hr Hc].
  assert (Hrs : r = 0 ∨ r = 1 ∨ r = 2 ∨ r = 3 ∨ r = 4 ∨ r = 5 ∨ r = 6 ∨ r = 7) by lia.
  assert (Hcs : c = 0 ∨ c = 1 ∨ c = 2 ∨ c = 3 ∨ c = 4 ∨ c = 5 ∨ c = 6 ∨ c = 7) by lia.
  clear Hr Hc.
  repeat (destruct Hrs as [->|Hrs] || subst r);
    repeat (destruct Hcs as [->|Hcs] || subst c); reflexivity.
Qed.

Lemma Square_print_parse_witness :
  InBounds {| row := 6; col := 4 |}
  ∧ Square_print {| row := 6; col := 4 |} = "[e2](6,4)"
  ∧ Square_of_string (String.substring 1 2 (Square_print {| row := 6; col := 4 |}))
    = Ok {| row := 6; col := 4 |}.
Proof.
  assert (H : InBounds {| row := 6; col := 4 |}) by (unfold InBounds; simpl; lia).
  split; [exact H|]. split; [reflexivity|].
  exact (Square_print_parse _ H).
Defined.

(** X2.  The text constructor accepts exactly the strings of two
    characters made of a file letter a-h of either case and a digit from 0
    to 8, and then the row is 8 minus the digit and the column the index
    of the letter; whatever it rejects, it rejects by throwing. *)
Theorem Square_of_string_accepts (s : string) :
  (∀ sq, Square_of_string s = Ok sq ↔
     ∃ c0 c1, s = String c0 (String c1 EmptyString)
       ∧ file_letter c0 = true
       ∧ 48 <= char_code c1 <= 56
       ∧ row sq = 8 - (char_code c1 - 48)
       ∧ col sq = tolower (char_code c0) - 97)
  ∧ (∀ e, Square_of_string s = Err e → ∃ msg, e = Thrown msg).
Proof.
  split.
  - intros sq. split.
    + destruct s as [|c0 [|c1 [|c2 s]]]; try discriminate.
      unfold Square_of_string, file_letter, tolower.
      destruct ((65 <=? char_code c0) && (char_code c0 <=? 90)) eqn:Hup;
        match goal with
        | |- context [(?a <? 97) || (?a >? 104)] =>
            destruct ((a <? 97) || (a >? 104)) eqn:Hlet; [discriminate|]
        end;
        (destruct ((char_code c1 - 48 <? 0) || (char_code c1 - 48 >? 8)) eqn:Hnum;
           [discriminate|]);
        intros [= <-]; exists c0, c1; simpl; rewrite ?Hup; repeat split; try bool_lia.
    + intros (c0 & c1 & -> & Hf & Hd & Hrow & Hcol).
      unfold Square_of_string, file_letter, tolower in *.
      destruct ((65 <=? char_code c0) && (char_code c0 <=? 90)) eqn:Hup;
        match goal with
        | |- context [(?a <? 97) || (?a >? 104)] =>
            replace ((a <? 97) || (a >? 104)) with false by (symmetry; bool_lia)
        end;
        (replace ((char_code c1 - 48 <? 0) || (char_code c1 - 48 >? 8)) with false
           by (symmetry; bool_lia));
        destruct sq; simpl in *; subst; reflexivity.
  - intros e. unfold Square_of_string.
    destruct s as [|c0 [|c1 [|c2 s]]]; try (intros [= <-]; by eexists).
    destruct (_ || _); [intros [= <-]; by eexists|].
    destruct (_ || _); [intros [= <-]; by eexists|]. discriminate.
Qed.

(** X3.  A mouse press at a pixel with non-negative coordinates: the
    square that [onSquareSelected] constructs from the arguments of
    [squareSelected] exists exactly when the pixel lies in the 400 by 400
    pixels of the board, and is then the square of 50 by 50 pixels that
    contains it; outside, the construction throws. *)
Theorem click_square (x y : Z) :
  0 <= x → 0 <= y →
  (x < 400 ∧ y < 400 →
     Square_of_ints (mousePressEvent x y).1 (mousePressEvent x y).2
     = Ok {| row := y / 50; col := x / 50 |}
     ∧ InBounds {| row := y / 50; col := x / 50 |})
  ∧ (400 <= x ∨ 400 <= y →
     ∃ msg, Square_of_ints (mousePressEvent x y).1 (mousePressEvent x y).2
            = Err (Thrown msg)).
Proof.
  intros Hx Hy. unfold mousePressEvent, Square_of_ints, InBounds. cbn [fst snd row col].
  rewrite !Z.quot_div_nonneg by lia.
  pose proof (Z.div_mod x 50 ltac:(lia)) as Ex.
  pose proof (Z.mod_pos_bound x 50 ltac:(lia)) as Bx.
  pose proof (Z.div_mod y 50 ltac:(lia)) as Ey.
  pose proof (Z.mod_pos_bound y 50 ltac:(lia)) as By.
  split.
  - intros [Hx4 Hy4].
    replace ((x `div` 50 >? 7) || (y `div` 50 >? 7) || (x `div` 50 <? 0) || (y `div` 50 <? 0))
      with false by (symmetry; bool_lia).
    split; [reflexivity|lia].
  - intros Hout.
    replace ((x `div` 50 >? 7) || (y `div` 50 >? 7) || (x `div` 50 <? 0) || (y `div` 50 <? 0))
      with true by (symmetry; bool_lia).
    by eexists.
Qed.

Lemma click_square_witness :
  0 <= 225 ∧ 0 <= 410
  ∧ (225 < 400 ∧ 410 < 400 →
       Square_of_ints (mousePressEvent 225 410).1 (mousePressEvent 225 410).2
       = Ok {| row := 410 / 50; col := 225 / 50 |}
       ∧ InBounds {| row := 410 / 50; col := 225 / 50 |})
  ∧ (400 <= 225 ∨ 400 <= 410 →
       ∃ msg, Square_of_ints (mousePressEvent 225 410).1 (mousePressEvent 225 410).2
              = Err (Thrown msg)).
Proof.
  assert (Hx : 0 <= 225) by lia. assert (Hy : 0 <= 410) by lia.
  split; [exact Hx|]. split; [exact Hy|].
  exact (click_square 225 410 Hx Hy).
Defined.

(** ** Placing and reading pieces *)

(** X4.  On a board of 8 by 8 and an in-bounds square, [addPiece] succeeds
    silently; [getPiece] then reads the player's sign times the piece's
    code on that square, from which the kind and the side are recovered;
    every other square, the side to move and the shape of the board are as
    before. *)
Theorem addPiece_getPiece (s : Chess) (player : Player) (piece : Piece) (sq : Square) :
  wf_board (board s) → InBounds sq →
  ∃ s',
    addPiece player piece sq s = Ok (tt, s', [])
    ∧ getPiece sq s' = Ok (player_code player * piece_code piece, s', [])
    ∧ piece_of_code (Z.abs (player_code player * piece_code piece)) = Some piece
    ∧ player_code player * piece_code piece * player_code player > 0
    ∧ (∀ r c, (r, c) ≠ (row sq, col sq) → cell (board s') r c = cell (board s) r c)
    ∧ currentPlayer s' = currentPlayer s
    ∧ wf_board (board s').
Proof.
  intros Hwf [Hr Hc].
  destruct (cell_wf _ _ _ Hwf Hr Hc) as [x Hx].
  eexists. split; [apply (write_run _ _ _ _ Hx)|].
  cbn [board set_board currentPlayer].
  split.
  { unfold getPiece. apply read_run. cbn [board set_board].
    rewrite (cell_upd _ _ _ _ _ _ _ Hx), !Z.eqb_refl. reflexivity. }
  split; [by destruct player, piece|].
  split; [destruct player, piece; simpl; lia|].
  split.
  { intros r c Hne. rewrite (cell_upd _ _ _ _ _ _ _ Hx).
    destruct (Z.eqb_spec (row sq) r) as [Er|]; [|done].
    destruct (Z.eqb_spec (col sq) c) as [Ec|]; [|done].
    exfalso. apply Hne. by rewrite Er, Ec. }
  split; [reflexivity|].
  apply wf_upd; [done|]. unfold int_cell. destruct player, piece; simpl; lia.
Qed.

Lemma addPiece_getPiece_witness :
  wf_board (board Chess_init) ∧ InBounds {| row := 7; col := 4 |}
  ∧ ∃ s',
      addPiece WHITE KING {| row := 7; col := 4 |} Chess_init = Ok (tt, s', [])
      ∧ getPiece {| row := 7; col := 4 |} s'
        = Ok (player_code WHITE * piece_code KING, s', [])
      ∧ piece_of_code (Z.abs (player_code WHITE * piece_code KING)) = Some KING
      ∧ player_code WHITE * piece_code KING * player_code WHITE > 0
      ∧ (∀ r c, (r, c) ≠ (row {| row := 7; col := 4 |}, col {| row := 7; col := 4 |}) →
           cell (board s') r c = cell (board Chess_init) r c)
      ∧ currentPlayer s' = currentPlayer Chess_init
      ∧ wf_board (board s').
Proof.
  assert (Hwf : wf_board (board Chess_init))
    by (split; [reflexivity|repeat constructor; unfold int_cell; lia]).
  assert (Hsq : InBounds {| row := 7; col := 4 |}) by (unfold InBounds; simpl; lia).
  split; [exact Hwf|]. split; [exact Hsq|].
  exact (addPiece_getPiece Chess_init WHITE KING _ Hwf Hsq).
Defined.

(** ** King and knight *)

(** X5.  The king predicate accepts exactly the targets at most one row
    and one column away, the king's own square among them; it looks
    neither at the board nor at where on the board the squares are. *)
Theorem isLegalKingMove_iff (old target : Square) :
  isLegalKingMove old target = true
  ↔ Z.abs (row target - row old) <= 1 ∧ Z.abs (col target - col old) <= 1.
Proof.
  unfold isLegalKingMove, Square_eqb. cbn [existsb row col].
  rewrite !orb_false_r, !orb_true_iff, !andb_true_iff, !Z.eqb_eq. lia.
Qed.

(** X6.  The knight predicate accepts exactly the targets two rows and one
    column, or one row and two columns, away. *)
Theorem isLegalKnightMove_iff (old target : Square) :
  isLegalKnightMove old target = true
  ↔ (Z.abs (row target - row old) = 2 ∧ Z.abs (col target - col old) = 1)
    ∨ (Z.abs (row target - row old) = 1 ∧ Z.abs (col target - col old) = 2).
Proof.
  unfold isLegalKnightMove, Square_eqb. cbn [existsb zip zip_with row col fst snd].
  rewrite !orb_false_r, !orb_true_iff, !andb_true_iff, !Z.eqb_eq. lia.
Qed.

(** ** Rook, bishop and queen: the accepted moves *)

Lemma blocked_true_iff b sr sc n : ∀ cur,
  blocked b cur sr sc n = true
  ↔ ∃ k, (k < n)%nat
      ∧ occupied b {| row := row cur + Z.of_nat k * sr;
                      col := col cur + Z.of_nat k * sc |} = true.
Proof.
  induction n as [|n IH]; intros cur; cbn [blocked].
  - split; [discriminate|]. intros (k & Hk & _). lia.
  - rewrite orb_true_iff, IH. split.
    + intros [H|(k & Hk & H)].
      * exists 0%nat. split; [lia|]. destruct cur as [r c]. simpl.
        by rewrite !Z.add_0_r.
      * exists (S k). split; [lia|]. rewrite <- H. unfold step_from. simpl.
        do 2 f_equal; lia.
    + intros ([|k] & Hk & H).
      * left. rewrite <- H. destruct cur as [r c]. simpl. by rewrite !Z.add_0_r.
      * right. exists k. split; [lia|]. rewrite <- H. unfold step_from. simpl.
        do 2 f_equal; lia.
Qed.

Lemma between_blocked_false_iff b old target :
  wf_board b → InBounds old → InBounds target →
  straight old target = true ∨ diagonal old target = true →
  between_blocked b old target = false ↔ path_clear b old target.
Proof.
  intros Hwf [Hor Hoc] [Htr Htc] Hline.
  unfold between_blocked, path_clear, path_len, straight, diagonal in *.
  set (dr := row target - row old) in *. set (dc := col target - col old) in *.
  assert (Hdir : dr = 0 ∨ dc = 0 ∨ Z.abs dr = Z.abs dc).
  { destruct Hline as [H|H].
    - destruct (Z.eqb_spec dr 0); [by left|].
      destruct (Z.eqb_spec dc 0); [right; by left|]. discriminate.
    - right; right. bool_lia. }
  rewrite <- not_true_iff_false, blocked_true_iff.
  split.
  - intros Hno k Hk.
    destruct (cell_wf b (row old + k * Z.sgn dr) (col old + k * Z.sgn dc) Hwf)
      as [v Hv]; [subst dr dc; nia|subst dr dc; nia|].
    rewrite Hv. f_equal.
    destruct (decide (v = 0)) as [|Hne]; [done|]. exfalso. apply Hno.
    exists (Z.to_nat (k - 1)). split; [lia|].
    unfold occupied, step_from. cbn [row col].
    replace (row old + Z.sgn dr + Z.of_nat (Z.to_nat (k - 1)) * Z.sgn dr)
      with (row old + k * Z.sgn dr) by lia.
    replace (col old + Z.sgn dc + Z.of_nat (Z.to_nat (k - 1)) * Z.sgn dc)
      with (col old + k * Z.sgn dc) by lia.
    rewrite Hv. bool_lia.
  - intros Hclear (k & Hk & Hocc).
    unfold occupied, step_from in Hocc. cbn [row col] in Hocc.
    specialize (Hclear (Z.of_nat k + 1) ltac:(lia)).
    replace (row old + Z.sgn dr + Z.of_nat k * Z.sgn dr)
      with (row old + (Z.of_nat k + 1) * Z.sgn dr) in Hocc by lia.
    replace (col old + Z.sgn dc + Z.of_nat k * Z.sgn dc)
      with (col old + (Z.of_nat k + 1) * Z.sgn dc) in Hocc by lia.
    rewrite Hclear in Hocc. discriminate.
Qed.

Lemma path_clear_sym b old target :
  row target - row old = 0 ∨ col target - col old = 0
  ∨ Z.abs (row target - row old) = Z.abs (col target - col old) →
  path_clear b old target → path_clear b target old.
Proof.
  unfold path_clear, path_len. intros Hdir H k Hk.
  set (dr := row target - row old) in *. set (dc := col target - col old) in *.
  replace (row old - row target) with (- dr) in * by (subst dr; lia).
  replace (col old - col target) with (- dc) in * by (subst dc; lia).
  rewrite !Z.abs_opp in Hk. rewrite !Z.sgn_opp.
  specialize (H (Z.max (Z.abs dr) (Z.abs dc) - k) ltac:(lia)).
  rewrite <- H. f_equal; subst dr dc; nia.
Qed.

Lemma straight_sym old target : straight target old = straight old target.
Proof.
  unfold straight.
  replace (row old - row target =? 0) with (row target - row old =? 0)
    by (apply eq_iff_eq_true; bool_lia).
  replace (col old - col target =? 0) with (col target - col old =? 0)
    by (apply eq_iff_eq_true; bool_lia).
  reflexivity.
Qed.

Lemma diagonal_sym old target : diagonal target old = diagonal old target.
Proof. unfold diagonal. apply eq_iff_eq_true. bool_lia. Qed.

Lemma line_of old target :
  straight old target = true ∨ diagonal old target = true →
  row target - row old = 0 ∨ col target - col old = 0
  ∨ Z.abs (row target - row old) = Z.abs (col target - col old).
Proof.
  unfold straight, diagonal. intros [H|H].
  - destruct (Z.eqb_spec (row target - row old) 0); [by left|].
    destruct (Z.eqb_spec (col target - col old) 0); [right; by left|]. discriminate.
  - right; right. bool_lia.
Qed.

Lemma between_blocked_sym b old target :
  wf_board b → InBounds old → InBounds target →
  straight old target = true ∨ diagonal old target = true →
  between_blocked b target old = between_blocked b old target.
Proof.
  intros Hwf Ho Ht Hline.
  assert (Hline' : straight target old = true ∨ diagonal target old = true)
    by (by rewrite straight_sym, diagonal_sym).
  pose proof (between_blocked_false_iff b old target Hwf Ho Ht Hline) as H1.
  pose proof (between_blocked_false_iff b target old Hwf Ht Ho Hline') as H2.
  destruct (between_blocked b old target) eqn:E1,
           (between_blocked b target old) eqn:E2; try reflexivity.
  - exfalso. apply proj2 in H1. apply proj1 in H2.
    assert (true = false); [|discriminate].
    apply H1. apply path_clear_sym; [by apply line_of|]. by apply H2.
  - exfalso. apply proj1 in H1. apply proj2 in H2.
    assert (true = false); [|discriminate].
    apply H2. apply path_clear_sym; [by apply line_of|]. by apply H1.
Qed.

(** X7.  On a board of 8 by 8 and in-bounds squares the rook predicate
    returns, and it accepts a move exactly when origin and target differ in
    the row or in the column but not in both and every square strictly
    between them is empty; what stands on the target plays no part. *)
Theorem isLegalRookMove_iff (fuel : nat) (b : Board) (old target : Square) :
  wf_board b → InBounds old → InBounds target → (8 <= fuel)%nat →
  (∃ ok, isLegalRookMove fuel b old target = Ok ok)
  ∧ (isLegalRookMove fuel b old target = Ok true
     ↔ ((row target = row old ∧ col target ≠ col old)
        ∨ (row target ≠ row old ∧ col target = col old))
       ∧ path_clear b old target).
Proof.
  intros Hwf Ho Ht Hfuel. rewrite isLegalRookMove_run by done.
  split; [by eexists|].
  destruct (straight old target) eqn:Hs; cbn [andb].
  - rewrite <- (between_blocked_false_iff b old target Hwf Ho Ht (or_introl Hs)).
    unfold straight in Hs.
    destruct (Z.eqb_spec (row target - row old) 0),
             (Z.eqb_spec (col target - col old) 0); try discriminate;
      (split; [intros [= E%negb_true_iff]; split; [lia|done]
              |intros [_ ->]; reflexivity]).
  - split; [discriminate|]. intros [Hdir _]. unfold straight in Hs.
    destruct (Z.eqb_spec (row target - row old) 0),
             (Z.eqb_spec (col target - col old) 0); try discriminate; lia.
Qed.

Lemma isLegalRookMove_iff_witness :
  let old := {| row := 7; col := 0 |} in
  let target := {| row := 3; col := 0 |} in
  wf_board defaultBoard ∧ InBounds old ∧ InBounds target ∧ (8 <= 8)%nat
  ∧ (∃ ok, isLegalRookMove 8 defaultBoard old target = Ok ok)
  ∧ (isLegalRookMove 8 defaultBoard old target = Ok true
     ↔ ((row target = row old ∧ col target ≠ col old)
        ∨ (row target ≠ row old ∧ col target = col old))
       ∧ path_clear defaultBoard old target).
Proof.
  cbv zeta.
  assert (Hold : InBounds {| row := 7; col := 0 |}) by (unfold InBounds; simpl; lia).
  assert (Htgt : InBounds {| row := 3; col := 0 |}) by (unfold InBounds; simpl; lia).
  split; [exact wf_defaultBoard|]. split; [exact Hold|]. split; [exact Htgt|].
  split; [lia|].
  exact (isLegalRookMove_iff 8 defaultBoard _ _ wf_defaultBoard Hold Htgt (le_n 8)).
Defined.

(** X8.  On distinct in-bounds squares the bishop predicate returns, and it
    accepts a move exactly when the row and the column change by the same
    amount and every square strictly between origin and target is
    empty. *)
Theorem isLegalBishopMove_iff (fuel : nat) (b : Board) (old target : Square) :
  wf_board b → InBounds old → InBounds target → old ≠ target → (8 <= fuel)%nat →
  (∃ ok, isLegalBishopMove fuel b old target = Ok ok)
  ∧ (isLegalBishopMove fuel b old target = Ok true
     ↔ Z.abs (row target - row old) = Z.abs (col target - col old)
       ∧ path_clear b old target).
Proof.
  intros Hwf Ho Ht Hne Hfuel. rewrite isLegalBishopMove_run by done.
  split; [by eexists|].
  destruct (diagonal old target) eqn:Hd; cbn [andb].
  - rewrite <- (between_blocked_false_iff b old target Hwf Ho Ht (or_intror Hd)).
    unfold diagonal in Hd.
    split; [intros [= E%negb_true_iff]; split; [bool_lia|done]
           |intros [_ ->]; reflexivity].
  - split; [discriminate|]. intros [Hdir _]. unfold diagonal in Hd. bool_lia.
Qed.

Lemma isLegalBishopMove_iff_witness :
  let old := {| row := 7; col := 2 |} in
  let target := {| row := 5; col := 4 |} in
  wf_board defaultBoard ∧ InBounds old ∧ InBounds target ∧ old ≠ target
  ∧ (8 <= 8)%nat
  ∧ (∃ ok, isLegalBishopMove 8 defaultBoard old target = Ok ok)
  ∧ (isLegalBishopMove 8 defaultBoard old target = Ok true
     ↔ Z.abs (row target - row old) = Z.abs (col target - col old)
       ∧ path_clear defaultBoard old target).
Proof.
  cbv zeta.
  assert (Hold : InBounds {| row := 7; col := 2 |}) by (unfold InBounds; simpl; lia).
  assert (Htgt : InBounds {| row := 5; col := 4 |}) by (unfold InBounds; simpl; lia).
  assert (Hne : {| row := 7; col := 2 |} ≠ {| row := 5; col := 4 |}) by discriminate.
  split; [exact wf_defaultBoard|]. split; [exact Hold|]. split; [exact Htgt|].
  split; [exact Hne|]. split; [lia|].
  exact (isLegalBishopMove_iff 8 defaultBoard _ _ wf_defaultBoard Hold Htgt Hne (le_n 8)).
Defined.

(** X9.  On distinct in-bounds squares no move is accepted both as a
    bishop's and as a rook's, and the queen predicate accepts exactly the
    moves that one of the two accepts. *)
Theorem isLegalQueenMove_union (fuel : nat) (b : Board) (old target : Square) :
  wf_board b → InBounds old → InBounds target → old ≠ target → (8 <= fuel)%nat →
  ∃ bishop rook,
    isLegalBishopMove fuel b old target = Ok bishop
    ∧ isLegalRookMove fuel b old target = Ok rook
    ∧ isLegalQueenMove fuel b old target = Ok (bishop || rook)
    ∧ bishop && rook = false.
Proof.
  intros Hwf Ho Ht Hne Hfuel.
  rewrite isLegalBishopMove_run, isLegalRookMove_run, isLegalQueenMove_run by done.
  eexists _, _. split; [reflexivity|]. split; [reflexivity|].
  apply Square_neq_offsets in Hne.
  unfold diagonal, straight.
  destruct (Z.eqb_spec (row target - row old) 0),
           (Z.eqb_spec (col target - col old) 0),
           (Z.eqb_spec (Z.abs (row target - row old) - Z.abs (col target - col old)) 0),
           (between_blocked b old target); cbn; try (split; reflexivity); lia.
Qed.

Lemma isLegalQueenMove_union_witness :
  let old := {| row := 7; col := 3 |} in
  let target := {| row := 4; col := 3 |} in
  wf_board defaultBoard ∧ InBounds old ∧ InBounds target ∧ old ≠ target
  ∧ (8 <= 8)%nat
  ∧ ∃ bishop rook,
      isLegalBishopMove 8 defaultBoard old target = Ok bishop
      ∧ isLegalRookMove 8 defaultBoard old target = Ok rook
      ∧ isLegalQueenMove 8 defaultBoard old target = Ok (bishop || rook)
      ∧ bishop && rook = false.
Proof.
  cbv zeta.
  assert (Hold : InBounds {| row := 7; col := 3 |}) by (unfold InBounds; simpl; lia).
  assert (Htgt : InBounds {| row := 4; col := 3 |}) by (unfold InBounds; simpl; lia).
  assert (Hne : {| row := 7; col := 3 |} ≠ {| row := 4; col := 3 |}) by discriminate.
  split; [exact wf_defaultBoard|]. split; [exact Hold|]. split; [exact Htgt|].
  split; [exact Hne|]. split; [lia|].
  exact (isLegalQueenMove_union 8 defaultBoard _ _ wf_defaultBoard Hold Htgt Hne (le_n 8)).
Defined.

(** X10.  The sliding predicates do not depend on the direction of travel:
    on in-bounds squares the rook, and on distinct squares the bishop and
    the queen, answer from the target to the origin what they answer from
    the origin to the target. *)
Theorem sliding_move_reversible (fuel : nat) (b : Board) (old target : Square) :
  wf_board b → InBounds old → InBounds target → (8 <= fuel)%nat →
  isLegalRookMove fuel b target old = isLegalRookMove fuel b old target
  ∧ (old ≠ target →
     isLegalBishopMove fuel b target old = isLegalBishopMove fuel b old target
     ∧ isLegalQueenMove fuel b target old = isLegalQueenMove fuel b old target).
Proof.
  intros Hwf Ho Ht Hfuel.
  assert (Hsame : ∀ line : bool,
    (line = true → straight old target = true ∨ diagonal old target = true) →
    line && negb (between_blocked b target old)
    = line && negb (between_blocked b old target)).
  { intros [] Hl; [|reflexivity]. by rewrite between_blocked_sym by auto. }
  split.
  - rewrite !isLegalRookMove_run by done. rewrite straight_sym. f_equal.
    apply Hsame. auto.
  - intros Hne.
    rewrite !isLegalBishopMove_run, !isLegalQueenMove_run by done.
    rewrite straight_sym, diagonal_sym. split; f_equal; apply Hsame.
    + auto.
    + intros [H|H]%orb_true_iff; auto.
Qed.

Lemma sliding_move_reversible_witness :
  let old := {| row := 7; col := 0 |} in
  let target := {| row := 3; col := 0 |} in
  wf_board defaultBoard ∧ InBounds old ∧ InBounds target ∧ (8 <= 8)%nat
  ∧ isLegalRookMove 8 defaultBoard target old = isLegalRookMove 8 defaultBoard old target
  ∧ (old ≠ target →
     isLegalBishopMove 8 defaultBoard target old = isLegalBishopMove 8 defaultBoard old target
     ∧ isLegalQueenMove 8 defaultBoard target old = isLegalQueenMove 8 defaultBoard old target).
Proof.
  cbv zeta.
  assert (Hold : InBounds {| row := 7; col := 0 |}) by (unfold InBounds; simpl; lia).
  assert (Htgt : InBounds {| row := 3; col := 0 |}) by (unfold InBounds; simpl; lia).
  split; [exact wf_defaultBoard|]. split; [exact Hold|]. split; [exact Htgt|].
  split; [lia|].
  exact (sliding_move_reversible 8 defaultBoard _ _ wf_defaultBoard Hold Htgt (le_n 8)).
Defined.

(** ** Counting the pieces *)

Lemma count_insert (p : Z → bool) (l : list Z) (i : nat) (x v : Z) :
  l !! i = Some x →
  (length (List.filter p (<[i := v]> l)) + indicator p x
   = length (List.filter p l) + indicator p v)%nat.
Proof.
  intros Hx.
  rewrite <- (take_drop_middle l i x Hx) at 2.
  rewrite insert_take_drop by (by eapply lookup_lt_Some).
  rewrite !List.filter_app, !length_app. cbn [List.filter]. unfold indicator.
  destruct (p x), (p v); cbn [length]; lia.
Qed.

Lemma count_cells_upd (p : Z → bool) b r c v x :
  cell b r c = Some x →
  (count_cells p (upd b r c v) + indicator p x
   = count_cells p b + indicator p v)%nat.
Proof.
  intros Hx. apply cell_Some_inv in Hx as (_ & _ & line & Hline & Hx).
  unfold upd, count_cells. rewrite Hline.
  pose proof (count_insert p line (Z.to_nat c) x v Hx) as Hc.
  rewrite <- (take_drop_middle b (Z.to_nat r) line Hline) at 2.
  rewrite insert_take_drop by (by eapply lookup_lt_Some).
  rewrite !concat_app, !concat_cons, !List.filter_app, !length_app. lia.
Qed.

Lemma valid_codes_cell b r c v : valid_codes b → cell b r c = Some v → -6 <= v <= 6.
Proof.
  intros Hb Hv. apply cell_Some_inv in Hv as (_ & _ & line & Hline & Hv).
  apply (Forall_lookup_1 _ _ _ _ Hb) in Hline.
  by apply (Forall_lookup_1 _ _ _ _ Hline) in Hv.
Qed.

Lemma valid_codes_upd b r c v :
  valid_codes b → -6 <= v <= 6 → valid_codes (upd b r c v).
Proof.
  intros Hb Hv. unfold upd.
  destruct (b !! Z.to_nat r) as [line|] eqn:Hline; [|done].
  apply Forall_insert; [done|]. apply Forall_insert; [|done].
  by apply (Forall_lookup_1 _ _ _ _ Hb) in Hline.
Qed.

Lemma count_cells_moved (p : Z → bool) b old target t o :
  cell b (row target) (col target) = Some t →
  cell b (row old) (col old) = Some o →
  old ≠ target →
  p 0 = false →
  (count_cells p (moved b old target o) + indicator p t = count_cells p b)%nat.
Proof.
  intros Ht Ho Hne Hp0. unfold moved.
  assert (Ho' : cell (upd b (row target) (col target) o) (row old) (col old) = Some o).
  { rewrite (cell_upd _ _ _ _ _ _ _ Ht).
    destruct ((row target =? row old) && (col target =? col old)) eqn:E; [|done].
    exfalso. apply Hne. destruct old, target; simpl in *.
    apply andb_true_iff in E as [->%Z.eqb_eq ->%Z.eqb_eq]. done. }
  pose proof (count_cells_upd p _ _ _ 0 _ Ho') as H1.
  pose proof (count_cells_upd p _ _ _ o _ Ht) as H2.
  unfold indicator in *. rewrite Hp0 in H1. lia.
Qed.

Lemma wf_moved b old target o :
  wf_board b → int_cell o → wf_board (moved b old target o).
Proof.
  intros Hwf Ho. unfold moved. apply wf_upd; [by apply wf_upd|].
  unfold int_cell. lia.
Qed.

Lemma valid_codes_moved b old target o :
  valid_codes b → -6 <= o <= 6 → valid_codes (moved b old target o).
Proof.
  intros Hb Ho. unfold moved. apply valid_codes_upd; [by apply valid_codes_upd|lia].
Qed.

(** ** The unconditional move *)

(** X11.  On a board of 8 by 8 and distinct in-bounds squares,
    [movePieceUnconditionally] returns; afterwards the target holds what
    the origin held, the origin is empty, every other square is as before,
    and the board is still 8 by 8. *)
Theorem movePieceUnconditionally_board (s : Chess) (old target : Square) :
  wf_board (board s) → InBounds old → InBounds target → old ≠ target →
  ∃ o s' evs,
    cell (board s) (row old) (col old) = Some o
    ∧ movePieceUnconditionally old target s = Ok (tt, s', evs)
    ∧ cell (board s') (row target) (col target) = Some o
    ∧ cell (board s') (row old) (col old) = Some 0
    ∧ (∀ r c, (r, c) ≠ (row old, col old) → (r, c) ≠ (row target, col target) →
         cell (board s') r c = cell (board s) r c)
    ∧ wf_board (board s')
    ∧ debugging s' = debugging s.
Proof.
  intros Hwf Ho Ht Hne.
  destruct (cell_wf _ _ _ Hwf (proj1 Ht) (proj2 Ht)) as [t Htc].
  destruct (cell_wf _ _ _ Hwf (proj1 Ho) (proj2 Ho)) as [o Hoc].
  exists o. eexists _, _. split; [exact Hoc|].
  split; [apply (movePieceUnconditionally_run _ _ _ _ _ Htc Hoc)|].
  cbn [board debugging].
  assert (Hdiff : (row old =? row target) && (col old =? col target) = false).
  { apply not_true_iff_false. intros E. apply Hne. destruct old, target; simpl in *.
    apply andb_true_iff in E as [->%Z.eqb_eq ->%Z.eqb_eq]. done. }
  split.
  { rewrite (cell_moved _ _ _ _ _ _ _ Htc Hoc), Hdiff, !Z.eqb_refl. reflexivity. }
  split.
  { rewrite (cell_moved _ _ _ _ _ _ _ Htc Hoc), !Z.eqb_refl. reflexivity. }
  split.
  { intros r c H1 H2. rewrite (cell_moved _ _ _ _ _ _ _ Htc Hoc).
    destruct (Z.eqb_spec (row old) r) as [E1|], (Z.eqb_spec (col old) c) as [E2|];
      cbn [andb]; try (exfalso; apply H1; by rewrite E1, E2);
      destruct (Z.eqb_spec (row target) r) as [E3|],
               (Z.eqb_spec (col target) c) as [E4|];
      cbn [andb]; try reflexivity; exfalso; apply H2; by rewrite E3, E4. }
  split; [|reflexivity].
  apply wf_moved; [done|]. by apply (cell_int _ _ _ _ Hwf Hoc).
Qed.

Lemma movePieceUnconditionally_board_witness :
  let old := {| row := 6; col := 4 |} in
  let target := {| row := 4; col := 4 |} in
  wf_board (board default_game) ∧ InBounds old ∧ InBounds target ∧ old ≠ target
  ∧ ∃ o s' evs,
      cell (board default_game) (row old) (col old) = Some o
      ∧ movePieceUnconditionally old target default_game = Ok (tt, s', evs)
      ∧ cell (board s') (row target) (col target) = Some o
      ∧ cell (board s') (row old) (col old) = Some 0
      ∧ (∀ r c, (r, c) ≠ (row old, col old) → (r, c) ≠ (row target, col target) →
           cell (board s') r c = cell (board default_game) r c)
      ∧ wf_board (board s')
      ∧ debugging s' = debugging default_game.
Proof.
  cbv zeta.
  assert (Hold : InBounds {| row := 6; col := 4 |}) by (unfold InBounds; simpl; lia).
  assert (Htgt : InBounds {| row := 4; col := 4 |}) by (unfold InBounds; simpl; lia).
  assert (Hne : {| row := 6; col := 4 |} ≠ {| row := 4; col := 4 |}) by discriminate.
  split; [exact wf_defaultBoard|]. split; [exact Hold|]. split; [exact Htgt|].
  split; [exact Hne|].
  exact (movePieceUnconditionally_board default_game _ _ wf_defaultBoard Hold Htgt Hne).
Defined.

(** X12.  An unconditional move between distinct in-bounds squares removes
    from the board exactly what stood on the target: the number of
    non-empty squares drops by one if the target was occupied and is
    unchanged otherwise; and a board that holds only piece codes still
    does. *)
Theorem movePieceUnconditionally_count (s : Chess) (old target : Square) :
  wf_board (board s) → InBounds old → InBounds target → old ≠ target →
  ∃ t s' evs,
    cell (board s) (row target) (col target) = Some t
    ∧ movePieceUnconditionally old target s = Ok (tt, s', evs)
    ∧ (count_cells nonzero (board s') + (if (t =? 0)%Z then 0%nat else 1%nat))%nat
       = count_cells nonzero (board s)
    ∧ (valid_codes (board s) → valid_codes (board s')).
Proof.
  intros Hwf Ho Ht Hne.
  destruct (cell_wf _ _ _ Hwf (proj1 Ht) (proj2 Ht)) as [t Htc].
  destruct (cell_wf _ _ _ Hwf (proj1 Ho) (proj2 Ho)) as [o Hoc].
  exists t. eexists _, _. split; [exact Htc|].
  split; [apply (movePieceUnconditionally_run _ _ _ _ _ Htc Hoc)|].
  cbn [board]. split.
  - pose proof (count_cells_moved nonzero _ _ _ _ _ Htc Hoc Hne eq_refl) as H.
    unfold indicator in H. change (nonzero t) with (negb (t =? 0)) in H.
    destruct (t =? 0); cbn [negb] in H; cbv iota; lia.
  - intros Hv. apply valid_codes_moved; [done|].
    by apply (valid_codes_cell _ _ _ _ Hv Hoc).
Qed.

Lemma movePieceUnconditionally_count_witness :
  let old := {| row := 7; col := 0 |} in
  let target := {| row := 0; col := 0 |} in
  wf_board (board default_game) ∧ InBounds old ∧ InBounds target ∧ old ≠ target
  ∧ ∃ t s' evs,
      cell (board default_game) (row target) (col target) = Some t
      ∧ movePieceUnconditionally old target default_game = Ok (tt, s', evs)
      ∧ (count_cells nonzero (board s') + (if (t =? 0)%Z then 0%nat else 1%nat))%nat
         = count_cells nonzero (board default_game)
      ∧ (valid_codes (board default_game) → valid_codes (board s')).
Proof.
  cbv zeta.
  assert (Hold : InBounds {| row := 7; col := 0 |}) by (unfold InBounds; simpl; lia).
  assert (Htgt : InBounds {| row := 0; col := 0 |}) by (unfold InBounds; simpl; lia).
  assert (Hne : {| row := 7; col := 0 |} ≠ {| row := 0; col := 0 |}) by discriminate.
  split; [exact wf_defaultBoard|]. split; [exact Hold|]. split; [exact Htgt|].
  split; [exact Hne|].
  exact (movePieceUnconditionally_count default_game _ _ wf_defaultBoard Hold Htgt Hne).
Defined.

(** ** What a standard move keeps *)

(** X13.  Whatever [movePiece] is asked on in-bounds squares: the board
    stays 8 by 8, a board of piece codes stays one, the side to move loses
    none of its pieces, and the other side loses at most one. *)
Theorem movePiece_pieces (fuel : nat) (s : Chess) (old target : Square) :
  wf_board (board s) → InBounds old → InBounds target → (8 <= fuel)%nat →
  ∃ s' evs,
    movePiece fuel old target s = Ok (tt, s', evs)
    ∧ wf_board (board s')
    ∧ (valid_codes (board s) → valid_codes (board s'))
    ∧ count_cells (piece_of (currentPlayer s)) (board s')
      = count_cells (piece_of (currentPlayer s)) (board s)
    ∧ (count_cells (piece_of (opponent (currentPlayer s))) (board s')
       <= count_cells (piece_of (opponent (currentPlayer s))) (board s)
       <= count_cells (piece_of (opponent (currentPlayer s))) (board s') + 1)%nat.
Proof.
  intros Hwf Ho Ht Hfuel.
  destruct (cell_wf _ _ _ Hwf (proj1 Ho) (proj2 Ho)) as [piece Hp].
  destruct (cell_wf _ _ _ Hwf (proj1 Ht) (proj2 Ht)) as [t Htc].
  rewrite (movePiece_run fuel s old target piece t Hp Htc).
  assert (Hsame : ∃ s' evs,
    Ok (tt, s, @nil Effect) = Ok (tt, s', evs) ∧ wf_board (board s')
    ∧ (valid_codes (board s) → valid_codes (board s'))
    ∧ count_cells (piece_of (currentPlayer s)) (board s')
      = count_cells (piece_of (currentPlayer s)) (board s)
    ∧ (count_cells (piece_of (opponent (currentPlayer s))) (board s')
       <= count_cells (piece_of (opponent (currentPlayer s))) (board s)
       <= count_cells (piece_of (opponent (currentPlayer s))) (board s') + 1)%nat).
  { exists s, []. split; [reflexivity|]. split; [exact Hwf|].
    split; [tauto|]. split; [reflexivity|]. lia. }
  destruct ((piece * player_code (currentPlayer s) <=? 0)
            || Square_eqb old target
            || (t * player_code (currentPlayer s) >? 0)) eqn:G; [exact Hsame|].
  rewrite !orb_false_iff in G. destruct G as [[G1 G2] G3].
  assert (Hne : old ≠ target).
  { intros E. apply Square_eqb_eq in E. congruence. }
  destruct (kind_legal_total fuel (board s) piece old target) as [ok ->]; try done.
  destruct ok; [|exact Hsame].
  rewrite (movePieceUnconditionally_run _ _ _ _ _ Htc Hp).
  eexists _, _. split; [reflexivity|]. cbn [board].
  split; [apply wf_moved; [done|by apply (cell_int _ _ _ _ Hwf Hp)]|].
  split; [intros Hv; apply valid_codes_moved;
          [done|by apply (valid_codes_cell _ _ _ _ Hv Hp)]|].
  pose proof (count_cells_moved (piece_of (currentPlayer s)) _ _ _ _ _ Htc Hp Hne eq_refl)
    as Hown.
  pose proof (count_cells_moved (piece_of (opponent (currentPlayer s))) _ _ _ _ _
                Htc Hp Hne eq_refl) as Hopp.
  unfold indicator in *.
  change (piece_of (currentPlayer s) t) with (t * player_code (currentPlayer s) >? 0) in Hown.
  rewrite G3 in Hown.
  destruct (piece_of (opponent (currentPlayer s)) t); lia.
Qed.

Lemma movePiece_pieces_witness :
  let old := {| row := 6; col := 4 |} in
  let target := {| row := 4; col := 4 |} in
  wf_board (board default_game) ∧ InBounds old ∧ InBounds target ∧ (8 <= 8)%nat
  ∧ ∃ s' evs,
      movePiece 8 old target default_game = Ok (tt, s', evs)
      ∧ wf_board (board s')
      ∧ (valid_codes (board default_game) → valid_codes (board s'))
      ∧ count_cells (piece_of (currentPlayer default_game)) (board s')
        = count_cells (piece_of (currentPlayer default_game)) (board default_game)
      ∧ (count_cells (piece_of (opponent (currentPlayer default_game))) (board s')
         <= count_cells (piece_of (opponent (currentPlayer default_game))) (board default_game)
         <= count_cells (piece_of (opponent (currentPlayer default_game))) (board s') + 1)%nat.
Proof.
  cbv zeta.
  assert (Hold : InBounds {| row := 6; col := 4 |}) by (unfold InBounds; simpl; lia).
  assert (Htgt : InBounds {| row := 4; col := 4 |}) by (unfold InBounds; simpl; lia).
  split; [exact wf_defaultBoard|]. split; [exact Hold|]. split; [exact Htgt|].
  split; [lia|].
  exact (movePiece_pieces 8 default_game _ _ wf_defaultBoard Hold Htgt (le_n 8)).
Defined.

(** ** Loading and copying boards *)

Lemma list8 {A} (l : list A) :
  length l = 8%nat → ∃ a b c d e f g h, l = [a; b; c; d; e; f; g; h].
Proof.
  intros H. do 8 (destruct l as [|? l]; [discriminate|]).
  destruct l; [|discriminate]. by eexists _, _, _, _, _, _, _, _.
Qed.

(** A board of 8 by 8 written out square by square. *)
Ltac explode_board b Hwf :=
  let Hlen := fresh "Hlen" in
  let Hrows := fresh "Hrows" in
  destruct Hwf as [Hlen Hrows];
  destruct (list8 b Hlen) as (?&?&?&?&?&?&?&?&->);
  repeat match goal with
         | H : Forall _ (_ :: _) |- _ =>
             let Hl := fresh "Hl" in
             apply Forall_cons in H as [[Hl _] H];
             destruct (list8 _ Hl) as (?&?&?&?&?&?&?&?&->); clear Hl
         end;
  clear Hlen Hrows.

Lemma loadBoard_run (s : Chess) (newBoard : Board) :
  wf_board (board s) → wf_board newBoard →
  loadBoard newBoard s = Ok (tt, set_board newBoard s, []).
Proof.
  intros Hwf Hnew. destruct s as [d p b]. cbn [board] in *.
  explode_board b Hwf. explode_board newBoard Hnew. reflexivity.
Qed.

Lemma getBoardVector_run (s : Chess) :
  wf_board (board s) → getBoardVector s = Ok (board s).
Proof.
  intros Hwf. destruct s as [d p b]. cbn [board] in *.
  explode_board b Hwf. reflexivity.
Qed.

(** X14.  [loadBoard] replaces the whole board by the matrix it is given
    and touches nothing else, [loadDefaultBoard] does so with the starting
    position, and [getBoardVector] returns the board square for square. *)
Theorem loadBoard_getBoardVector (s : Chess) (newBoard : Board) :
  wf_board (board s) → wf_board newBoard →
  loadBoard newBoard s = Ok (tt, set_board newBoard s, [])
  ∧ loadDefaultBoard s = Ok (tt, set_board defaultBoard s, [])
  ∧ getBoardVector s = Ok (board s)
  ∧ getBoardVector (set_board newBoard s) = Ok newBoard.
Proof.
  intros Hwf Hnew.
  split; [by apply loadBoard_run|].
  split; [apply loadBoard_run; [done|apply wf_defaultBoard]|].
  split; [by apply getBoardVector_run|].
  apply getBoardVector_run. by destruct s.
Qed.

Lemma loadBoard_getBoardVector_witness :
  wf_board (board Chess_init) ∧ wf_board defaultBoard
  ∧ loadBoard defaultBoard Chess_init = Ok (tt, set_board defaultBoard Chess_init, [])
  ∧ loadDefaultBoard Chess_init = Ok (tt, set_board defaultBoard Chess_init, [])
  ∧ getBoardVector Chess_init = Ok (board Chess_init)
  ∧ getBoardVector (set_board defaultBoard Chess_init) = Ok defaultBoard.
Proof.
  assert (Hwf : wf_board (board Chess_init))
    by (split; [reflexivity|repeat constructor; unfold int_cell; lia]).
  split; [exact Hwf|]. split; [exact wf_defaultBoard|].
  exact (loadBoard_getBoardVector Chess_init defaultBoard Hwf wf_defaultBoard).
Defined.

(** ** The puzzle built from a board *)

(** X15.  The constructor from a matrix of 8 by 8 and a list of moves
    returns a puzzle whose board is the matrix, whose solution is the
    list, whose cursor is 0 and whose side to move is WHITE; it plays no
    move, and the puzzle counts as solved exactly when the list is
    empty. *)
Theorem new_ChessPuzzle_board_spec (boardVec : Board) (solMoves : list (Square * Square)) :
  wf_board boardVec →
  ∃ s,
    new_ChessPuzzle_board boardVec solMoves = Ok (tt, s, [set_player WHITE])
    ∧ board (base s) = boardVec
    ∧ solutionMoves s = solMoves
    ∧ currentStep s = 0
    ∧ currentPlayer (base s) = WHITE
    ∧ puzzleElo s = 0
    ∧ usedHint s = false
    ∧ (isSolved s = true ↔ solMoves = []).
Proof.
  intros Hwf. unfold new_ChessPuzzle_board.
  assert (Hsolved :
    (to_size_t 0 >=? Z.of_nat (length solMoves)) = true ↔ solMoves = []).
  { change (to_size_t 0) with 0. rewrite Z.geb_leb, Z.leb_le.
    destruct solMoves; simpl; [done|]. split; [lia|discriminate]. }
  assert (Hcopy :
    for_eachR (seqZ 0 8) (λ r raw,
      for_eachR (seqZ 0 8) (λ c raw,
        line ← vector_at boardVec r;
        x ← vector_at line c;
        board_set raw r c x) raw)
      empty_board = Ok boardVec).
  { pose proof Hwf as Hwf'. explode_board boardVec Hwf'. reflexivity. }
  eassert (Hrun : ChessPuzzle_ctor_board boardVec solMoves ChessPuzzle_init
                  = Ok (tt, _, _)).
  { unfold ChessPuzzle_ctor_board.
    eapply bind_then; [apply liftBase_run, Chess_ctor_run|].
    eapply bind_then; [reflexivity|].
    eapply bind_then; [reflexivity|].
    eapply bind_then; [unfold liftR; rewrite Hcopy; reflexivity|].
    apply liftBase_run. apply loadBoard_run; [|exact Hwf].
    split; [reflexivity|repeat constructor; unfold int_cell; lia]. }
  cbn [app base ChessPuzzle_init Chess_init currentPlayer] in Hrun.
  eexists. split; [exact Hrun|].
  cbn [base board set_base set_board solutionMoves currentStep puzzleElo usedHint
       set_solutionMoves set_currentStep ChessPuzzle_init Chess_init currentPlayer isSolved].
  repeat split; apply Hsolved.
Qed.

Lemma new_ChessPuzzle_board_spec_witness :
  wf_board defaultBoard
  ∧ ∃ s,
      new_ChessPuzzle_board defaultBoard [] = Ok (tt, s, [set_player WHITE])
      ∧ board (base s) = defaultBoard
      ∧ solutionMoves s = []
      ∧ currentStep s = 0
      ∧ currentPlayer (base s) = WHITE
      ∧ puzzleElo s = 0
      ∧ usedHint s = false
      ∧ (isSolved s = true ↔ @nil (Square * Square) = []).
Proof.
  split; [exact wf_defaultBoard|].
  exact (new_ChessPuzzle_board_spec defaultBoard [] wf_defaultBoard).
Defined.

(** ** The cursor of a puzzle *)

Lemma to_size_t_negative i : - 2 ^ 31 <= i < 0 → to_size_t i = i + 2 ^ 64.
Proof.
  intros H. unfold to_size_t.
  rewrite <- (Z.mod_add i 1 (2 ^ 64)) by lia.
  rewrite Z.mod_small; lia.
Qed.

(** X16.  For a cursor that is an [int] and a solution of fewer than 2^63
    moves, [peekNextMove] returns the move under the cursor exactly when
    [isSolved] answers false; on a solved puzzle it reads past the end of
    the vector. *)
Theorem peekNextMove_isSolved (s : ChessPuzzle) :
  - 2 ^ 31 <= currentStep s < 2 ^ 31 →
  Z.of_nat (length (solutionMoves s)) < 2 ^ 63 →
  (isSolved s = false →
     ∃ mv, peekNextMove s = Ok mv
           ∧ solutionMoves s !! Z.to_nat (currentStep s) = Some mv
           ∧ 0 <= currentStep s)
  ∧ (isSolved s = true → peekNextMove s = Err OutOfBounds).
Proof.
  intros Hint Hlen. unfold isSolved, peekNextMove, vector_at.
  destruct (decide (0 <= currentStep s)) as [Hpos|Hneg].
  - rewrite to_size_t_small by lia. split.
    + intros H. apply Z.geb_leb in H || (rewrite Z.geb_leb, Z.leb_gt in H).
      destruct (lookup_lt_is_Some_2 (solutionMoves s) (Z.to_nat (currentStep s)))
        as [mv Hmv]; [lia|].
      exists mv. by rewrite Hmv.
    + rewrite Z.geb_leb, Z.leb_le. intros H.
      rewrite (proj2 (lookup_ge_None _ _)) by lia. reflexivity.
  - rewrite to_size_t_negative by lia. split.
    + rewrite Z.geb_leb, Z.leb_gt. lia.
    + intros _. rewrite (proj2 (lookup_ge_None _ _)) by lia. reflexivity.
Qed.

Lemma peekNextMove_isSolved_witness :
  - 2 ^ 31 <= currentStep scenario_puzzle < 2 ^ 31
  ∧ Z.of_nat (length (solutionMoves scenario_puzzle)) < 2 ^ 63
  ∧ (isSolved scenario_puzzle = false →
       ∃ mv, peekNextMove scenario_puzzle = Ok mv
             ∧ solutionMoves scenario_puzzle !! Z.to_nat (currentStep scenario_puzzle)
               = Some mv
             ∧ 0 <= currentStep scenario_puzzle)
  ∧ (isSolved scenario_puzzle = true → peekNextMove scenario_puzzle = Err OutOfBounds).
Proof.
  assert (H1 : - 2 ^ 31 <= currentStep scenario_puzzle < 2 ^ 31) by (simpl; lia).
  assert (H2 : Z.of_nat (length (solutionMoves scenario_puzzle)) < 2 ^ 63)
    by (simpl; lia).
  split; [exact H1|]. split; [exact H2|].
  exact (peekNextMove_isSolved scenario_puzzle H1 H2).
Defined.

(** ** Hints *)

Lemma makeGuess_accept s f t :
  0 <= currentStep s < 2 ^ 31 - 1 →
  solutionMoves s !! Z.to_nat (currentStep s) = Some (f, t) →
  wf_board (board (base s)) → InBounds f → InBounds t →
  ∃ s' evs,
    makeGuess f t s = Ok (true, s', evs)
    ∧ currentStep s' = currentStep s + 1
    ∧ solutionMoves s' = solutionMoves s
    ∧ usedHint s' = usedHint s
    ∧ puzzleElo s' = puzzleElo s
    ∧ currentPlayer (base s') = opponent (currentPlayer (base s))
    ∧ ∃ o, cell (board (base s)) (row f) (col f) = Some o
           ∧ board (base s') = moved (board (base s)) f t o.
Proof.
  intros Hstep Hmv Hwf Hf Ht.
  destruct (proj2 (makeGuess_run s f t Hstep) Hmv Hwf Hf Ht)
    as (c & evs & Hmove & _ & Hrun).
  destruct (cell_wf _ _ _ Hwf (proj1 Ht) (proj2 Ht)) as [tv Htv].
  destruct (cell_wf _ _ _ Hwf (proj1 Hf) (proj2 Hf)) as [o Ho].
  rewrite (movePieceUnconditionally_run _ _ _ _ _ Htv Ho) in Hmove.
  injection Hmove as <- <-.
  eexists _, _. split; [exact Hrun|]. cbn. repeat split. by exists o.
Qed.

(** X17.  A hint request marks the puzzle as hinted and changes nothing
    else.  On an unsolved puzzle [requestHintMove] emits the four
    coordinates of the move under the cursor and [requestHint] the two of
    its origin, on a solved one neither emits anything; and the guess made
    of the squares of a hinted move on a board of 8 by 8 is accepted. *)
Theorem requestHintMove_accepted (s : ChessPuzzle) :
  0 <= currentStep s < 2 ^ 31 - 1 →
  ∃ hints,
    requestHintMove s = Ok (set_usedHint true s, hints)
    ∧ requestHint s
      = Ok (set_usedHint true s,
            match hints with
            | hintMoveAvailable fr fc _ _ :: _ => [hintAvailable fr fc]
            | _ => []
            end)
    ∧ (isSolved s = true → hints = [])
    ∧ (isSolved s = false →
       ∃ f t, solutionMoves s !! Z.to_nat (currentStep s) = Some (f, t)
              ∧ hints = [hintMoveAvailable (row f) (col f) (row t) (col t)])
    ∧ (∀ fr fc tr tc,
         hints = [hintMoveAvailable fr fc tr tc] →
         wf_board (board (base s)) →
         InBounds {| row := fr; col := fc |} → InBounds {| row := tr; col := tc |} →
         ∃ s' evs,
           makeGuess {| row := fr; col := fc |} {| row := tr; col := tc |}
             (set_usedHint true s) = Ok (true, s', evs)
           ∧ currentStep s' = currentStep s + 1
           ∧ usedHint s' = true).
Proof.
  intros Hstep. unfold requestHintMove, requestHint, isSolved.
  cbn [currentStep solutionMoves set_usedHint].
  rewrite to_size_t_small by lia.
  destruct (Z.ltb_spec (currentStep s) (Z.of_nat (length (solutionMoves s)))) as [Hlt|Hge].
  - destruct (lookup_lt_is_Some_2 (solutionMoves s) (Z.to_nat (currentStep s)))
      as [[f t] Hmv]; [lia|].
    assert (Hat : vector_at (solutionMoves s) (currentStep s) = Ok (f, t))
      by (apply vector_at_lookup; [lia|done]).
    rewrite Hat. cbn [mbind result_bind fst snd].
    eexists. split; [reflexivity|]. split; [reflexivity|].
    split; [rewrite Z.geb_leb, Z.leb_le; lia|].
    split; [intros _; by exists f, t|].
    intros fr fc tr tc [= <- <- <- <-] Hwf Hf Ht.
    destruct (makeGuess_accept (set_usedHint true s) f t) as (s' & evs & Hg & Hc & _ & Hu & _);
      try done; try (by destruct f); try (by destruct t).
    exists s', evs. destruct f, t. by repeat split.
  - eexists. split; [reflexivity|]. split; [reflexivity|].
    split; [done|]. split; [rewrite Z.geb_leb, Z.leb_gt; lia|].
    intros ???? [=].
Qed.

Lemma requestHintMove_accepted_witness :
  0 <= currentStep scenario_puzzle < 2 ^ 31 - 1
  ∧ requestHintMove scenario_puzzle
    = Ok (set_usedHint true scenario_puzzle, [hintMoveAvailable 0 6 1 7])
  ∧ ∃ hints,
      requestHintMove scenario_puzzle = Ok (set_usedHint true scenario_puzzle, hints)
      ∧ requestHint scenario_puzzle
        = Ok (set_usedHint true scenario_puzzle,
              match hints with
              | hintMoveAvailable fr fc _ _ :: _ => [hintAvailable fr fc]
              | _ => []
              end)
      ∧ (isSolved scenario_puzzle = true → hints = [])
      ∧ (isSolved scenario_puzzle = false →
         ∃ f t, solutionMoves scenario_puzzle !! Z.to_nat (currentStep scenario_puzzle)
                = Some (f, t)
                ∧ hints = [hintMoveAvailable (row f) (col f) (row t) (col t)])
      ∧ (∀ fr fc tr tc,
           hints = [hintMoveAvailable fr fc tr tc] →
           wf_board (board (base scenario_puzzle)) →
           InBounds {| row := fr; col := fc |} → InBounds {| row := tr; col := tc |} →
           ∃ s' evs,
             makeGuess {| row := fr; col := fc |} {| row := tr; col := tc |}
               (set_usedHint true scenario_puzzle) = Ok (true, s', evs)
             ∧ currentStep s' = currentStep scenario_puzzle + 1
             ∧ usedHint s' = true).
Proof.
  assert (Hstep : 0 <= currentStep scenario_puzzle < 2 ^ 31 - 1) by (simpl; lia).
  split; [exact Hstep|]. split; [reflexivity|].
  exact (requestHintMove_accepted scenario_puzzle Hstep).
Defined.

(** ** The cursor stays inside the solution *)

(** X18.  From a cursor between 0 and the length of the solution, on a
    board of 8 by 8 and with the squares of the solution on the board:
    [makeGuess] returns whatever it is asked, leaves the solution as it is
    and the cursor between 0 and its length, advancing it by one if it
    answers true and not at all if it answers false; [makeOpponentMove] on
    an unsolved puzzle returns and advances the cursor by one, which keeps
    it in that range.  [makeOpponentMove] has no guard of its own: on a
    solved puzzle it reads the solution at its length, past the end of the
    vector, so that there the range is no longer kept by the code. *)
Theorem cursor_invariant (s : ChessPuzzle) :
  0 <= currentStep s <= Z.of_nat (length (solutionMoves s)) →
  currentStep s < 2 ^ 31 - 1 →
  wf_board (board (base s)) →
  Forall (λ mv, InBounds mv.1 ∧ InBounds mv.2) (solutionMoves s) →
  (∀ f t, ∃ r s' evs,
     makeGuess f t s = Ok (r, s', evs)
     ∧ 0 <= currentStep s' <= Z.of_nat (length (solutionMoves s'))
     ∧ solutionMoves s' = solutionMoves s
     ∧ currentStep s' = currentStep s + (if r then 1 else 0)
     ∧ wf_board (board (base s')))
  ∧ (currentStep s < Z.of_nat (length (solutionMoves s)) →
     ∃ s' evs,
       makeOpponentMove s = Ok (tt, s', evs)
       ∧ 0 <= currentStep s' <= Z.of_nat (length (solutionMoves s'))
       ∧ solutionMoves s' = solutionMoves s
       ∧ currentStep s' = currentStep s + 1
       ∧ wf_board (board (base s')))
  ∧ (currentStep s = Z.of_nat (length (solutionMoves s)) →
     makeOpponentMove s = Err OutOfBounds).
Proof.
  intros Hinv Hint Hwf Hsquares.
  assert (Hstep : 0 <= currentStep s < 2 ^ 31 - 1) by lia.
  split; [|split].
  - intros f t.
    destruct (makeGuess_run s f t Hstep) as [Hreject Haccept]. cbv zeta in *.
    assert (Hfalse : makeGuess f t s = Ok (false, s, []) →
      ∃ r s' evs,
        makeGuess f t s = Ok (r, s', evs)
        ∧ 0 <= currentStep s' <= Z.of_nat (length (solutionMoves s'))
        ∧ solutionMoves s' = solutionMoves s
        ∧ currentStep s' = currentStep s + (if r then 1 else 0)
        ∧ wf_board (board (base s'))).
    { intros Hrun. exists false, s, []. split; [exact Hrun|].
      split; [done|]. split; [done|]. split; [lia|done]. }
    destruct (solutionMoves s !! Z.to_nat (currentStep s)) as [[ef et]|] eqn:Hexp.
    + destruct (Square_eqb f ef && Square_eqb t et) eqn:Heq.
      * apply andb_true_iff in Heq as [->%Square_eqb_eq ->%Square_eqb_eq].
        pose proof (Forall_lookup_1 _ _ _ _ Hsquares Hexp) as [Hf Ht].
        cbn [fst snd] in Hf, Ht.
        destruct (makeGuess_accept s ef et Hstep Hexp Hwf Hf Ht)
          as (s' & evs & Hrun & Hcursor & Hmoves & _ & _ & _ & o & Ho & Hboard).
        apply lookup_lt_Some in Hexp.
        exists true, s', evs. split; [exact Hrun|].
        rewrite Hmoves, Hcursor, Hboard.
        split; [lia|]. split; [done|]. split; [done|].
        apply wf_moved; [done|]. by apply (cell_int _ _ _ _ Hwf Ho).
      * apply Hfalse, Hreject. right. intros [= <- <-].
        by rewrite !Square_eqb_refl in Heq.
    + apply Hfalse, Hreject. right. discriminate.
  - intros Hlt.
    destruct (lookup_lt_is_Some_2 (solutionMoves s) (Z.to_nat (currentStep s)))
      as [[f t] Hmv]; [lia|].
    pose proof (Forall_lookup_1 _ _ _ _ Hsquares Hmv) as [Hf Ht].
    cbn [fst snd] in Hf, Ht.
    destruct (cell_wf _ _ _ Hwf (proj1 Ht) (proj2 Ht)) as [tv Htv].
    destruct (cell_wf _ _ _ Hwf (proj1 Hf) (proj2 Hf)) as [o Ho].
    eexists _, _. split; [exact (makeOpponentMove_run s f t tv o Hstep Hmv Htv Ho)|].
    cbn [currentStep solutionMoves base board set_currentStep set_base].
    split; [lia|]. split; [done|]. split; [done|].
    apply wf_moved; [done|]. by apply (cell_int _ _ _ _ Hwf Ho).
  - intros Hend. unfold makeOpponentMove.
    rewrite bind_run. cbn [gets]. rewrite bind_run. cbn [gets].
    rewrite bind_run. unfold liftR, vector_at.
    rewrite to_size_t_small by lia.
    rewrite lookup_ge_None_2 by lia. reflexivity.
Qed.

Lemma cursor_invariant_witness :
  0 <= currentStep scenario_puzzle <= Z.of_nat (length (solutionMoves scenario_puzzle))
  ∧ currentStep scenario_puzzle < 2 ^ 31 - 1
  ∧ wf_board (board (base scenario_puzzle))
  ∧ Forall (λ mv, InBounds mv.1 ∧ InBounds mv.2) (solutionMoves scenario_puzzle)
  ∧ (∀ f t, ∃ r s' evs,
       makeGuess f t scenario_puzzle = Ok (r, s', evs)
       ∧ 0 <= currentStep s' <= Z.of_nat (length (solutionMoves s'))
       ∧ solutionMoves s' = solutionMoves scenario_puzzle
       ∧ currentStep s' = currentStep scenario_puzzle + (if r then 1 else 0)
       ∧ wf_board (board (base s')))
  ∧ (currentStep scenario_puzzle < Z.of_nat (length (solutionMoves scenario_puzzle)) →
     ∃ s' evs,
       makeOpponentMove scenario_puzzle = Ok (tt, s', evs)
       ∧ 0 <= currentStep s' <= Z.of_nat (length (solutionMoves s'))
       ∧ solutionMoves s' = solutionMoves scenario_puzzle
       ∧ currentStep s' = currentStep scenario_puzzle + 1
       ∧ wf_board (board (base s')))
  ∧ (currentStep scenario_puzzle = Z.of_nat (length (solutionMoves scenario_puzzle)) →
     makeOpponentMove scenario_puzzle = Err OutOfBounds).
Proof.
  assert (H1 : 0 <= currentStep scenario_puzzle
               <= Z.of_nat (length (solutionMoves scenario_puzzle))) by (simpl; lia).
  assert (H2 : currentStep scenario_puzzle < 2 ^ 31 - 1) by (simpl; lia).
  assert (H3 : wf_board (board (base scenario_puzzle))).
  { split; [reflexivity|]. repeat constructor; unfold int_cell; simpl; lia. }
  assert (H4 : Forall (λ mv, InBounds mv.1 ∧ InBounds mv.2)
                 (solutionMoves scenario_puzzle)).
  { repeat constructor; simpl; lia. }
  split; [exact H1|]. split; [exact H2|]. split; [exact H3|]. split; [exact H4|].
  exact (cursor_invariant scenario_puzzle H1 H2 H3 H4).
Defined.

(** The second guess that comes before the timer of the first has fired:
    on a record of three moves, the construction plays move 0, the guess
    of move 1 registers the reply, the guess of move 2 is accepted in its
    place and ends the puzzle, and the reply, when its timer fires, finds
    the cursor at the length of the solution and reads past the end. *)
Example guess_twice_before_reply :
  let g8 := {| row := 0; col := 6 |} in
  let h7 := {| row := 1; col := 7 |} in
  let a8 := {| row := 0; col := 0 |} in
  let a7 := {| row := 1; col := 0 |} in
  ∃ s evs s1 evs1 s2 evs2,
    new_ChessPuzzle
      "id,6k1/8/8/8/8/8/8/R5K1 w - - 0 1,a1a8 g8h7 a8a7,1500,75,90,100,mate,url"
    = Ok (tt, s, evs)
    ∧ currentStep s = 1
    ∧ makeGuess g8 h7 s = Ok (true, s1, evs1)
    ∧ last evs1 = Some (singleShot 1000 slot_makeOpponentMove)
    ∧ makeGuess a8 a7 s1 = Ok (true, s2, evs2)
    ∧ last evs2 = Some beatPuzzle
    ∧ currentStep s2 = Z.of_nat (length (solutionMoves s2))
    ∧ makeOpponentMove s2 = Err OutOfBounds.
Proof.
  cbv zeta. eexists _, _, _, _, _, _.
  split; [vm_compute; reflexivity|]. split; [reflexivity|].
  split; [vm_compute; reflexivity|]. split; [reflexivity|].
  split; [vm_compute; reflexivity|]. split; [reflexivity|].
  split; reflexivity.
Qed.

(** X19.  A correct guess that does not finish the puzzle ends by
    registering the timer of the opponent's reply; when that reply runs
    next, the cursor has advanced by two, both scripted moves have been
    applied one after the other, and the side to move is the one that
    guessed. *)
Theorem guess_then_reply (s : ChessPuzzle) (f t f2 t2 : Square) :
  0 <= currentStep s < 2 ^ 31 - 2 →
  solutionMoves s !! Z.to_nat (currentStep s) = Some (f, t) →
  solutionMoves s !! Z.to_nat (currentStep s + 1) = Some (f2, t2) →
  wf_board (board (base s)) →
  InBounds f → InBounds t → InBounds f2 → InBounds t2 →
  ∃ s1 evs1 s2 evs2 o o2,
    makeGuess f t s = Ok (true, s1, evs1)
    ∧ last evs1 = Some (singleShot 1000 slot_makeOpponentMove)
    ∧ makeOpponentMove s1 = Ok (tt, s2, evs2)
    ∧ currentStep s2 = currentStep s + 2
    ∧ currentPlayer (base s2) = currentPlayer (base s)
    ∧ cell (board (base s)) (row f) (col f) = Some o
    ∧ cell (moved (board (base s)) f t o) (row f2) (col f2) = Some o2
    ∧ board (base s2) = moved (moved (board (base s)) f t o) f2 t2 o2.
Proof.
  intros Hstep Hmv Hmv2 Hwf Hf Ht Hf2 Ht2.
  destruct (proj2 (makeGuess_run s f t ltac:(lia)) Hmv Hwf Hf Ht)
    as (c & evs & Hmove & _ & Hrun).
  destruct (cell_wf _ _ _ Hwf (proj1 Ht) (proj2 Ht)) as [tv Htv].
  destruct (cell_wf _ _ _ Hwf (proj1 Hf) (proj2 Hf)) as [o Ho].
  rewrite (movePieceUnconditionally_run _ _ _ _ _ Htv Ho) in Hmove.
  injection Hmove as <- <-.
  assert (Hnotlast :
    (currentStep s + 1 =? Z.of_nat (length (solutionMoves s))) = false).
  { apply lookup_lt_Some in Hmv2. bool_lia. }
  rewrite Hnotlast in Hrun.
  assert (Hwf1 : wf_board (moved (board (base s)) f t o)).
  { apply wf_moved; [done|]. by apply (cell_int _ _ _ _ Hwf Ho). }
  destruct (cell_wf _ _ _ Hwf1 (proj1 Ht2) (proj2 Ht2)) as [tv2 Htv2].
  destruct (cell_wf _ _ _ Hwf1 (proj1 Hf2) (proj2 Hf2)) as [o2 Ho2].
  eexists _, _, _, _, o, o2. split; [exact Hrun|].
  split; [apply last_snoc|].
  split.
  { apply (makeOpponentMove_run _ f2 t2 tv2 o2); cbn; try done; lia. }
  cbn. repeat split; try done; try lia. by destruct (currentPlayer (base s)).
Qed.

Lemma guess_then_reply_witness :
  let s := set_currentStep 0
             (set_base (set_board (fen_board scenario_ranks)
                          (set_currentPlayer WHITE (base scenario_puzzle)))
                scenario_puzzle) in
  let a1 := {| row := 7; col := 0 |} in
  let a8 := {| row := 0; col := 0 |} in
  let g8 := {| row := 0; col := 6 |} in
  let h7 := {| row := 1; col := 7 |} in
  0 <= currentStep s < 2 ^ 31 - 2
  ∧ solutionMoves s !! Z.to_nat (currentStep s) = Some (a1, a8)
  ∧ solutionMoves s !! Z.to_nat (currentStep s + 1) = Some (g8, h7)
  ∧ wf_board (board (base s))
  ∧ InBounds a1 ∧ InBounds a8 ∧ InBounds g8 ∧ InBounds h7
  ∧ ∃ s1 evs1 s2 evs2 o o2,
      makeGuess a1 a8 s = Ok (true, s1, evs1)
      ∧ last evs1 = Some (singleShot 1000 slot_makeOpponentMove)
      ∧ makeOpponentMove s1 = Ok (tt, s2, evs2)
      ∧ currentStep s2 = currentStep s + 2
      ∧ currentPlayer (base s2) = currentPlayer (base s)
      ∧ cell (board (base s)) (row a1) (col a1) = Some o
      ∧ cell (moved (board (base s)) a1 a8 o) (row g8) (col g8) = Some o2
      ∧ board (base s2) = moved (moved (board (base s)) a1 a8 o) g8 h7 o2.
Proof.
  cbv zeta.
  set (s := set_currentStep 0
              (set_base (set_board (fen_board scenario_ranks)
                           (set_currentPlayer WHITE (base scenario_puzzle)))
                 scenario_puzzle)).
  assert (H0 : 0 <= currentStep s < 2 ^ 31 - 2) by (simpl; lia).
  assert (Hwf : wf_board (board (base s)))
    by (split; [reflexivity|repeat constructor; unfold int_cell; simpl; lia]).
  assert (B1 : InBounds {| row := 7; col := 0 |}) by (unfold InBounds; simpl; lia).
  assert (B2 : InBounds {| row := 0; col := 0 |}) by (unfold InBounds; simpl; lia).
  assert (B3 : InBounds {| row := 0; col := 6 |}) by (unfold InBounds; simpl; lia).
  assert (B4 : InBounds {| row := 1; col := 7 |}) by (unfold InBounds; simpl; lia).
  split; [exact H0|]. split; [reflexivity|]. split; [reflexivity|].
  split; [exact Hwf|]. split; [exact B1|]. split; [exact B2|].
  split; [exact B3|]. split; [exact B4|].
  exact (guess_then_reply s _ _ _ _ H0 eq_refl eq_refl Hwf B1 B2 B3 B4).
Defined.

(** ** Splitting a record *)

Lemma append_cons_r (s : string) (c : ascii) (t : string) :
  (s +:+ String c EmptyString) +:+ t = s +:+ String c t.
Proof.
  induction s as [|a s IH]; [reflexivity|].
  change ((String a s +:+ String c EmptyString) +:+ t)
    with (String a ((s +:+ String c EmptyString) +:+ t)).
  change (String a s +:+ String c t) with (String a (s +:+ String c t)).
  by rewrite IH.
Qed.

Lemma no_delim_app d s t : no_delim d s → no_delim d t → no_delim d (s +:+ t).
Proof.
  unfold no_delim. intros Hs Ht. induction s as [|a s IH]; [done|].
  change (String a s +:+ t) with (String a (s +:+ t)).
  cbn [string_forall] in *. apply andb_true_iff in Hs as [Ha Hs].
  rewrite Ha. by apply IH.
Qed.

Lemma split_from_tokens d s : ∀ item,
  no_delim d item → Forall (no_delim d) (split_from item s d).
Proof.
  induction s as [|c s IH]; intros item Hitem; cbn [split_from].
  - destruct item; by repeat constructor.
  - destruct (Ascii.eqb c d) eqn:Hc.
    + constructor; [done|]. by apply IH.
    + apply IH. apply no_delim_app; [done|].
      unfold no_delim. cbn. by rewrite Hc.
Qed.

Lemma split_from_token d t : ∀ item rest,
  no_delim d t →
  split_from item (t +:+ String d rest) d
  = (item +:+ t) :: split_from EmptyString rest d.
Proof.
  induction t as [|c t IH]; intros item rest Ht.
  - change (EmptyString +:+ String d rest) with (String d rest).
    cbn [split_from]. rewrite Ascii.eqb_refl. by rewrite append_empty_r.
  - unfold no_delim in Ht. cbn [string_forall] in Ht.
    apply andb_true_iff in Ht as [Hc Ht]. apply negb_true_iff in Hc.
    change (String c t +:+ String d rest) with (String c (t +:+ String d rest)).
    cbn [split_from]. rewrite Hc, IH by done. by rewrite append_cons_r.
Qed.

Lemma split_from_last d t : ∀ item,
  no_delim d t →
  split_from item t d
  = match item +:+ t with EmptyString => [] | _ => [item +:+ t] end.
Proof.
  induction t as [|c t IH]; intros item Ht.
  - cbn [split_from]. rewrite append_empty_r. reflexivity.
  - unfold no_delim in Ht. cbn [string_forall] in Ht.
    apply andb_true_iff in Ht as [Hc Ht]. apply negb_true_iff in Hc.
    cbn [split_from]. rewrite Hc, IH by done. by rewrite append_cons_r.
Qed.

(** X20.  No token that [split] returns contains the delimiter. *)
Theorem split_tokens (s : string) (d : ascii) : Forall (no_delim d) (split s d).
Proof. apply split_from_tokens. reflexivity. Qed.

(** X21.  Joining tokens with the delimiter and splitting again gives the
    tokens back, provided that none of them contains the delimiter and the
    last one is not empty: an empty last token is the one thing that
    [split] loses. *)
Theorem split_concat (toks : list string) (d : ascii) :
  Forall (no_delim d) toks →
  last toks ≠ Some EmptyString →
  split (String.concat (String d EmptyString) toks) d = toks.
Proof.
  unfold split. induction toks as [|t toks IH]; intros Hnd Hlast; [reflexivity|].
  apply Forall_cons in Hnd as [Ht Hnd].
  destruct toks as [|t2 toks].
  - cbn [String.concat]. rewrite split_from_last by done.
    change (EmptyString +:+ t) with t. destruct t; [done|reflexivity].
  - change (String.concat (String d EmptyString) (t :: t2 :: toks))
      with (t +:+ String d (String.concat (String d EmptyString) (t2 :: toks))).
    rewrite split_from_token by done. change (EmptyString +:+ t) with t.
    f_equal. apply IH; [done|]. by rewrite last_cons_cons in Hlast.
Qed.

Lemma split_concat_witness :
  Forall (no_delim ",") ["id"; ""; "a1a8 g8h7"]
  ∧ last ["id"; ""; "a1a8 g8h7"] ≠ Some EmptyString
  ∧ split (String.concat "," ["id"; ""; "a1a8 g8h7"]) "," = ["id"; ""; "a1a8 g8h7"].
Proof.
  assert (H1 : Forall (no_delim ",") ["id"; EmptyString; "a1a8 g8h7"])
    by (repeat constructor).
  assert (H2 : last ["id"; EmptyString; "a1a8 g8h7"] ≠ Some EmptyString)
    by discriminate.
  split; [exact H1|]. split; [exact H2|].
  exact (split_concat _ "," H1 H2).
Defined.

Lemma split_from_nil d s item : split_from item s d = [] → item = EmptyString ∧ s = EmptyString.
Proof.
  revert item. induction s as [|c s IH]; intros item; cbn [split_from].
  - by destruct item.
  - destruct (Ascii.eqb c d); [discriminate|].
    intros H. apply IH in H as [H _]. by destruct item.
Qed.

Lemma append_assoc_string (a b c : string) : (a +:+ b) +:+ c = a +:+ (b +:+ c).
Proof.
  induction a as [|x a IH]; [reflexivity|].
  change ((String x a +:+ b) +:+ c) with (String x ((a +:+ b) +:+ c)).
  change (String x a +:+ (b +:+ c)) with (String x (a +:+ (b +:+ c))).
  by rewrite IH.
Qed.

Lemma split_from_concat d s : ∀ item,
  String.concat (String d EmptyString) (split_from item s d)
    +:+ (if ends_with d s then String d EmptyString else EmptyString)
  = item +:+ s.
Proof.
  induction s as [|c s IH]; intros item; cbn [split_from].
  - destruct item; cbn [String.concat ends_with]; by rewrite ?append_empty_r.
  - destruct (Ascii.eqb c d) eqn:Hc.
    + apply Ascii.eqb_eq in Hc as ->.
      specialize (IH EmptyString). change (EmptyString +:+ s) with s in IH.
      destruct (split_from EmptyString s d) as [|t2 toks] eqn:Hsplit.
      * apply split_from_nil in Hsplit as [_ ->].
        cbn [String.concat ends_with]. by rewrite Ascii.eqb_refl.
      * assert (Hends : ends_with d (String d s) = ends_with d s).
        { destruct s; [discriminate Hsplit|reflexivity]. }
        rewrite Hends.
        change (String.concat (String d EmptyString) (item :: t2 :: toks))
          with (item +:+ String d (String.concat (String d EmptyString) (t2 :: toks))).
        rewrite append_assoc_string.
        change (String d (String.concat (String d EmptyString) (t2 :: toks))
                +:+ (if ends_with d s then String d EmptyString else EmptyString))
          with (String d (String.concat (String d EmptyString) (t2 :: toks)
                +:+ (if ends_with d s then String d EmptyString else EmptyString))).
        by rewrite IH.
    + assert (Hends : ends_with d (String c s) = ends_with d s).
      { destruct s; [cbn; exact Hc|reflexivity]. }
      rewrite Hends, IH. apply append_cons_r.
Qed.

(** X22.  [split] loses nothing but a final delimiter: its tokens joined
    with the delimiter, followed by the delimiter if the input ended with
    one, are the input. *)
Theorem concat_split (s : string) (d : ascii) :
  String.concat (String d EmptyString) (split s d)
    +:+ (if ends_with d s then String d EmptyString else EmptyString)
  = s.
Proof. apply (split_from_concat d s EmptyString). Qed.

Lemma append_cons_match {A} (item : string) (c : ascii) (t : string) (x y : A) :
  match item +:+ String c t with EmptyString => x | String _ _ => y end = y.
Proof. by destruct item. Qed.

Lemma split_from_length d s : ∀ item,
  length (split_from item s d)
  = (string_count d s
     + (if ends_with d s then 0
        else match item +:+ s with EmptyString => 0 | _ => 1 end))%nat.
Proof.
  induction s as [|c s IH]; intros item; cbn [split_from string_count].
  - rewrite append_empty_r. by destruct item.
  - destruct (Ascii.eqb c d) eqn:Hc.
    + rewrite length_cons, IH. change (EmptyString +:+ s) with s.
      destruct s as [|c2 s]; [cbn; by rewrite Hc|].
      change (ends_with d (String c (String c2 s))) with (ends_with d (String c2 s)).
      rewrite (append_cons_match item c). destruct (ends_with d (String c2 s)); lia.
    + rewrite IH, append_cons_r.
      assert (Hends : ends_with d (String c s) = ends_with d s).
      { destruct s; [cbn; exact Hc|reflexivity]. }
      rewrite Hends. reflexivity.
Qed.

(** X23.  [split] returns one token for every delimiter in the input, and
    one more when the input is not empty and does not end with the
    delimiter. *)
Theorem split_length (s : string) (d : ascii) :
  length (split s d)
  = (string_count d s
     + (if ends_with d s then 0 else match s with EmptyString => 0 | _ => 1 end))%nat.
Proof. apply (split_from_length d s EmptyString). Qed.

Lemma new_ChessPuzzle_inert (PGN : string) :
  (length (split PGN ",") < 9)%nat →
  new_ChessPuzzle PGN
  = Ok (tt, set_base (set_debugging true Chess_init) ChessPuzzle_init,
        [set_player WHITE]).
Proof.
  intros Hlen. unfold new_ChessPuzzle, ChessPuzzle_ctor.
  apply Nat.ltb_lt in Hlen.
  rewrite !bind_run. cbn [liftBase Chess_ctor modify].
  rewrite Hlen. reflexivity.
Qed.

(** X24.  A record with fewer than 8 commas, for instance one of exactly 8
    fields, splits into fewer than 9 tokens: the constructor leaves the
    puzzle with an empty board, an empty solution and the cursor at 0,
    which [isSolved] reports as solved. *)
Theorem new_ChessPuzzle_few_commas (PGN : string) :
  (string_count "," PGN < 8)%nat →
  ∃ s,
    new_ChessPuzzle PGN = Ok (tt, s, [set_player WHITE])
    ∧ board (base s) = empty_board
    ∧ solutionMoves s = []
    ∧ currentStep s = 0
    ∧ isSolved s = true
    ∧ peekNextMove s = Err OutOfBounds.
Proof.
  intros Hcount. eexists. split.
  - apply new_ChessPuzzle_inert. unfold split. rewrite split_from_length.
    change (EmptyString +:+ PGN) with PGN.
    destruct (ends_with "," PGN); [lia|]. destruct PGN; lia.
  - by repeat split.
Qed.

Lemma new_ChessPuzzle_few_commas_witness :
  (string_count "," "id,6k1/8/8/8/8/8/8/R5K1 w - - 0 1,a1a8 g8h7,1500,75,90,100,mate" < 8)%nat
  ∧ ∃ s,
      new_ChessPuzzle "id,6k1/8/8/8/8/8/8/R5K1 w - - 0 1,a1a8 g8h7,1500,75,90,100,mate"
        = Ok (tt, s, [set_player WHITE])
      ∧ board (base s) = empty_board
      ∧ solutionMoves s = []
      ∧ currentStep s = 0
      ∧ isSolved s = true
      ∧ peekNextMove s = Err OutOfBounds.
Proof.
  assert (H : (string_count ","
                 "id,6k1/8/8/8/8/8/8/R5K1 w - - 0 1,a1a8 g8h7,1500,75,90,100,mate" < 8)%nat)
    by (vm_compute; lia).
  split; [exact H|].
  exact (new_ChessPuzzle_few_commas _ H).
Defined.

(** ** Reading a FEN: what any input keeps, and what faults *)

Lemma toPiece_range c : -6 <= toPiece c <= 6.
Proof.
  unfold toPiece.
  repeat match goal with
         | |- context [Ascii.eqb c ?x] => destruct (Ascii.eqb c x); [simpl; lia|]
         end.
  lia.
Qed.

Lemma write_at_inv r c v s s' evs :
  write_at r c v s = Ok (tt, s', evs) →
  ∃ x, cell (board s) r c = Some x ∧ s' = set_board (upd (board s) r c v) s ∧ evs = [].
Proof.
  unfold write_at. destruct (cell (board s) r c) as [x|] eqn:Hx.
  - rewrite (board_set_cell _ _ _ _ _ Hx). intros [= <- <-]. by exists x.
  - by rewrite (board_set_oob _ _ _ _ Hx).
Qed.

Lemma loadFEN_loop_keeps str : ∀ row col s s' evs,
  wf_board (board s) →
  loadFEN_loop str row col s = Ok (tt, s', evs) →
  wf_board (board s')
  ∧ (valid_codes (board s) → valid_codes (board s'))
  ∧ currentPlayer s' = currentPlayer s
  ∧ debugging s' = debugging s
  ∧ evs = [].
Proof.
  induction str as [|c str IH]; intros row col s s' evs Hwf; cbn [loadFEN_loop].
  - intros [= <- <-]. split; [exact Hwf|]. split; [tauto|]. by repeat split.
  - destruct (Ascii.eqb c "/"); [by apply IH|].
    destruct (isdigit (char_code c)); [by apply IH|].
    rewrite bind_run.
    destruct (write_at row col (toPiece c) s) as [[[[] s1] e1]|e] eqn:Hw; [|discriminate].
    apply write_at_inv in Hw as (x & Hx & -> & ->).
    destruct (loadFEN_loop str row (col + 1) _) as [[[[] s2] e2]|e] eqn:Hrest;
      [|discriminate].
    intros [= <- <-].
    apply IH in Hrest as (H1 & H2 & H3 & H4 & ->).
    + split; [exact H1|]. split; [|by repeat split].
      intros Hv. apply H2. cbn [board set_board].
      apply valid_codes_upd; [done|apply toPiece_range].
    + cbn [board set_board]. apply wf_upd; [done|apply toPiece_int].
Qed.

(** X25.  Whatever text [loadFEN] is given, if it returns then the board
    is still 8 by 8, a board of piece codes is still one, nothing has been
    emitted, and BLACK is to move exactly when the second space-separated
    field is the single letter b; any other field makes WHITE to move. *)
Theorem loadFEN_keeps (FEN : string) (s s' : Chess) (evs : list Effect) :
  wf_board (board s) →
  loadFEN FEN s = Ok (tt, s', evs) →
  wf_board (board s')
  ∧ (valid_codes (board s) → valid_codes (board s'))
  ∧ evs = []
  ∧ (currentPlayer s' = BLACK ↔ split FEN " " !! 1%nat = Some "b")
  ∧ (currentPlayer s' = WHITE ↔ split FEN " " !! 1%nat ≠ Some "b").
Proof.
  intros Hwf. unfold loadFEN.
  destruct (split FEN " ") as [|placement [|colour tail]]; try discriminate.
  rewrite bind_run, vector_at_0. cbn [liftR].
  rewrite bind_run, vector_at_1. cbn [liftR].
  rewrite bind_run.
  destruct (loadFEN_loop placement 0 0 s) as [[[[] s1] e1]|e] eqn:Hloop; [|discriminate].
  apply (loadFEN_loop_keeps _ _ _ _ _ _ Hwf) in Hloop as (H1 & H2 & H3 & H4 & ->).
  cbn [lookup list_lookup].
  destruct (String.eqb_spec colour "b") as [->|Hne]; cbn [modify app];
    intros [= <- <-]; cbn [board currentPlayer set_currentPlayer];
    (split; [exact H1|]); (split; [exact H2|]); (split; [reflexivity|]).
  - split; [done|]. split; [discriminate|]. intros E. by destruct E.
  - split.
    + split; [discriminate|]. intros [= E]. done.
    + split; [|done]. intros _ [= E]. done.
Qed.

Lemma loadFEN_keeps_witness :
  wf_board (board Chess_init)
  ∧ loadFEN "6k1/8/8/8/8/8/8/R5K1 b - - 0 1" Chess_init
    = Ok (tt, {| debugging := false; currentPlayer := BLACK;
                 board := fen_board scenario_ranks |}, [])
  ∧ wf_board (fen_board scenario_ranks)
  ∧ (valid_codes (board Chess_init) → valid_codes (fen_board scenario_ranks))
  ∧ @nil Effect = []
  ∧ (BLACK = BLACK ↔ split "6k1/8/8/8/8/8/8/R5K1 b - - 0 1" " " !! 1%nat = Some "b")
  ∧ (BLACK = WHITE ↔ split "6k1/8/8/8/8/8/8/R5K1 b - - 0 1" " " !! 1%nat ≠ Some "b").
Proof.
  assert (Hwf : wf_board (board Chess_init))
    by (split; [reflexivity|repeat constructor; unfold int_cell; lia]).
  assert (Hrun : loadFEN "6k1/8/8/8/8/8/8/R5K1 b - - 0 1" Chess_init
                 = Ok (tt, {| debugging := false; currentPlayer := BLACK;
                              board := fen_board scenario_ranks |}, []))
    by reflexivity.
  split; [exact Hwf|]. split; [exact Hrun|].
  exact (loadFEN_keeps _ _ _ _ Hwf Hrun).
Defined.

(** X26.  A FEN without a space has no active-colour field: [loadFEN]
    reads the missing element of the vector of fields and faults, before
    it has touched the board. *)
Theorem loadFEN_no_colour (FEN : string) (s : Chess) :
  no_delim " " FEN → loadFEN FEN s = Err OutOfBounds.
Proof.
  intros Hnd. unfold loadFEN, split. rewrite split_from_last by done.
  change (EmptyString +:+ FEN) with FEN. by destruct FEN.
Qed.

Lemma loadFEN_no_colour_witness :
  no_delim " " "6k1/8/8/8/8/8/8/R5K1"
  ∧ loadFEN "6k1/8/8/8/8/8/8/R5K1" Chess_init = Err OutOfBounds.
Proof.
  assert (H : no_delim " " "6k1/8/8/8/8/8/8/R5K1") by reflexivity.
  split; [exact H|]. exact (loadFEN_no_colour _ Chess_init H).
Defined.

(** ** Reading the moves: what follows the fourth character *)

Lemma substr_head (c0 c1 c2 c3 : ascii) (rest : string) :
  substr (String c0 (String c1 (String c2 (String c3 rest)))) 0 2
  = Ok (String c0 (String c1 EmptyString))
  ∧ substr (String c0 (String c1 (String c2 (String c3 rest)))) 2 2
    = Ok (String c2 (String c3 EmptyString)).
Proof. split; unfold substr; cbn; by destruct rest. Qed.

(** X27.  [loadMoves] reads the first four characters of a token and
    ignores the rest: a token followed by further characters other than a
    space, such as the promotion letter of e7e8q, is read as the token
    alone. *)
Theorem loadMoves_suffix (c0 c1 c2 c3 : ascii) (suffix : string) (s : ChessPuzzle) :
  no_delim " " (String c0 (String c1 (String c2 (String c3 suffix)))) →
  loadMoves (String c0 (String c1 (String c2 (String c3 suffix)))) s
  = loadMoves (String c0 (String c1 (String c2 (String c3 EmptyString)))) s.
Proof.
  intros Hnd.
  assert (Hnd4 : no_delim " " (String c0 (String c1 (String c2 (String c3 EmptyString))))).
  { unfold no_delim in *. cbn [string_forall] in *.
    repeat (apply andb_true_iff in Hnd as [? Hnd]).
    repeat (apply andb_true_iff; split; try done). }
  unfold loadMoves, split. rewrite !split_from_last by done.
  change (EmptyString +:+ ?x) with x. cbn [for_each].
  by rewrite !(proj1 (substr_head c0 c1 c2 c3 _)), !(proj2 (substr_head c0 c1 c2 c3 _)).
Qed.

Lemma loadMoves_suffix_witness :
  no_delim " " "e7e8q"
  ∧ loadMoves "e7e8q" ChessPuzzle_init = loadMoves "e7e8" ChessPuzzle_init
  ∧ loadMoves "e7e8" ChessPuzzle_init
    = Ok (tt, set_solutionMoves [({| row := 1; col := 4 |}, {| row := 0; col := 4 |})]
                ChessPuzzle_init, []).
Proof.
  assert (H : no_delim " " "e7e8q") by reflexivity.
  split; [exact H|]. split; [|reflexivity].
  exact (loadMoves_suffix "e" "7" "e" "8" "q" ChessPuzzle_init H).
Defined.

(** ** The constructor from a record: what makes it fail *)

Lemma bind_then_err {S A B} (m : M S A) (f : A → M S B) s a s1 e1 e :
  m s = Ok (a, s1, e1) →
  f a s1 = Err e →
  (m ≫= f) s = Err e.
Proof. intros Hm Hf. by rewrite (bind_ok _ _ _ _ _ _ Hm), Hf. Qed.

(** X28.  A record of at least 9 fields whose field 3 [std::stoi] cannot
    read: the constructor fails with the exception of [std::stoi], before
    it has looked at the position or at the moves. *)
Theorem new_ChessPuzzle_bad_rating (PGN rating : string) (e : fault) :
  (9 <= length (split PGN ","))%nat →
  split PGN "," !! 3%nat = Some rating →
  stoi rating = Err e →
  new_ChessPuzzle PGN = Err e.
Proof.
  intros Hlen Hrating Hstoi.
  destruct (lookup_lt_is_Some_2 (split PGN ",") 1) as [fen Hfen]; [lia|].
  destruct (lookup_lt_is_Some_2 (split PGN ",") 2) as [moves Hmoves]; [lia|].
  destruct (lookup_lt_is_Some_2 (split PGN ",") 7) as [themes Hthemes]; [lia|].
  unfold new_ChessPuzzle, ChessPuzzle_ctor.
  rewrite (bind_ok _ _ _ _ _ _ (liftBase_run _ _ _ _ _ (Chess_ctor_run _))).
  rewrite (bind_ok _ _ _ tt (set_base (set_debugging true Chess_init) ChessPuzzle_init) [])
    by reflexivity.
  cbv zeta.
  replace (length (split PGN ",") <? 9)%nat with false
    by (symmetry; apply Nat.ltb_ge; lia).
  rewrite (bind_ok _ _ _ fen _ [])
    by (unfold liftR; by rewrite (vector_at_lookup _ 1 fen) by (done || lia)).
  rewrite (bind_ok _ _ _ moves _ [])
    by (unfold liftR; by rewrite (vector_at_lookup _ 2 moves) by (done || lia)).
  rewrite (bind_ok _ _ _ themes _ [])
    by (unfold liftR; by rewrite (vector_at_lookup _ 7 themes) by (done || lia)).
  rewrite (bind_err _ _ _ e); [reflexivity|].
  unfold liftR. rewrite (vector_at_lookup _ 3 rating) by (done || lia).
  cbn [mbind result_bind]. by rewrite Hstoi.
Qed.

Lemma new_ChessPuzzle_bad_rating_witness :
  (9 <= length (split "id,6k1/8/8/8/8/8/8/R5K1 w - - 0 1,a1a8 g8h7,Rating,75,90,100,mate,url" ","))%nat
  ∧ split "id,6k1/8/8/8/8/8/8/R5K1 w - - 0 1,a1a8 g8h7,Rating,75,90,100,mate,url" ","
      !! 3%nat = Some "Rating"
  ∧ stoi "Rating" = Err (Thrown "stoi")
  ∧ new_ChessPuzzle "id,6k1/8/8/8/8/8/8/R5K1 w - - 0 1,a1a8 g8h7,Rating,75,90,100,mate,url"
    = Err (Thrown "stoi").
Proof.
  assert (Hlen : (9 <= length (split
     "id,6k1/8/8/8/8/8/8/R5K1 w - - 0 1,a1a8 g8h7,Rating,75,90,100,mate,url" ","))%nat)
    by (vm_compute; lia).
  split; [exact Hlen|]. split; [reflexivity|]. split; [reflexivity|].
  exact (new_ChessPuzzle_bad_rating _ "Rating" _ Hlen eq_refl eq_refl).
Defined.

(** X29.  A record of at least 9 fields with a well-formed FEN and a
    rating, but an empty field of moves: the solution list stays empty and
    the constructor faults when it reads the move at index 0 to play the
    forced first move. *)
Theorem new_ChessPuzzle_no_moves
    (PGN fen rating placement colour : string) (tail ranks : list string) (elo : Z) :
  (9 <= length (split PGN ","))%nat →
  split PGN "," !! 1%nat = Some fen →
  split PGN "," !! 2%nat = Some EmptyString →
  split PGN "," !! 3%nat = Some rating →
  split fen " " = placement :: colour :: tail →
  placement = String.concat "/" ranks →
  length ranks = 8%nat →
  Forall wf_rank ranks →
  stoi rating = Ok elo →
  new_ChessPuzzle PGN = Err OutOfBounds.
Proof.
  intros Hlen Hfen Hmoves Hrating Hsplit Hplace Hranks Hwf Helo.
  destruct (lookup_lt_is_Some_2 (split PGN ",") 7) as [themes Hthemes]; [lia|].
  pose proof (loadFEN_run fen placement colour tail ranks
                (set_debugging true Chess_init) Hsplit Hplace Hranks Hwf eq_refl)
    as Hload.
  unfold new_ChessPuzzle, ChessPuzzle_ctor.
  eapply bind_then_err; [apply liftBase_run, Chess_ctor_run|].
  eapply bind_then_err; [reflexivity|].
  cbv zeta.
  replace (length (split PGN ",") <? 9)%nat with false
    by (symmetry; apply Nat.ltb_ge; lia).
  eapply bind_then_err;
    [unfold liftR; rewrite (vector_at_lookup _ 1 fen) by (done || lia); reflexivity|].
  eapply bind_then_err;
    [unfold liftR; rewrite (vector_at_lookup _ 2 EmptyString) by (done || lia);
     reflexivity|].
  eapply bind_then_err;
    [unfold liftR; rewrite (vector_at_lookup _ 7 themes) by (done || lia); reflexivity|].
  eapply bind_then_err;
    [unfold liftR; rewrite (vector_at_lookup _ 3 rating) by (done || lia);
     cbn [mbind result_bind]; rewrite Helo; reflexivity|].
  eapply bind_then_err; [reflexivity|].
  eapply bind_then_err; [apply liftBase_run; exact Hload|].
  eapply bind_then_err; [reflexivity|].
  reflexivity.
Qed.

Lemma new_ChessPuzzle_no_moves_witness :
  (9 <= length (split "id,6k1/8/8/8/8/8/8/R5K1 w - - 0 1,,1500,75,90,100,mate,url" ","))%nat
  ∧ split "id,6k1/8/8/8/8/8/8/R5K1 w - - 0 1,,1500,75,90,100,mate,url" "," !! 1%nat
    = Some "6k1/8/8/8/8/8/8/R5K1 w - - 0 1"
  ∧ split "id,6k1/8/8/8/8/8/8/R5K1 w - - 0 1,,1500,75,90,100,mate,url" "," !! 2%nat
    = Some EmptyString
  ∧ split "id,6k1/8/8/8/8/8/8/R5K1 w - - 0 1,,1500,75,90,100,mate,url" "," !! 3%nat
    = Some "1500"
  ∧ Forall wf_rank scenario_ranks
  ∧ new_ChessPuzzle "id,6k1/8/8/8/8/8/8/R5K1 w - - 0 1,,1500,75,90,100,mate,url"
    = Err OutOfBounds.
Proof.
  assert (Hlen : (9 <= length (split
     "id,6k1/8/8/8/8/8/8/R5K1 w - - 0 1,,1500,75,90,100,mate,url" ","))%nat)
    by (vm_compute; lia).
  assert (Hwf : Forall wf_rank scenario_ranks) by (repeat constructor; reflexivity).
  split; [exact Hlen|]. split; [reflexivity|]. split; [reflexivity|].
  split; [reflexivity|]. split; [exact Hwf|].
  exact (new_ChessPuzzle_no_moves _ "6k1/8/8/8/8/8/8/R5K1 w - - 0 1" "1500"
           "6k1/8/8/8/8/8/8/R5K1" "w" ["-"; "-"; "0"; "1"] scenario_ranks 1500
           Hlen eq_refl eq_refl eq_refl eq_refl eq_refl eq_refl Hwf eq_refl).
Defined.

(** ** A pawn captures straight ahead *)

(** X30.  [movePiece] lets a pawn of the side to move take the enemy piece
    that stands directly in front of it: the move is played, the pawn
    stands on the target, its origin is empty, one capture event fires and
    the turn passes. *)
Theorem movePiece_pawn_captures_ahead
    (fuel : nat) (s : Chess) (old target : Square) (t : Z) :
  wf_board (board s) → InBounds old → InBounds target → (8 <= fuel)%nat →
  cell (board s) (row old) (col old) = Some (player_code (currentPlayer s)) →
  row target = row old - player_code (currentPlayer s) →
  col target = col old →
  cell (board s) (row target) (col target) = Some t →
  t * player_code (currentPlayer s) < 0 →
  ∃ s' evs,
    movePiece fuel old target s = Ok (tt, s', evs)
    ∧ cell (board s') (row target) (col target) = Some (player_code (currentPlayer s))
    ∧ cell (board s') (row old) (col old) = Some 0
    ∧ fired is_capture evs = 1%nat
    ∧ currentPlayer s' = opponent (currentPlayer s).
Proof.
  intros Hwf Ho Ht Hfuel Hp Hrow Hcol Htc Henemy.
  set (pc := player_code (currentPlayer s)) in *.
  assert (Hpc : pc = 1 ∨ pc = -1) by (subst pc; destruct (currentPlayer s); auto).
  rewrite (movePiece_run fuel s old target pc t Hp Htc). fold pc.
  assert (Hne : Square_eqb old target = false).
  { unfold Square_eqb. bool_lia. }
  replace (pc * pc <=? 0) with false by (symmetry; bool_to_prop; nia).
  replace (t * pc >? 0) with false by (symmetry; bool_lia).
  rewrite Hne. cbn [orb].
  assert (Hkind : kind_legal fuel (board s) pc old target = Ok true).
  { unfold kind_legal.
    replace (piece_of_code (Z.abs pc)) with (Some PAWN)
      by (destruct Hpc as [-> | ->]; reflexivity).
    rewrite (isLegalPawnMove_run fuel (board s) old target pc) by done.
    f_equal. unfold pawn_rule.
    replace ((row target - row old) * pc >? 0) with false by (symmetry; bool_to_prop; nia).
    replace ((Z.abs (col target - col old) =? 0) && ((row target - row old) * pc =? - (1)))
      with true by (symmetry; bool_to_prop; nia).
    reflexivity. }
  rewrite Hkind, (movePieceUnconditionally_run _ _ _ _ _ Htc Hp).
  eexists _, _. split; [reflexivity|]. cbn [board currentPlayer].
  assert (Hdiff : (row old =? row target) && (col old =? col target) = false).
  { bool_lia. }
  split.
  { rewrite (cell_moved _ _ _ _ _ _ _ Htc Hp), Hdiff, !Z.eqb_refl. reflexivity. }
  split.
  { rewrite (cell_moved _ _ _ _ _ _ _ Htc Hp), !Z.eqb_refl. reflexivity. }
  split; [|reflexivity].
  unfold fired, capture_effects, won_effects.
  replace (negb (t =? 0) && negb (pc =? 0)) with true by (symmetry; bool_to_prop; nia).
  destruct (Z.abs t =? 6); reflexivity.
Qed.

Lemma movePiece_pawn_captures_ahead_witness :
  let s := {| debugging := false; currentPlayer := WHITE;
              board := upd defaultBoard 5 4 (-3) |} in
  let old := {| row := 6; col := 4 |} in
  let target := {| row := 5; col := 4 |} in
  wf_board (board s) ∧ InBounds old ∧ InBounds target ∧ (8 <= 8)%nat
  ∧ cell (board s) (row old) (col old) = Some (player_code (currentPlayer s))
  ∧ row target = row old - player_code (currentPlayer s)
  ∧ col target = col old
  ∧ cell (board s) (row target) (col target) = Some (-3)
  ∧ -3 * player_code (currentPlayer s) < 0
  ∧ ∃ s' evs,
      movePiece 8 old target s = Ok (tt, s', evs)
      ∧ cell (board s') (row target) (col target) = Some (player_code (currentPlayer s))
      ∧ cell (board s') (row old) (col old) = Some 0
      ∧ fired is_capture evs = 1%nat
      ∧ currentPlayer s' = opponent (currentPlayer s).
Proof.
  cbv zeta.
  set (s := {| debugging := false; currentPlayer := WHITE;
               board := upd defaultBoard 5 4 (-3) |}).
  assert (Hwf : wf_board (board s))
    by (split; [reflexivity|repeat constructor; unfold int_cell; simpl; lia]).
  assert (Hold : InBounds {| row := 6; col := 4 |}) by (unfold InBounds; simpl; lia).
  assert (Htgt : InBounds {| row := 5; col := 4 |}) by (unfold InBounds; simpl; lia).
  assert (Hen : -3 * player_code (currentPlayer s) < 0) by (simpl; lia).
  split; [exact Hwf|]. split; [exact Hold|]. split; [exact Htgt|]. split; [lia|].
  split; [reflexivity|]. split; [reflexivity|]. split; [reflexivity|].
  split; [reflexivity|]. split; [exact Hen|].
  exact (movePiece_pawn_captures_ahead 8 s _ _ (-3) Hwf Hold Htgt (le_n 8)
           eq_refl eq_refl eq_refl eq_refl Hen).
Defined.

(** ** The constructor from a record: the text of the record *)

Lemma drop_empty_last_cons t t2 fields :
  drop_empty_last (t :: t2 :: fields) = t :: drop_empty_last (t2 :: fields).
Proof. by destruct t. Qed.

Lemma split_fields d fields :
  Forall (no_delim d) fields →
  split (String.concat (String d EmptyString) fields) d = drop_empty_last fields.
Proof.
  unfold split. induction fields as [|t fields IH]; intros Hnd; [reflexivity|].
  apply Forall_cons in Hnd as [Ht Hnd].
  destruct fields as [|t2 fields].
  - cbn [String.concat]. rewrite split_from_last by done.
    change (EmptyString +:+ t) with t. by destruct t.
  - change (String.concat (String d EmptyString) (t :: t2 :: fields))
      with (t +:+ String d (String.concat (String d EmptyString) (t2 :: fields))).
    rewrite split_from_token by done. change (EmptyString +:+ t) with t.
    by rewrite IH, drop_empty_last_cons.
Qed.

Lemma drop_empty_last_length fields :
  (length fields <= S (length (drop_empty_last fields)))%nat.
Proof.
  induction fields as [|t fields IH]; [simpl; lia|].
  destruct fields as [|t2 fields]; [destruct t; simpl; lia|].
  rewrite drop_empty_last_cons. cbn [length] in *. lia.
Qed.

Lemma drop_empty_last_keeps fields :
  last fields ≠ Some EmptyString → drop_empty_last fields = fields.
Proof.
  induction fields as [|t fields IH]; intros Hlast; [reflexivity|].
  destruct fields as [|t2 fields]; [by destruct t|].
  rewrite drop_empty_last_cons, IH; [done|]. by rewrite last_cons_cons in Hlast.
Qed.

Lemma drop_empty_last_lookup fields : ∀ i,
  (S i < length fields)%nat → drop_empty_last fields !! i = fields !! i.
Proof.
  induction fields as [|t fields IH]; intros i Hi; [simpl in Hi; lia|].
  destruct fields as [|t2 fields]; [simpl in Hi; lia|].
  rewrite drop_empty_last_cons. destruct i as [|i]; [reflexivity|].
  cbn [lookup list_lookup]. apply IH. cbn [length] in *. lia.
Qed.

Lemma no_delim_concat d sep parts :
  no_delim d sep → Forall (no_delim d) parts → no_delim d (String.concat sep parts).
Proof.
  intros Hsep. induction parts as [|t parts IH]; intros Hparts; [done|].
  apply Forall_cons in Hparts as [Ht Hparts].
  destruct parts as [|t2 parts]; [done|].
  change (String.concat sep (t :: t2 :: parts))
    with (t +:+ sep +:+ String.concat sep (t2 :: parts)).
  apply no_delim_app; [done|]. apply no_delim_app; [done|]. by apply IH.
Qed.

Lemma wf_rank_no_space r : wf_rank r → no_delim " " r.
Proof.
  intros [Hchars _]. unfold no_delim.
  induction r as [|c r IH]; [done|].
  cbn [string_forall] in *. apply andb_true_iff in Hchars as [Hc Hr].
  rewrite IH by done. rewrite andb_true_r.
  destruct (Ascii.eqb_spec c " ") as [->|]; [discriminate Hc|reflexivity].
Qed.

Lemma file_letter_no_space c : file_letter c = true → Ascii.eqb c " " = false.
Proof.
  intros H. destruct (Ascii.eqb_spec c " ") as [->|]; [discriminate H|reflexivity].
Qed.

Lemma rank_digit_no_space c : rank_digit c = true → Ascii.eqb c " " = false.
Proof.
  intros H. destruct (Ascii.eqb_spec c " ") as [->|]; [discriminate H|reflexivity].
Qed.

Lemma square_pair_text_tokens tokens mvs :
  Forall2 square_pair_text tokens mvs →
  Forall (no_delim " ") tokens ∧ drop_empty_last tokens = tokens.
Proof.
  induction 1 as [|tok mv tokens mvs Htok _ [IHnd IHkeep]]; [by split|].
  destruct Htok as (c0 & c1 & c2 & c3 & -> & H0 & H1 & H2 & H3 & _).
  split.
  - constructor; [|done]. unfold no_delim. cbn [string_forall].
    by rewrite (file_letter_no_space _ H0), (rank_digit_no_space _ H1),
         (file_letter_no_space _ H2), (rank_digit_no_space _ H3).
  - destruct tokens as [|t2 tokens]; [reflexivity|].
    by rewrite drop_empty_last_cons, IHkeep.
Qed.

(** C7, as stated, fails: the record of the scenario with its ninth field
    left empty.  It has 9 comma-separated fields, a well-formed FEN in
    field 1, a rating in field 3 and two square pairs in field 2; [split]
    makes no token of the empty text after the last comma, 8 tokens are
    fewer than 9, and the constructor returns before it has read a field:
    the cursor is 0, the rating 0, the board and the solution empty. *)
Lemma new_ChessPuzzle_record_empty_ninth_field :
  let fields := ["id"; "6k1/8/8/8/8/8/8/R5K1 w - - 0 1"; "a1a8 g8h7"; "1500";
                 "75"; "90"; "100"; "mate"; EmptyString] in
  let PGN := "id,6k1/8/8/8/8/8/8/R5K1 w - - 0 1,a1a8 g8h7,1500,75,90,100,mate," in
  PGN = String.concat "," fields
  ∧ Forall (no_delim ",") fields
  ∧ length fields = 9%nat
  ∧ fields !! 1%nat
    = Some (String.concat " " ["6k1/8/8/8/8/8/8/R5K1"; "w"; "-"; "-"; "0"; "1"])
  ∧ "6k1/8/8/8/8/8/8/R5K1" = String.concat "/" scenario_ranks
  ∧ length scenario_ranks = 8%nat
  ∧ Forall wf_rank scenario_ranks
  ∧ fields !! 3%nat = Some "1500"
  ∧ stoi "1500" = Ok 1500
  ∧ fields !! 2%nat = Some (String.concat " " ["a1a8"; "g8h7"])
  ∧ Forall2 square_pair_text ["a1a8"; "g8h7"]
      [({| row := 7; col := 0 |}, {| row := 0; col := 0 |});
       ({| row := 0; col := 6 |}, {| row := 1; col := 7 |})]
  ∧ split PGN "," = ["id"; "6k1/8/8/8/8/8/8/R5K1 w - - 0 1"; "a1a8 g8h7"; "1500";
                     "75"; "90"; "100"; "mate"]
  ∧ ∃ s,
      new_ChessPuzzle PGN = Ok (tt, s, [set_player WHITE])
      ∧ currentStep s = 0
      ∧ puzzleElo s = 0
      ∧ solutionMoves s = []
      ∧ board (base s) = empty_board.
Proof.
  cbv zeta.
  split; [reflexivity|]. split; [repeat constructor|]. split; [reflexivity|].
  split; [reflexivity|]. split; [reflexivity|]. split; [reflexivity|].
  split; [repeat constructor; reflexivity|]. split; [reflexivity|].
  split; [reflexivity|]. split; [reflexivity|].
  split; [repeat constructor; eexists _, _, _, _; repeat split; reflexivity|].
  split; [reflexivity|].
  eexists. split; [vm_compute; reflexivity|]. by repeat split.
Qed.

(** C7, amended.  A record of at least 9 comma-separated fields, an empty
    field after the last comma not being counted (so at least 10 when the
    last field is empty), whose field 1 consists of a placement of 8
    well-formed ranks, an active colour w or b and further space-separated
    fields, whose field 3 [std::stoi] reads as [elo], and whose field 2 is
    a non-empty space-separated list of square pairs denoting the moves
    [(f0, t0) :: mvs]: the constructor returns; the board is the placement
    with the origin of move 0 cleared and its destination holding the
    piece that stood on the origin; the cursor is 1; the rating is [elo];
    the side to move, which is also the last side emitted, is the opponent
    of the FEN's active colour. *)
Theorem new_ChessPuzzle_record
    (PGN fen moves rating placement colour : string)
    (fields tail ranks tokens : list string)
    (elo : Z) (f0 t0 : Square) (mvs : list (Square * Square)) :
  PGN = String.concat "," fields →
  Forall (no_delim ",") fields →
  (9 <= length fields)%nat →
  (last fields = Some EmptyString → (10 <= length fields)%nat) →
  fields !! 1%nat = Some fen →
  fields !! 2%nat = Some moves →
  fields !! 3%nat = Some rating →
  fen = String.concat " " (placement :: colour :: tail) →
  Forall (no_delim " ") tail →
  placement = String.concat "/" ranks →
  length ranks = 8%nat →
  Forall wf_rank ranks →
  colour = "w" ∨ colour = "b" →
  stoi rating = Ok elo →
  moves = String.concat " " tokens →
  Forall2 square_pair_text tokens ((f0, t0) :: mvs) →
  ∃ s evs,
    new_ChessPuzzle PGN = Ok (tt, s, evs)
    ∧ wf_board (board (base s))
    ∧ (∀ r c, 0 <= r <= 7 → 0 <= c <= 7 →
         cell (board (base s)) r c =
         if (row f0 =? r) && (col f0 =? c) then Some 0
         else if (row t0 =? r) && (col t0 =? c)
              then cell (fen_board ranks) (row f0) (col f0)
              else cell (fen_board ranks) r c)
    ∧ currentStep s = 1
    ∧ puzzleElo s = elo
    ∧ solutionMoves s = (f0, t0) :: mvs
    ∧ currentPlayer (base s) = opponent (fen_player colour)
    ∧ last evs = Some (set_player (opponent (fen_player colour))).
Proof.
  intros HPGN Hcommas Hlen Hlast Hfen Hmoves Hrating Hfenfields Htail
         Hplace Hranks Hwf Hcolour Helo Hmovelist Htokens.
  assert (Hsplit : split PGN "," = drop_empty_last fields)
    by (rewrite HPGN; by apply split_fields).
  assert (Hcount : (9 <= length (split PGN ","))%nat).
  { rewrite Hsplit. destruct (decide (last fields = Some EmptyString)) as [He|Hne].
    - pose proof (drop_empty_last_length fields). specialize (Hlast He). lia.
    - by rewrite drop_empty_last_keeps. }
  assert (Hfield : ∀ i x, (i < 8)%nat → fields !! i = Some x → split PGN "," !! i = Some x).
  { intros i x Hi Hx. rewrite Hsplit, drop_empty_last_lookup; [done|lia]. }
  assert (Hplacement : no_delim " " placement).
  { rewrite Hplace. apply no_delim_concat; [reflexivity|].
    eapply Forall_impl; [exact Hwf|]. apply wf_rank_no_space. }
  assert (Hfensplit :
    split fen " " = placement :: colour :: drop_empty_last tail).
  { rewrite Hfenfields, split_fields.
    - destruct tail as [|t2 tail].
      + destruct Hcolour as [-> | ->]; by destruct placement.
      + by rewrite !drop_empty_last_cons.
    - constructor; [done|]. constructor; [|done].
      destruct Hcolour as [-> | ->]; reflexivity. }
  destruct (square_pair_text_tokens _ _ Htokens) as [Hspaces Hkeep].
  assert (Hmovesplit : split moves " " = tokens)
    by (rewrite Hmovelist, split_fields, Hkeep; done).
  apply (ChessPuzzle_ctor_tokens PGN fen moves rating placement colour
           (drop_empty_last tail) ranks elo f0 t0 mvs); try done.
  - apply Hfield; [lia|done].
  - apply Hfield; [lia|done].
  - apply Hfield; [lia|done].
  - by rewrite Hmovesplit.
Qed.

Lemma new_ChessPuzzle_record_witness :
  let a1 := {| row := 7; col := 0 |} in
  let a8 := {| row := 0; col := 0 |} in
  let g8 := {| row := 0; col := 6 |} in
  let h7 := {| row := 1; col := 7 |} in
  let fields := ["id"; "6k1/8/8/8/8/8/8/R5K1 w - - 0 1"; "a1a8 g8h7"; "1500";
                 "75"; "90"; "100"; "mate"; "url"] in
  scenario_record = String.concat "," fields
  ∧ Forall (no_delim ",") fields
  ∧ (9 <= length fields)%nat
  ∧ (last fields = Some EmptyString → (10 <= length fields)%nat)
  ∧ fields !! 1%nat = Some "6k1/8/8/8/8/8/8/R5K1 w - - 0 1"
  ∧ fields !! 2%nat = Some "a1a8 g8h7"
  ∧ fields !! 3%nat = Some "1500"
  ∧ "6k1/8/8/8/8/8/8/R5K1 w - - 0 1"
    = String.concat " " ("6k1/8/8/8/8/8/8/R5K1" :: "w" :: ["-"; "-"; "0"; "1"])
  ∧ Forall (no_delim " ") ["-"; "-"; "0"; "1"]
  ∧ "6k1/8/8/8/8/8/8/R5K1" = String.concat "/" scenario_ranks
  ∧ length scenario_ranks = 8%nat
  ∧ Forall wf_rank scenario_ranks
  ∧ ("w" = "w" ∨ "w" = "b")
  ∧ stoi "1500" = Ok 1500
  ∧ "a1a8 g8h7" = String.concat " " ["a1a8"; "g8h7"]
  ∧ Forall2 square_pair_text ["a1a8"; "g8h7"] [(a1, a8); (g8, h7)]
  ∧ ∃ s evs,
      new_ChessPuzzle scenario_record = Ok (tt, s, evs)
      ∧ wf_board (board (base s))
      ∧ (∀ r c, 0 <= r <= 7 → 0 <= c <= 7 →
           cell (board (base s)) r c =
           if (row a1 =? r) && (col a1 =? c) then Some 0
           else if (row a8 =? r) && (col a8 =? c)
                then cell (fen_board scenario_ranks) (row a1) (col a1)
                else cell (fen_board scenario_ranks) r c)
      ∧ currentStep s = 1
      ∧ puzzleElo s = 1500
      ∧ solutionMoves s = [(a1, a8); (g8, h7)]
      ∧ currentPlayer (base s) = opponent (fen_player "w")
      ∧ last evs = Some (set_player (opponent (fen_player "w"))).
Proof.
  cbv zeta.
  assert (Hcommas : Forall (no_delim ",")
            ["id"; "6k1/8/8/8/8/8/8/R5K1 w - - 0 1"; "a1a8 g8h7"; "1500";
             "75"; "90"; "100"; "mate"; "url"]) by (repeat constructor).
  assert (Hlen : (9 <= length ["id"; "6k1/8/8/8/8/8/8/R5K1 w - - 0 1"; "a1a8 g8h7";
                               "1500"; "75"; "90"; "100"; "mate"; "url"])%nat)
    by (simpl; lia).
  assert (Hlast : last ["id"; "6k1/8/8/8/8/8/8/R5K1 w - - 0 1"; "a1a8 g8h7"; "1500";
                        "75"; "90"; "100"; "mate"; "url"] = Some EmptyString →
                  (10 <= length ["id"; "6k1/8/8/8/8/8/8/R5K1 w - - 0 1"; "a1a8 g8h7";
                                 "1500"; "75"; "90"; "100"; "mate"; "url"])%nat)
    by (intros H; discriminate H).
  assert (Htail : Forall (no_delim " ") ["-"; "-"; "0"; "1"]) by (repeat constructor).
  assert (Hwf : Forall wf_rank scenario_ranks)
    by (repeat constructor; reflexivity).
  assert (Hcolour : "w" = "w" ∨ "w" = "b") by (left; reflexivity).
  assert (Htokens :
    Forall2 square_pair_text ["a1a8"; "g8h7"]
      [({| row := 7; col := 0 |}, {| row := 0; col := 0 |});
       ({| row := 0; col := 6 |}, {| row := 1; col := 7 |})]).
  { repeat constructor; eexists _, _, _, _; repeat split; reflexivity. }
  split; [reflexivity|]. split; [exact Hcommas|]. split; [exact Hlen|].
  split; [exact Hlast|]. split; [reflexivity|]. split; [reflexivity|].
  split; [reflexivity|]. split; [reflexivity|]. split; [exact Htail|].
  split; [reflexivity|]. split; [reflexivity|]. split; [exact Hwf|].
  split; [exact Hcolour|]. split; [reflexivity|]. split; [reflexivity|].
  split; [exact Htokens|].
  exact (new_ChessPuzzle_record scenario_record
           "6k1/8/8/8/8/8/8/R5K1 w - - 0 1" "a1a8 g8h7" "1500"
           "6k1/8/8/8/8/8/8/R5K1" "w"
           ["id"; "6k1/8/8/8/8/8/8/R5K1 w - - 0 1"; "a1a8 g8h7"; "1500";
            "75"; "90"; "100"; "mate"; "url"]
           ["-"; "-"; "0"; "1"] scenario_ranks
           ["a1a8"; "g8h7"] 1500 _ _ _
           eq_refl Hcommas Hlen Hlast eq_refl eq_refl eq_refl eq_refl Htail
           eq_refl eq_refl Hwf Hcolour eq_refl eq_refl Htokens).
Defined.
